(** * Product discovery: listing, popularity ranking, recommendation, likes

    A shallow embedding of the product routes of the marketplace server
    (the router that serves [GET /], [GET /recommend] and
    [POST /:id/like]), together with the two helpers [addKeywords] and
    [hasKeywordMatch] they rely on.

    Conventions of the embedding.
    - A JavaScript string is a [string]: a finite sequence of code units.
    - A JavaScript [Set<string>] is a [gset string]; the code only adds to
      such sets, asks for membership, asks for the size and searches them
      for some element with a property, none of which observes insertion
      order.
    - A field that may be missing from a stored document is an [option].
    - The collection is a [list Product] in natural (storage) order.
    - [String.prototype.toLowerCase] and the store's case-insensitive
      [$regex] test are parameters of the development: nothing proved
      here depends on how they act. *)

From stdpp Require Import gmap strings list sorting.
From Stdlib Require Import Ascii ZArith Lia.

Local Open Scope Z_scope.

(** ** Strings *)

(** [s.includes(k)]: [k] occurs in [s] as a contiguous run of code units. *)
Fixpoint includes (s k : string) : bool :=
  String.prefix k s ||
  match s with
  | EmptyString => false
  | String _ s' => includes s' k
  end.

(** [k] is a substring of [s]. *)
Definition substringOf (k s : string) : Prop :=
  exists a b, s = a +:+ k +:+ b.

(** The white space of [\s] and of [trim]. *)
Definition isWhiteSpace (c : ascii) : bool :=
  existsb (Ascii.eqb c) [" "; "009"; "010"; "011"; "012"; "013"]%char.

(** The character class of [keywordSplitRegex]:
    white space, comma, full stop, semicolon, colon, slash, backslash,
    bar, both parentheses, plus, hyphen, underscore, double quote (code
    unit 34), apostrophe, exclamation mark and question mark. *)
Definition isKeywordSeparator (c : ascii) : bool :=
  isWhiteSpace c ||
  existsb (Ascii.eqb c)
    [","; "."; ";"; ":"; "/"; "\"; "|"; "("; ")"; "+"; "-"; "_"; "034"; "'";
     "!"; "?"]%char.

Fixpoint trimStart (s : string) : string :=
  match s with
  | String c s' => if isWhiteSpace c then trimStart s' else s
  | EmptyString => EmptyString
  end.

Fixpoint trimEnd (s : string) : string :=
  match s with
  | String c s' =>
      match trimEnd s' with
      | EmptyString => if isWhiteSpace c then EmptyString else String c EmptyString
      | r => String c r
      end
  | EmptyString => EmptyString
  end.

(** [s.trim()] *)
Definition trim (s : string) : string := trimEnd (trimStart s).

(** [s.split(keywordSplitRegex)]: the separator is a maximal run of
    separator characters; [cur] is the fragment being read and [inSep]
    tells whether the previous character was a separator.  A leading or a
    trailing separator gives an empty first or last fragment. *)
Fixpoint splitFrom (s cur : string) (inSep : bool) : list string :=
  match s with
  | EmptyString => [cur]
  | String c s' =>
      if isKeywordSeparator c
      then if inSep then splitFrom s' EmptyString true
           else cur :: splitFrom s' EmptyString true
      else splitFrom s' (cur +:+ String c EmptyString) false
  end.

Definition splitKeywords (s : string) : list string :=
  splitFrom s EmptyString false.

(** JavaScript truthiness of an optional string: present and not empty. *)
Definition truthy (s : option string) : bool :=
  match s with
  | Some t => negb (String.eqb t "")
  | None => false
  end.

(** ** Instances of the two parameters, for the worked examples

    Lower-casing of the letters A to Z, and a store test that treats the
    pattern as a literal to be found in the text, whatever the case. *)

Definition asciiLower (c : ascii) : ascii :=
  let n := nat_of_ascii c in
  if ((65 <=? n) && (n <=? 90))%nat then ascii_of_nat (n + 32) else c.

Fixpoint lowerAscii (s : string) : string :=
  match s with
  | EmptyString => EmptyString
  | String c s' => String (asciiLower c) (lowerAscii s')
  end.

Definition literalRegexTest (pattern text : string) : bool :=
  includes (lowerAscii text) (lowerAscii pattern).

Set Default Proof Using "Type".

Section Discovery.

(** [String.prototype.toLowerCase]. *)
Variable toLowerCase : string -> string.

(** The store's test for [$regex: pattern] with option [i] on a
    string field: [regexTest pattern text]. *)
Variable regexTest : string -> string -> bool.

(** ** Interest extraction *)

(** The words [addKeywords] adds for a non-empty title. *)
Definition titleWords (title : string) : list string :=
  List.filter (fun w => (2 <=? String.length w)%nat)
    (map trim (splitKeywords (toLowerCase title))).

Definition addKeywords (set : gset string) (title : option string)
  : gset string :=
  if negb (truthy title) then set
  else
    let words := titleWords (default "" title) in
    foldl (fun acc word => {[word]} ∪ acc) set words.

Definition hasKeywordMatch (title : option string) (keywords : gset string)
  : bool :=
  if negb (truthy title) || (size keywords =? 0)%nat then false
  else
    let lowerTitle := toLowerCase (default "" title) in
    existsb (fun keyword => includes lowerTitle keyword) (elements keywords).

(** ** Documents

    The fields of a stored product that the routes below read.  [title],
    [category], [likedBy] and [shareCount] may be missing from a raw
    document; [createdAt] is the creation time stamp. *)
Record Product := mkProduct {
  _id : string;
  title : option string;
  category : option string;
  likedBy : option (list string);
  shareCount : option Z;
  createdAt : Z
}.

(** The history fields of a stored user. *)
Record UserDoc := mkUserDoc {
  user_id : string;
  recentlyViewedProducts : option (list string);
  sharedProducts : option (list string)
}.

(** A query filter: an optional case-insensitive [$regex] on the title and
    an optional exact category. *)
Record Filter := mkFilter {
  filterTitle : option string;
  filterCategory : option string
}.

Definition matchesFilter (f : Filter) (p : Product) : bool :=
  match filterTitle f with
  | None => true
  | Some pattern =>
      match title p with
      | Some t => regexTest pattern t
      | None => false
      end
  end &&
  match filterCategory f with
  | None => true
  | Some c =>
      match category p with
      | Some c' => String.eqb c c'
      | None => false
      end
  end.

(** [sort({ createdAt: -1 })]: [a] may stand before [b]. *)
Definition newerFirst (a b : Product) : Prop := createdAt b <= createdAt a.

#[local] Instance newerFirst_dec a b : Decision (newerFirst a b).
Proof. unfold newerFirst. apply _. Defined.

(** [Product.find(filter).sort({ createdAt: -1 }).limit(n)].  The store
    does not fix the order of documents with equal keys; the model takes
    the one of [merge_sort], and nothing below depends on that choice. *)
Definition findRecent (store : list Product) (f : Filter) (n : nat)
  : list Product :=
  take n (merge_sort newerFirst (List.filter (matchesFilter f) store)).

(** [findById]: the first document with that identity. *)
Definition findProductById (store : list Product) (id : string)
  : option Product :=
  List.find (fun p => String.eqb (_id p) id) store.

Definition findUserById (users : list UserDoc) (id : string)
  : option UserDoc :=
  List.find (fun u => String.eqb (user_id u) id) users.

(** ** Popularity ranking: the aggregation pipeline of [GET /] *)

(** A document after the first [$addFields] stage; [shareCount0] is the
    [shareCount] field as rewritten by that stage. *)
Record Counted := mkCounted {
  doc : Product;
  likeCount : Z;
  shareCount0 : Z
}.

(** A document after the second [$addFields] stage. *)
Record Scored := mkScored {
  counted : Counted;
  popularityScore : Z
}.

Definition addCounts (p : Product) : Counted :=
  {| doc := p;
     likeCount := Z.of_nat (length (default [] (likedBy p)));
     shareCount0 := default 0 (shareCount p) |}.

Definition addScore (c : Counted) : Scored :=
  {| counted := c; popularityScore := likeCount c + shareCount0 c |}.

(** The sort specification, most significant key first, all descending. *)
Definition sortKey (s : Scored) : list Z :=
  [popularityScore s; likeCount (counted s); shareCount0 (counted s);
   createdAt (doc (counted s))].

(** Descending lexicographic comparison of two key vectors. *)
Fixpoint keyGe (k1 k2 : list Z) : bool :=
  match k1, k2 with
  | x :: r1, y :: r2 => (y <? x) || ((x =? y) && keyGe r1 r2)
  | _, _ => true
  end.

Definition rankedBefore (a b : Scored) : Prop :=
  keyGe (sortKey a) (sortKey b) = true.

#[local] Instance rankedBefore_dec a b : Decision (rankedBefore a b).
Proof. unfold rankedBefore. apply _. Defined.

(** The whole ranking, before [$limit]. *)
Definition popularRanking (store : list Product) (f : Filter) : list Scored :=
  merge_sort rankedBefore
    (map addScore (map addCounts (List.filter (matchesFilter f) store))).

(** [$limit: 200] then [$project: { popularityScore: 0 }]. *)
Definition popularList (store : list Product) (f : Filter) : list Counted :=
  map counted (take 200 (popularRanking store f)).

(** The sort key read off a returned document, whose [popularityScore]
    has been projected away. *)
Definition rankKey (c : Counted) : list Z :=
  [likeCount c + shareCount0 c; likeCount c; shareCount0 c;
   createdAt (doc c)].

Definition countedBefore (a b : Counted) : Prop :=
  keyGe (rankKey a) (rankKey b) = true.

(** [a] stands somewhere before [b] in [l]. *)
Definition precedes {A} (a b : A) (l : list A) : Prop :=
  exists l1 l2 l3 : list A, l = (l1 ++ a :: l2 ++ b :: l3)%list.

(** ** Responses *)
Inductive Response :=
| json_products (products : list Product)
| json_popular (products : list Counted)
| json_like (isLiked : bool) (likeCount : nat)
| json_error (status : nat) (error : string).

(** ** [GET /] *)

Definition listFilter (query category : option string) : Filter :=
  {| filterTitle :=
       if truthy query && truthy (trim <$> query) then trim <$> query
       else None;
     filterCategory :=
       if truthy category && truthy (trim <$> category) then trim <$> category
       else None |}.

Definition getProducts (store : list Product)
    (query category sort : option string) : Response :=
  let filter := listFilter query category in
  if bool_decide (sort = Some "popular")
  then json_popular (popularList store filter)
  else json_products (findRecent store filter 200).

(** ** [GET /recommend] *)

Definition HISTORY_LIMIT : nat := 50.
Definition limit : nat := 200.

(** [((req.query.q as string) || "").trim()] *)
Definition keywordOf (q : option string) : string := trim (default "" q).

Definition keywordFilter (keyword : string) : Filter :=
  {| filterTitle := if truthy (Some keyword) then Some keyword else None;
     filterCategory := None |}.

Definition fetchDefaultList (store : list Product) (keyword : string)
  : Response :=
  json_products (findRecent store (keywordFilter keyword) limit).

(** Every listing the user likes: [Product.find({ likedBy: user.id })]. *)
Definition likedListings (store : list Product) (uid : string)
  : list Product :=
  List.filter (fun p => existsb (String.eqb uid) (default [] (likedBy p)))
    store.

(** [Product.find({ likedBy: user.id }).limit(40)] *)
Definition likedProducts (store : list Product) (uid : string)
  : list Product :=
  take 40 (likedListings store uid).

(** [userDoc?.sharedProducts || []] and [userDoc?.recentlyViewedProducts || []],
    where [userDoc] is the stored user, if any. *)
Definition sharedHistory (users : list UserDoc) (uid : string) : list string :=
  default [] (findUserById users uid ≫= sharedProducts).

Definition viewedHistory (users : list UserDoc) (uid : string) : list string :=
  default [] (findUserById users uid ≫= recentlyViewedProducts).

(** [history.slice(0, HISTORY_LIMIT)] *)
Definition sharedIds (users : list UserDoc) (uid : string) : list string :=
  take HISTORY_LIMIT (sharedHistory users uid).

Definition viewedIds (users : list UserDoc) (uid : string) : list string :=
  take HISTORY_LIMIT (viewedHistory users uid).

(** [ids.length ? Product.find({ _id: { $in: ids } }) : []] *)
Definition findByIds (store : list Product) (ids : list string)
  : list Product :=
  if (length ids =? 0)%nat then []
  else List.filter (fun p => existsb (String.eqb (_id p)) ids) store.

Definition primarySources (users : list UserDoc) (store : list Product)
    (uid : string) : list Product :=
  likedProducts store uid ++ findByIds store (sharedIds users uid).

Definition secondarySources (users : list UserDoc) (store : list Product)
    (uid : string) : list Product :=
  findByIds store (viewedIds users uid).

(** [new Set(sources.map((p) => (p.category || "").trim()).filter(Boolean))] *)
Definition sourceCategories (sources : list Product) : gset string :=
  list_to_set
    (List.filter (fun c => truthy (Some c))
       (map (fun p => trim (default "" (category p))) sources)).

(** The keywords of the source titles, with the request keyword, if any,
    added in lower case. *)
Definition sourceKeywords (sources : list Product) (keyword : string)
  : gset string :=
  let set := foldl (fun acc p => addKeywords acc (title p)) ∅ sources in
  if truthy (Some keyword) then {[toLowerCase keyword]} ∪ set else set.

Definition sourceIds (primary secondary : list Product) : gset string :=
  list_to_set (map _id primary ++ map _id secondary).

(** *** The tier loop *)

Record Tiers := mkTiers {
  primaryMatches : list Product;
  secondaryMatches : list Product;
  fallbackMatches : list Product
}.

Section Scorer.

Variables primaryCategories primaryKeywords : gset string.
Variables secondaryCategories secondaryKeywords : gset string.
Variable excludeIds : gset string.

(** [!!product.category && categories.has(product.category)] *)
Definition matchesCategory (categories : gset string) (product : Product)
  : bool :=
  truthy (category product) &&
  bool_decide (default "" (category product) ∈ categories).

(** One turn of the loop over the candidates. *)
Definition classify (acc : Tiers) (product : Product) : Tiers :=
  if bool_decide (_id product ∈ excludeIds) then acc
  else
    let matchesPrimaryCategory := matchesCategory primaryCategories product in
    let matchesPrimaryKeyword :=
      hasKeywordMatch (title product) primaryKeywords in
    let matchesSecondaryCategory :=
      matchesCategory secondaryCategories product in
    let matchesSecondaryKeyword :=
      hasKeywordMatch (title product) secondaryKeywords in
    if matchesPrimaryCategory || matchesPrimaryKeyword then
      {| primaryMatches := primaryMatches acc ++ [product];
         secondaryMatches := secondaryMatches acc;
         fallbackMatches := fallbackMatches acc |}
    else if matchesSecondaryCategory || matchesSecondaryKeyword then
      {| primaryMatches := primaryMatches acc;
         secondaryMatches := secondaryMatches acc ++ [product];
         fallbackMatches := fallbackMatches acc |}
    else
      {| primaryMatches := primaryMatches acc;
         secondaryMatches := secondaryMatches acc;
         fallbackMatches := fallbackMatches acc ++ [product] |}.

Definition scoreCandidates (candidates : list Product) : Tiers :=
  foldl classify (mkTiers [] [] []) candidates.

(** [[...primaryMatches, ...secondaryMatches, ...fallbackMatches]
     .slice(0, limit)] *)
Definition mergeTiers (t : Tiers) : list Product :=
  take limit (primaryMatches t ++ secondaryMatches t ++ fallbackMatches t).

Definition merged (candidates : list Product) : list Product :=
  mergeTiers (scoreCandidates candidates).

(** *** The contract of the scorer

    [tieredMerge] is the output the contract describes, with the test for
    category membership left open: the candidates that are not excluded, the
    primary matches first, then the secondary matches among the rest, then
    all others, each group in pool order, cut at the limit. *)
Definition excluded (product : Product) : bool :=
  bool_decide (_id product ∈ excludeIds).

Definition tieredMerge (inCategories : gset string -> Product -> bool)
    (candidates : list Product) : list Product :=
  let isPrimary p :=
    inCategories primaryCategories p
    || hasKeywordMatch (title p) primaryKeywords in
  let isSecondary p :=
    inCategories secondaryCategories p
    || hasKeywordMatch (title p) secondaryKeywords in
  let pool := List.filter (fun p => negb (excluded p)) candidates in
  take 200
    (List.filter isPrimary pool
     ++ List.filter (fun p => negb (isPrimary p) && isSecondary p) pool
     ++ List.filter (fun p => negb (isPrimary p) && negb (isSecondary p)) pool).

End Scorer.

(** The candidate has a category and it is a member of the set. *)
Definition categoryIn (categories : gset string) (product : Product) : bool :=
  match category product with
  | Some c => bool_decide (c ∈ categories)
  | None => false
  end.

(** The candidate has a category other than the empty string and it is a
    member of the set. *)
Definition nonEmptyCategoryIn (categories : gset string) (product : Product)
  : bool :=
  match category product with
  | Some c => negb (String.eqb c "") && bool_decide (c ∈ categories)
  | None => false
  end.

(** *** The route, for an identified user *)

Definition candidates (store : list Product) (keyword : string)
  : list Product :=
  findRecent store (keywordFilter keyword) (limit * 2).

Definition recommendExcludeIds (users : list UserDoc) (store : list Product)
    (uid : string) : gset string :=
  sourceIds (primarySources users store uid) (secondarySources users store uid).

Definition recommendTiers (users : list UserDoc) (store : list Product)
    (uid keyword : string) : Tiers :=
  let primary := primarySources users store uid in
  let secondary := secondarySources users store uid in
  scoreCandidates
    (sourceCategories primary) (sourceKeywords primary keyword)
    (sourceCategories secondary) (sourceKeywords secondary keyword)
    (recommendExcludeIds users store uid)
    (candidates store keyword).

Definition recommendMerged (users : list UserDoc) (store : list Product)
    (uid keyword : string) : list Product :=
  mergeTiers (recommendTiers users store uid keyword).

(** [user] is the identity read from the request, when there is one. *)
Definition getRecommend (users : list UserDoc) (store : list Product)
    (user q : option string) : Response :=
  let keyword := keywordOf q in
  match user with
  | None =>
      if negb (truthy (Some keyword)) then fetchDefaultList store keyword
      else json_products (findRecent store (keywordFilter keyword) limit)
  | Some uid =>
      let primary := primarySources users store uid in
      let secondary := secondarySources users store uid in
      if (length primary =? 0)%nat && (length secondary =? 0)%nat
         && negb (truthy (Some keyword))
      then fetchDefaultList store keyword
      else
        let merged := recommendMerged users store uid keyword in
        if (length merged =? 0)%nat then fetchDefaultList store keyword
        else json_products merged
  end.

(** ** [POST /:id/like] *)

(** The [likedBy] array of a hydrated document: the schema default fills
    in a missing field. *)
Definition likedByOf (item : Product) : list string :=
  default [] (likedBy item).

Definition setLikedBy (item : Product) (l : list string) : Product :=
  {| _id := _id item; title := title item; category := category item;
     likedBy := Some l; shareCount := shareCount item;
     createdAt := createdAt item |}.

(** The toggle itself: filter the user out when present, push otherwise.
    Identities are compared in their string form, as the route does, and
    the pushed identity has the string form of the user's. *)
Definition toggleLike (item : Product) (uid : string) : Product :=
  let likedBy := likedByOf item in
  let isLiked := existsb (fun id => String.eqb id uid) likedBy in
  if isLiked
  then setLikedBy item (List.filter (fun id => negb (String.eqb id uid)) likedBy)
  else setLikedBy item (likedBy ++ [uid]).

(** [item.save()]: the stored document with the identity of [item] is
    replaced by [item]. *)
Fixpoint saveProduct (item : Product) (store : list Product) : list Product :=
  match store with
  | [] => []
  | p :: rest =>
      if String.eqb (_id p) (_id item) then item :: rest
      else p :: saveProduct item rest
  end.

(** The route returns its response and the store it leaves behind. *)
Definition postLike (store : list Product) (user : option string)
    (id : string) : Response * list Product :=
  match user with
  | None => (json_error 401 "unauthorized", store)
  | Some uid =>
      match findProductById store id with
      | None => (json_error 404 "not_found", store)
      | Some item =>
          let isLiked :=
            existsb (fun id => String.eqb id uid) (likedByOf item) in
          let item' := toggleLike item uid in
          (json_like (negb isLiked) (length (likedByOf item')),
           saveProduct item' store)
      end
  end.

(** ** Sample documents for the worked examples *)

Definition likers (n : nat) : list string :=
  (fun i => String (ascii_of_nat (97 + i)) EmptyString) <$> seq 0 n.

(** Listing A: 10 likes, 2 shares.  Listing B: 8 likes, 4 shares. *)
Definition listingA : Product :=
  mkProduct "A" (Some "desk lamp") (Some "home") (Some (likers 10)) (Some 2) 100.
Definition listingB : Product :=
  mkProduct "B" (Some "floor lamp") (Some "home") (Some (likers 8)) (Some 4) 200.

Definition electronicsL : Product :=
  mkProduct "L" (Some "Radio") (Some "electronics") (Some ["u"]) None 300.
Definition electronicsX : Product :=
  mkProduct "X" (Some "Camera") (Some "electronics") None None 50.
Definition furnitureY : Product :=
  mkProduct "Y" (Some "Chair") (Some "furniture") None None 50.
(** Forty-one listings, all liked by the user [u], the last one the most
    recent. *)
Definition likedBy41 : list Product :=
  (fun i =>
     mkProduct (String (ascii_of_nat (48 + i)) EmptyString) (Some "vase")
       (Some "home") (Some ["u"]) None (Z.of_nat i)) <$> seq 0 41.

(** * The other routes of the product router

    Conventions, besides those above.
    - An identity of a request ([req.params.id], the identity of the
      token) is a string in the format of the store, compared with the
      stored identities as the code compares them, through [String(id)].
      A string that is no identity at all makes the cast of the store
      throw; the product, owner, game and account routes are modelled on
      identities in the format, and the chat routes, which test the
      format themselves, take the test as a parameter.
    - The routes run one after the other.
    - A stored document passes the validation of its schema. *)

(** A reply of the routes below: the body of a success, or a status with
    its error message. *)
Inductive Reply (A : Type) : Type :=
| reply_ok (body : A)
| reply_error (status : nat) (error : string).

#[global] Arguments reply_ok {A} body.
#[global] Arguments reply_error {A} status error.

(** [x || 0] on a number that may be missing. *)
Definition orZero (x : option Z) : Z := default 0 x.

(** ** [POST /:id/share] and [GET /:id]: counters and histories *)

Definition setShareCount (item : Product) (n : Z) : Product :=
  {| _id := _id item; title := title item; category := category item;
     likedBy := likedBy item; shareCount := Some n;
     createdAt := createdAt item |}.

(** [$push] with [$each: [id]], [$position: 0] and [$slice: HISTORY_LIMIT]:
    the identity goes to the front and the array is cut to its first
    [HISTORY_LIMIT] entries; a missing array is created. *)
Definition pushHistory (id : string) (history : option (list string))
  : option (list string) :=
  Some (take HISTORY_LIMIT (id :: default [] history)).

Definition pushShared (id : string) (u : UserDoc) : UserDoc :=
  {| user_id := user_id u;
     recentlyViewedProducts := recentlyViewedProducts u;
     sharedProducts := pushHistory id (sharedProducts u) |}.

Definition pushViewed (id : string) (u : UserDoc) : UserDoc :=
  {| user_id := user_id u;
     recentlyViewedProducts := pushHistory id (recentlyViewedProducts u);
     sharedProducts := sharedProducts u |}.

(** [User.findByIdAndUpdate(uid, update)]: the first user with that
    identity is updated; nothing happens when there is none. *)
Fixpoint updateUserById (uid : string) (update : UserDoc -> UserDoc)
    (users : list UserDoc) : list UserDoc :=
  match users with
  | [] => []
  | u :: rest =>
      if String.eqb (user_id u) uid then update u :: rest
      else u :: updateUserById uid update rest
  end.

(** The route answers with the new counter and leaves behind the
    collection and the users. *)
Definition postShare (store : list Product) (users : list UserDoc)
    (user : option string) (id : string)
  : Reply Z * list Product * list UserDoc :=
  match findProductById store id with
  | None => (reply_error 404 "not_found", store, users)
  | Some item =>
      let item' := setShareCount item (orZero (shareCount item) + 1) in
      let store' := saveProduct item' store in
      let users' :=
        match user with
        | Some uid => updateUserById uid (pushShared (_id item')) users
        | None => users
        end in
      (reply_ok (orZero (shareCount item')), store', users')
  end.

(** What the detail route computes about engagement.  The body also
    copies the stored fields and the public name and image of the seller,
    which no statement below reads. *)
Record ProductView := mkProductView {
  viewed : Product;
  viewIsLiked : bool;
  viewLikeCount : nat;
  viewShareCount : Z
}.

Definition getProduct (store : list Product) (users : list UserDoc)
    (user : option string) (id : string)
  : Reply ProductView * list UserDoc :=
  match findProductById store id with
  | None => (reply_error 404 "not_found", users)
  | Some item =>
      let users' :=
        match user with
        | Some uid => updateUserById uid (pushViewed (_id item)) users
        | None => users
        end in
      let isLiked :=
        match user with
        | Some uid =>
            existsb (fun id => String.eqb id uid) (default [] (likedBy item))
        | None => false
        end in
      (reply_ok
         {| viewed := item;
            viewIsLiked := isLiked;
            viewLikeCount := length (default [] (likedBy item));
            viewShareCount := orZero (shareCount item) |},
       users')
  end.

(** ** Predicates on the code units of a string, for the statements *)

Fixpoint stringForall (P : ascii -> bool) (s : string) : bool :=
  match s with
  | EmptyString => true
  | String c s' => P c && stringForall P s'
  end.

(** No code unit of [w] is in the separator class of [keywordSplitRegex]. *)
Definition noSeparator (w : string) : bool :=
  stringForall (fun c => negb (isKeywordSeparator c)) w.

(** ** Whole listings: the owner routes and the cleanup of sold listings

    The routes below read and write fields that [Product] leaves out.  A
    [Listing] is a hydrated document: the fields of [Product] in [core]
    and the others beside it, the arrays and strings with the defaults of
    the schema.  Numbers that are only validated and stored ([price],
    [shippingCost]) are of a type [Num] left open, with the test
    [nonnegative] of the validator.  [joinCwd img] is the path
    [path.join(process.cwd(), img)] and a set of paths stands for the
    files on disk.  Stored documents pass the validation of the schema,
    so saving one back unchanged in the validated fields succeeds. *)

Inductive Status := selling | reserved | sold.

(** The three product states, the two trade methods and the two shipping
    fee modes of the schema, in their order there. *)
Inductive Condition := conditionHigh | conditionMiddle | conditionLow.
Inductive TradeMethod := contactless | inPerson.
Inductive ShippingFee := feeIncluded | feeExcluded.

#[local] Instance Status_eq_dec : EqDecision Status.
Proof. solve_decision. Defined.

(** [s.startsWith(prefix)] *)
Definition startsWith (s prefix : string) : bool := String.prefix prefix s.

(** The test both validators put on an image reference. *)
Definition isImagePath (val : string) : bool :=
  (1 <=? String.length val)%nat &&
  (startsWith val "http://" || startsWith val "https://"
   || startsWith val "/uploads/").

Section Listings.

Variable Num : Type.
Variable nonnegative : Num -> bool.
Variable joinCwd : string -> string.

Record Listing := mkListing {
  core : Product;
  seller : string;
  description : string;
  price : Num;
  location : string;
  images : list string;
  status : Status;
  soldAt : option Z;
  brand : string;
  condition : Condition;
  tradeMethod : TradeMethod;
  shippingFee : ShippingFee;
  shippingCost : Num
}.

(** The body of [PATCH /:id], every field optional. *)
Record PatchBody := mkPatchBody {
  patchStatus : option Status;
  patchTitle : option string;
  patchDescription : option string;
  patchPrice : option Num;
  patchCategory : option string;
  patchLocation : option string;
  patchImages : option (list string);
  patchBrand : option string;
  patchCondition : option Condition;
  patchTradeMethod : option TradeMethod;
  patchShippingFee : option ShippingFee;
  patchShippingCost : option Num
}.

(** [Body.safeParse(req.body).success], for a body of the right types. *)
Definition validPatch (b : PatchBody) : bool :=
  match patchTitle b with
  | Some t => (1 <=? String.length t)%nat
  | None => true
  end &&
  match patchPrice b with Some n => nonnegative n | None => true end &&
  match patchImages b with
  | Some l => forallb isImagePath l
  | None => true
  end &&
  match patchShippingCost b with Some n => nonnegative n | None => true end.

(** [Object.assign(item, parsed.data)]: the fields the body carries
    replace those of the document; the schema trims an assigned title. *)
Definition assignPatch (item : Listing) (b : PatchBody) : Listing :=
  {| core :=
       {| _id := _id (core item);
          title :=
            match patchTitle b with
            | Some t => Some (trim t)
            | None => title (core item)
            end;
          category :=
            match patchCategory b with
            | Some c => Some c
            | None => category (core item)
            end;
          likedBy := likedBy (core item);
          shareCount := shareCount (core item);
          createdAt := createdAt (core item) |};
     seller := seller item;
     description := default (description item) (patchDescription b);
     price := default (price item) (patchPrice b);
     location := default (location item) (patchLocation b);
     images := default (images item) (patchImages b);
     status := default (status item) (patchStatus b);
     soldAt := soldAt item;
     brand := default (brand item) (patchBrand b);
     condition := default (condition item) (patchCondition b);
     tradeMethod := default (tradeMethod item) (patchTradeMethod b);
     shippingFee := default (shippingFee item) (patchShippingFee b);
     shippingCost := default (shippingCost item) (patchShippingCost b) |}.

Definition findListingById (listings : list Listing) (id : string)
  : option Listing :=
  List.find (fun l => String.eqb (_id (core l)) id) listings.

(** [Product.findByIdAndDelete(id)]: the first document with that
    identity goes. *)
Fixpoint deleteListingById (id : string) (listings : list Listing)
  : list Listing :=
  match listings with
  | [] => []
  | l :: rest =>
      if String.eqb (_id (core l)) id then rest
      else l :: deleteListingById id rest
  end.

Fixpoint saveListing (item : Listing) (listings : list Listing)
  : list Listing :=
  match listings with
  | [] => []
  | l :: rest =>
      if String.eqb (_id (core l)) (_id (core item)) then item :: rest
      else l :: saveListing item rest
  end.

(** [deleteProductImages]: every reference that starts with [/uploads/]
    is unlinked at its joined path, in turn; a failing unlink (no such
    file) is caught and the loop goes on. *)
Definition deleteProductImages (images : list string) (files : gset string)
  : gset string :=
  foldl
    (fun files img =>
       if startsWith img "/uploads/" then files ∖ {[joinCwd img]} else files)
    files images.

(** What [PATCH /:id] answers on success. *)
Inductive PatchResult :=
| patched (product : Listing)
| patchDeleted.

(** What a handler does with a request: it answers, or it throws before
    answering (a save the schema refuses). *)
Inductive Outcome (A : Type) : Type :=
| answers (reply : Reply A)
| throws.

Arguments answers {A} reply.
Arguments throws {A}.

(** The message of the validator for a body it refuses. *)
Variable refusal : PatchBody -> string.

(** [PATCH /:id].  A save is refused when the title, which the schema
    requires, is missing or empty after the assignment. *)
Definition patchProduct (listings : list Listing) (files : gset string)
    (user : option string) (id : string) (body : PatchBody)
  : Outcome PatchResult * list Listing * gset string :=
  match user with
  | None => (answers (reply_error 401 "unauthorized"), listings, files)
  | Some uid =>
      if negb (validPatch body)
      then (answers (reply_error 400 (refusal body)), listings, files)
      else
        match findListingById listings id with
        | None => (answers (reply_error 404 "not_found"), listings, files)
        | Some item =>
            if negb (String.eqb (seller item) uid)
            then (answers (reply_error 403 "forbidden"), listings, files)
            else if bool_decide (patchStatus body = Some sold)
                    && negb (bool_decide (status item = sold))
            then (answers (reply_ok patchDeleted),
                  deleteListingById id listings,
                  deleteProductImages (images item) files)
            else
              let item' := assignPatch item body in
              if truthy (title (core item'))
              then (answers (reply_ok (patched item')),
                    saveListing item' listings, files)
              else (throws, listings, files)
        end
  end.

(** [DELETE /:id] *)
Definition deleteProduct (listings : list Listing) (files : gset string)
    (user : option string) (id : string)
  : Reply unit * list Listing * gset string :=
  match user with
  | None => (reply_error 401 "unauthorized", listings, files)
  | Some uid =>
      match findListingById listings id with
      | None => (reply_error 404 "not_found", listings, files)
      | Some item =>
          if negb (String.eqb (seller item) uid)
          then (reply_error 403 "forbidden", listings, files)
          else (reply_ok tt,
                deleteListingById id listings,
                deleteProductImages (images item) files)
      end
  end.

(** [sort({ createdAt: -1 })] on whole listings. *)
Definition listingNewerFirst (a b : Listing) : Prop :=
  createdAt (core b) <= createdAt (core a).

#[local] Instance listingNewerFirst_dec a b : Decision (listingNewerFirst a b).
Proof. unfold listingNewerFirst. apply _. Defined.

(** [GET /my]: the listings of the requester, in every status. *)
Definition getMyProducts (listings : list Listing) (user : option string)
  : Reply (list Listing) :=
  match user with
  | None => reply_error 401 "unauthorized"
  | Some uid =>
      reply_ok
        (take 200
           (merge_sort listingNewerFirst
              (List.filter (fun l => String.eqb (seller l) uid) listings)))
  end.

(** The identity and the public name of a stored user. *)
Record UserName := mkUserName {
  account_id : string;
  userId : string
}.

(** [GET /user/:userId]: the listings on sale of the first user with that
    public name. *)
Definition getUserProducts (names : list UserName) (listings : list Listing)
    (name : string) : Reply (list Listing) :=
  match List.find (fun u => String.eqb (userId u) name) names with
  | None => reply_error 404 "사용자를 찾을 수 없습니다."
  | Some targetUser =>
      reply_ok
        (take 200
           (merge_sort listingNewerFirst
              (List.filter
                 (fun l => String.eqb (seller l) (account_id targetUser)
                           && bool_decide (status l = selling))
                 listings)))
  end.

(** The scheduler: [cleanupSoldProducts] at time [now], in milliseconds.
    A listing is due when it is sold and its [soldAt] is set and at least
    an hour old. *)
Definition dueForCleanup (now : Z) (l : Listing) : bool :=
  bool_decide (status l = sold) &&
  match soldAt l with
  | Some t => t <=? now - 60 * 60 * 1000
  | None => false
  end.

Definition cleanupSoldProducts (now : Z) (listings : list Listing)
    (files : gset string) : list Listing * gset string :=
  let soldProducts := List.filter (dueForCleanup now) listings in
  if (length soldProducts =? 0)%nat then (listings, files)
  else
    foldl
      (fun state product =>
         (deleteListingById (_id (core product)) state.1,
          if (0 <? length (images product))%nat
          then deleteProductImages (images product) state.2
          else state.2))
      (listings, files) soldProducts.

End Listings.

(** The number type is read off the listings. *)
#[global] Arguments answers {A} reply.
#[global] Arguments throws {A}.
#[global] Arguments core {Num} l.
#[global] Arguments seller {Num} l.
#[global] Arguments description {Num} l.
#[global] Arguments price {Num} l.
#[global] Arguments location {Num} l.
#[global] Arguments images {Num} l.
#[global] Arguments status {Num} l.
#[global] Arguments soldAt {Num} l.
#[global] Arguments brand {Num} l.
#[global] Arguments condition {Num} l.
#[global] Arguments tradeMethod {Num} l.
#[global] Arguments shippingFee {Num} l.
#[global] Arguments shippingCost {Num} l.
#[global] Arguments patchStatus {Num} p.
#[global] Arguments patchTitle {Num} p.
#[global] Arguments patchDescription {Num} p.
#[global] Arguments patchPrice {Num} p.
#[global] Arguments patchCategory {Num} p.
#[global] Arguments patchLocation {Num} p.
#[global] Arguments patchImages {Num} p.
#[global] Arguments patchBrand {Num} p.
#[global] Arguments patchCondition {Num} p.
#[global] Arguments patchTradeMethod {Num} p.
#[global] Arguments patchShippingFee {Num} p.
#[global] Arguments patchShippingCost {Num} p.
#[global] Arguments mkListing {Num}.
#[global] Arguments mkPatchBody {Num}.
#[global] Arguments assignPatch {Num} item b.
#[global] Arguments validPatch {Num} nonnegative b.
#[global] Arguments findListingById {Num} listings id.
#[global] Arguments deleteListingById {Num} id listings.
#[global] Arguments saveListing {Num} item listings.
#[global] Arguments patched {Num} product.
#[global] Arguments patchDeleted {Num}.
#[global] Arguments patchProduct {Num} nonnegative joinCwd refusal listings files user id body.
#[global] Arguments deleteProduct {Num} joinCwd listings files user id.
#[global] Arguments listingNewerFirst {Num} a b.
#[global] Arguments getMyProducts {Num} listings user.
#[global] Arguments getUserProducts {Num} names listings name.
#[global] Arguments dueForCleanup {Num} now l.
#[global] Arguments cleanupSoldProducts {Num} joinCwd now listings files.

(** The identity of a listing. *)
Definition listingId {Num} (l : Listing Num) : string := _id (core l).

(** * The game routes of the account router

    A [GameUser] is a hydrated user, read for its game fields: each has
    the number the schema defaults to when nothing was stored.  The
    progress percentage is a number the routes only validate and store,
    of a type [Pct] left open. *)

(** ** Numbers and dates

    A stored number and a number of a body are doubles.  The game fields
    other than the progress percentage hold integers: the routes write
    them from integers of the body and by adding or subtracting
    integers.  A sum or a difference of two such numbers is the double
    nearest to the exact result, the even one of two that are equally
    near: [roundNumber x] is that double for the exact result [x].
    Below 2^53 every integer is a double; from there on a double has 53
    significant bits.  The results of the routes stay far below the
    largest double, 2^1024 or so, as a route adds at most 1000 to a
    stored number. *)
Definition roundNumber (x : Z) : Z :=
  let a := Z.abs x in
  if a <? 9007199254740992 then x
  else
    let ulp := 2 ^ (Z.log2 a - 52) in
    let q := a / ulp in
    let r := a mod ulp in
    let q' :=
      if 2 * r <? ulp then q
      else if ulp <? 2 * r then q + 1
      else if Z.even q then q else q + 1 in
    Z.sgn x * (q' * ulp).

(** The integers below 2^53 in size, on which the arithmetic of doubles
    is exact. *)
Definition safeInteger (x : Z) : Prop := Z.abs x < 9007199254740992.

(** [new Date(t)] is a date for a time of at most 8.64e15 milliseconds
    in size and an invalid date beyond. *)
Definition validDate (t : Z) : bool := Z.abs t <=? 8640000000000000.

(** [x || d] on a number: [d] replaces 0. *)
Definition orElse (d x : Z) : Z := if x =? 0 then d else x.

Inductive ShopItem := waterCan | fertilizer | growthBooster.

(** The price list of [POST /shop/buy]. *)
Definition prices (item : ShopItem) : Z :=
  match item with
  | waterCan => 25
  | fertilizer => 50
  | growthBooster => 100
  end.

Section Game.

Variable Pct : Type.
(** [min(0).max(100)] of the validator, and the number 0. *)
Variable pctInRange : Pct -> bool.
Variable pctZero : Pct.

Record GameUser := mkGameUser {
  game_id : string;
  gameCoins : Z;
  gameLevel : Z;
  gameProgressPct : Pct;
  gameProgressPoints : Z;
  gameLastCollectAt : option Z;
  gameTreesGrown : Z;
  gameWaterCans : Z;
  gameFertilizers : Z;
  gameGrowthBoosters : Z
}.

Definition findGameUser (users : list GameUser) (id : string)
  : option GameUser :=
  List.find (fun u => String.eqb (game_id u) id) users.

(** [user.save()] *)
Fixpoint saveGameUser (user : GameUser) (users : list GameUser)
  : list GameUser :=
  match users with
  | [] => []
  | u :: rest =>
      if String.eqb (game_id u) (game_id user) then user :: rest
      else u :: saveGameUser user rest
  end.

(** ** [POST /shop/buy] *)

(** The body of the answer: the purchase and the three item counts. *)
Record Purchase := mkPurchase {
  purchaseItem : ShopItem;
  purchaseQuantity : Z;
  purchaseCost : Z;
  remainingCoins : Z;
  itemsWaterCans : Z;
  itemsFertilizers : Z;
  itemsGrowthBoosters : Z
}.

(** The message of the validator for a quantity it refuses. *)
Variable shopRefusal : Z -> string.

(** The route; the cost, a product of a price and a quantity of at most
    10, is exact. *)
Definition buyItem (users : list GameUser) (user : option string)
    (item : ShopItem) (quantity : Z) : Reply Purchase * list GameUser :=
  match user with
  | None => (reply_error 401 "unauthorized", users)
  | Some uid =>
      if negb ((1 <=? quantity) && (quantity <=? 10))
      then (reply_error 400 (shopRefusal quantity), users)
      else
        match findGameUser users uid with
        | None => (reply_error 404 "user_not_found", users)
        | Some u =>
            let totalCost := prices item * quantity in
            if orElse 0 (gameCoins u) <? totalCost
            then (reply_error 400 "코인이 부족합니다.", users)
            else
              let coins := roundNumber (orElse 0 (gameCoins u) - totalCost) in
              let u' :=
                {| game_id := game_id u;
                   gameCoins := coins;
                   gameLevel := gameLevel u;
                   gameProgressPct := gameProgressPct u;
                   gameProgressPoints := gameProgressPoints u;
                   gameLastCollectAt := gameLastCollectAt u;
                   gameTreesGrown := gameTreesGrown u;
                   gameWaterCans :=
                     match item with
                     | waterCan =>
                         roundNumber (orElse 0 (gameWaterCans u) + quantity)
                     | _ => gameWaterCans u
                     end;
                   gameFertilizers :=
                     match item with
                     | fertilizer =>
                         roundNumber (orElse 0 (gameFertilizers u) + quantity)
                     | _ => gameFertilizers u
                     end;
                   gameGrowthBoosters :=
                     match item with
                     | growthBooster =>
                         roundNumber
                           (orElse 0 (gameGrowthBoosters u) + quantity)
                     | _ => gameGrowthBoosters u
                     end |} in
              (reply_ok
                 {| purchaseItem := item;
                    purchaseQuantity := quantity;
                    purchaseCost := totalCost;
                    remainingCoins := gameCoins u';
                    itemsWaterCans := orElse 0 (gameWaterCans u');
                    itemsFertilizers := orElse 0 (gameFertilizers u');
                    itemsGrowthBoosters := orElse 0 (gameGrowthBoosters u') |},
               saveGameUser u' users)
        end
  end.

(** What a user holds, counted in coins at the prices of the shop. *)
Definition wealth (u : GameUser) : Z :=
  gameCoins u + prices waterCan * gameWaterCans u
  + prices fertilizer * gameFertilizers u
  + prices growthBooster * gameGrowthBoosters u.

(** ** [PATCH /game] *)

(** The body, every field optional; [lastCollectAt] may also be given
    as [null], and is a time in whole milliseconds here (a [Date] drops
    the fraction of a time). *)
Record GamePatch := mkGamePatch {
  patchCoins : option Z;
  patchLevel : option Z;
  patchProgressPct : option Pct;
  patchProgressPoints : option Z;
  patchLastCollectAt : option (option Z);
  patchTreesGrown : option Z;
  patchWaterCans : option Z;
  patchFertilizers : option Z;
  patchGrowthBoosters : option Z
}.

Definition atLeast (n : Z) (x : option Z) : bool :=
  match x with Some v => n <=? v | None => true end.

Definition validGamePatch (b : GamePatch) : bool :=
  atLeast 0 (patchCoins b) && atLeast 1 (patchLevel b) &&
  match patchProgressPct b with Some p => pctInRange p | None => true end &&
  atLeast 0 (patchProgressPoints b) && atLeast 0 (patchTreesGrown b) &&
  atLeast 0 (patchWaterCans b) && atLeast 0 (patchFertilizers b) &&
  atLeast 0 (patchGrowthBoosters b).

(** The assignments of the route, in their order.  The reward of a
    level below 4 is exact: the validator lets no level below 1 pass. *)
Definition applyGamePatch (u : GameUser) (b : GamePatch) : GameUser :=
  let previousLevel := orElse 1 (gameLevel u) in
  let coins1 := default (gameCoins u) (patchCoins b) in
  let '(trees2, level2, pct2, coins2) :=
    match patchLevel b with
    | Some level =>
        if 4 <=? level
        then (roundNumber (orElse 0 (gameTreesGrown u) + 1), 1, pctZero,
              roundNumber (orElse 0 coins1 + 500))
        else (gameTreesGrown u, level, gameProgressPct u,
              if previousLevel <? level
              then roundNumber (orElse 0 coins1 + (level - 1) * 100)
              else coins1)
    | None => (gameTreesGrown u, gameLevel u, gameProgressPct u, coins1)
    end in
  {| game_id := game_id u;
     gameCoins := coins2;
     gameLevel := level2;
     gameProgressPct :=
       match patchProgressPct b with
       | Some p => if level2 <? 4 then p else pct2
       | None => pct2
       end;
     gameProgressPoints :=
       default (gameProgressPoints u) (patchProgressPoints b);
     gameLastCollectAt :=
       match patchLastCollectAt b with
       | Some (Some t) => if t =? 0 then None else Some t
       | Some None => None
       | None => gameLastCollectAt u
       end;
     gameTreesGrown := default trees2 (patchTreesGrown b);
     gameWaterCans := default (gameWaterCans u) (patchWaterCans b);
     gameFertilizers := default (gameFertilizers u) (patchFertilizers b);
     gameGrowthBoosters :=
       default (gameGrowthBoosters u) (patchGrowthBoosters b) |}.

(** The message of the validator for a body it refuses. *)
Variable gameRefusal : GamePatch -> string.

(** [user.save()] refuses a [gameLastCollectAt] that is an invalid
    date, which is what the route assigns for a time of the body, other
    than 0, beyond the range of [Date]. *)
Definition dateRefused (b : GamePatch) : bool :=
  match patchLastCollectAt b with
  | Some (Some t) => negb (t =? 0) && negb (validDate t)
  | _ => false
  end.

(** The route answers with the state it saved.  It catches nothing: when
    the save is refused it throws, and nothing is stored. *)
Definition patchGame (users : list GameUser) (user : option string)
    (body : GamePatch) : Outcome GameUser * list GameUser :=
  match user with
  | None => (answers (reply_error 401 "unauthorized"), users)
  | Some uid =>
      if negb (validGamePatch body)
      then (answers (reply_error 400 (gameRefusal body)), users)
      else
        match findGameUser users uid with
        | None => (answers (reply_error 404 "user_not_found"), users)
        | Some u =>
            let u' := applyGamePatch u body in
            if dateRefused body then (throws, users)
            else (answers (reply_ok u'), saveGameUser u' users)
        end
  end.

End Game.

#[global] Arguments game_id {Pct} g.
#[global] Arguments gameCoins {Pct} g.
#[global] Arguments gameLevel {Pct} g.
#[global] Arguments gameProgressPct {Pct} g.
#[global] Arguments gameProgressPoints {Pct} g.
#[global] Arguments gameLastCollectAt {Pct} g.
#[global] Arguments gameTreesGrown {Pct} g.
#[global] Arguments gameWaterCans {Pct} g.
#[global] Arguments gameFertilizers {Pct} g.
#[global] Arguments gameGrowthBoosters {Pct} g.
#[global] Arguments mkGameUser {Pct}.
#[global] Arguments findGameUser {Pct} users id.
#[global] Arguments saveGameUser {Pct} user users.
#[global] Arguments buyItem {Pct} shopRefusal users user item quantity.
#[global] Arguments wealth {Pct} u.
#[global] Arguments patchCoins {Pct} g.
#[global] Arguments patchLevel {Pct} g.
#[global] Arguments patchProgressPct {Pct} g.
#[global] Arguments patchProgressPoints {Pct} g.
#[global] Arguments patchLastCollectAt {Pct} g.
#[global] Arguments patchTreesGrown {Pct} g.
#[global] Arguments patchWaterCans {Pct} g.
#[global] Arguments patchFertilizers {Pct} g.
#[global] Arguments patchGrowthBoosters {Pct} g.
#[global] Arguments mkGamePatch {Pct}.
#[global] Arguments validGamePatch {Pct} pctInRange b.
#[global] Arguments applyGamePatch {Pct} pctZero u b.
#[global] Arguments dateRefused {Pct} b.
#[global] Arguments patchGame {Pct} pctInRange pctZero gameRefusal users user body.

(** How many of an item a user holds. *)
Definition itemCount {Pct} (item : ShopItem) (u : GameUser Pct) : Z :=
  match item with
  | waterCan => gameWaterCans u
  | fertilizer => gameFertilizers u
  | growthBooster => gameGrowthBoosters u
  end.

(** * The account router: e-mail codes and sign-up *)

Section Accounts.

(** The test of [z.string().email()]. *)
Variable isEmail : string -> bool.

(** ** [POST /send-code] and [POST /verify-code]

    A stored e-mail code, with the fields the two routes read and write
    (the schema of the collection is not among the sources).  Times are
    in milliseconds. *)
Record EmailCode := mkEmailCode {
  codeEmail : string;
  code : string;
  expiresAt : Z;
  attempts : Z
}.

Definition findCode (codes : list EmailCode) (email : string)
  : option EmailCode :=
  List.find (fun d => String.eqb (codeEmail d) email) codes.

(** [deleteOne({ email })], and [doc.deleteOne()] for the document found
    by its address: the first document with the address goes. *)
Fixpoint deleteCode (email : string) (codes : list EmailCode)
  : list EmailCode :=
  match codes with
  | [] => []
  | d :: rest =>
      if String.eqb (codeEmail d) email then rest
      else d :: deleteCode email rest
  end.

(** [findOneAndUpdate({ email }, doc, { upsert: true })], and [doc.save()]
    for the document found by its address: the first document with the
    address is replaced, and one is added when there is none. *)
Fixpoint upsertCode (doc : EmailCode) (codes : list EmailCode)
  : list EmailCode :=
  match codes with
  | [] => [doc]
  | d :: rest =>
      if String.eqb (codeEmail d) (codeEmail doc) then doc :: rest
      else d :: upsertCode doc rest
  end.

(** The messages of the parser for the bodies it refuses. *)
Variable sendRefusal : string -> string.
Variable verifyRefusal : string -> string -> string.

(** [POST /send-code] at time [now], with the code drawn and with what
    [sendMail] returned. *)
Definition sendCode (codes : list EmailCode) (now : Z) (drawn : string)
    (sent : bool) (email : string) : Reply unit * list EmailCode :=
  if negb (isEmail email) then (reply_error 500 (sendRefusal email), codes)
  else
    let codes' :=
      upsertCode
        {| codeEmail := email; code := drawn;
           expiresAt := now + 10 * 60 * 1000; attempts := 0 |}
        codes in
    if negb sent then (reply_error 500 "메일 전송에 실패했습니다.", codes')
    else (reply_ok tt, codes').

Definition validVerifyBody (email guess : string) : bool :=
  isEmail email && (4 <=? String.length guess)%nat
  && (String.length guess <=? 8)%nat.

(** [POST /verify-code] at time [now]. *)
Definition verifyCode (codes : list EmailCode) (now : Z)
    (email guess : string) : Reply unit * list EmailCode :=
  if negb (validVerifyBody email guess)
  then (reply_error 400 (verifyRefusal email guess), codes)
  else
    match findCode codes email with
    | None => (reply_error 400 "코드를 다시 요청하세요.", codes)
    | Some doc =>
        if expiresAt doc <? now
        then (reply_error 400 "코드가 만료되었습니다.", deleteCode email codes)
        else if 5 <=? attempts doc
        then (reply_error 429 "시도 횟수 초과", codes)
        else if negb (String.eqb (code doc) guess)
        then (reply_error 400 "인증코드가 일치하지 않습니다.",
              upsertCode
                {| codeEmail := codeEmail doc; code := code doc;
                   expiresAt := expiresAt doc;
                   attempts := attempts doc + 1 |}
                codes)
        else (reply_ok tt, deleteCode email codes)
    end.

(** A run of guesses for one address, each at its time; the collection
    that is left. *)
Definition verifyAll (codes : list EmailCode) (email : string)
    (guesses : list (Z * string)) : list EmailCode :=
  foldl (fun codes g => (verifyCode codes g.1 email g.2).2) codes guesses.

(** ** [POST /signup]

    A stored account, with the fields sign-up reads and writes. *)
Record Account := mkAccount {
  accountId : string;
  accountUserId : string;
  accountEmail : string;
  passwordHash : string
}.

(** [bcrypt.hash(password, 10)], the message of the parser for a body
    it refuses, and the message of the validation that [User.create]
    runs: the schema requires the three strings, and an empty string does
    not pass for a required one. *)
Variable bcryptHash : string -> string.
Variable signupRefusal : string -> string -> string -> string.
Variable validationError : Account -> string.

Definition userIdTaken (accounts : list Account) (candidate : string) : bool :=
  existsb (fun a => String.eqb (accountUserId a) candidate) accounts.

(** The loop that looks for a free user id: [fuel] is what is left of
    [maxAttempts]; a taken candidate gets a [1] appended. *)
Fixpoint pickUserId (fuel : nat) (accounts : list Account)
    (finalUserId : string) (attempts : nat) : string * nat :=
  match fuel with
  | O => (finalUserId, attempts)
  | S fuel' =>
      if userIdTaken accounts finalUserId
      then pickUserId fuel' accounts (finalUserId +:+ "1") (S attempts)
      else (finalUserId, attempts)
  end.

Definition maxAttempts : nat := 100.

Definition validSignup (userId password email : string) : bool :=
  (3 <=? String.length userId)%nat && (4 <=? String.length password)%nat
  && isEmail email.

(** The route, with the identity the store gives the new account.  It
    answers with the account it created.  The routes run one after the
    other here, so the duplicate-key error of the unique index on the
    address, which the route also catches, does not occur: the address
    was looked up just before. *)
Definition signup (accounts : list Account) (newId : string)
    (userId password email : string) : Reply Account * list Account :=
  if negb (validSignup userId password email)
  then (reply_error 400 (signupRefusal userId password email), accounts)
  else
    let trimmedUserId := trim userId in
    if negb (truthy (Some trimmedUserId))
    then (reply_error 400 "아이디를 입력해주세요.", accounts)
    else
      let trimmedEmail := trim email in
      if existsb (fun a => String.eqb (accountEmail a) trimmedEmail) accounts
      then (reply_error 409 "이미 사용 중인 이메일입니다.", accounts)
      else
        let '(finalUserId, attempts) :=
          pickUserId maxAttempts accounts trimmedUserId 0 in
        if (maxAttempts <=? attempts)%nat
        then (reply_error 409
                "시스템 오류가 발생했습니다. 잠시 후 다시 시도해주세요.",
              accounts)
        else if negb (truthy (Some finalUserId))
        then (reply_error 400 "아이디가 유효하지 않습니다.", accounts)
        else
          let user :=
            {| accountId := newId; accountUserId := finalUserId;
               accountEmail := trimmedEmail;
               passwordHash := bcryptHash password |} in
          if negb (truthy (Some (passwordHash user)))
             || negb (truthy (Some (accountEmail user)))
          then (reply_error 400 (validationError user), accounts)
          else (reply_ok user, accounts ++ [user]).

End Accounts.

(** [n] times the character [1]. *)
Fixpoint ones (n : nat) : string :=
  match n with
  | O => EmptyString
  | S n' => String "1" (ones n')
  end.

(** ** Sample documents and parameter instances for the routes above

    Prices and shipping costs in [Z], an upload directory under [/srv],
    and one message for every refused body. *)

Definition userU : UserDoc := mkUserDoc "u" None (Some ["A"]).

Definition cameraListing : Listing Z :=
  mkListing electronicsX "u" "a camera" 100 "Daegu"
    ["/uploads/x.png"; "https://cdn.example/x.png"] selling None ""
    conditionHigh inPerson feeIncluded 0.

Definition soldChair : Listing Z :=
  mkListing furnitureY "v" "a chair" 20 "Daegu" ["/uploads/y.png"]
    sold (Some 1000) "" conditionLow inPerson feeIncluded 0.

Definition titlePatch : PatchBody Z :=
  mkPatchBody None (Some "  Film camera ") None None None None None None
    None None None None.

Definition underSrv (p : string) : string := "/srv" +:+ p.

Definition gamerU : GameUser Z := mkGameUser "u" 200 3 0 0 None 0 3 2 0.

Definition levelPatch : GamePatch Z :=
  mkGamePatch None (Some 4) None None None None None None None.

Definition storedCode : EmailCode :=
  mkEmailCode "alice@example.com" "123456" 600000 0.

Definition wrongGuesses : list (Z * string) :=
  [(1, "000000"); (2, "000001"); (3, "000002"); (4, "000003");
   (5, "000004")].

(** * The chat router

    A room joins the buyer and the seller of a listing; the store has a
    unique index on the pair of the listing and the buyer.  The replies
    carry the stored room; the body of the route copies from it, and adds
    public fields of the listing and of the two users, which no statement
    below reads. *)

Section Chat.

(** [Types.ObjectId.isValid]: [new Types.ObjectId(s)] and the cast of a
    query throw on a string that fails it. *)
Variable isValidObjectId : string -> bool.

Record ChatMessage := mkChatMessage {
  message_id : string;
  author : string;
  text : string;
  messageCreatedAt : Z
}.

Record ChatRoom := mkChatRoom {
  room_id : string;
  roomProduct : string;
  buyer : string;
  roomSeller : string;
  messages : list ChatMessage;
  updatedAt : Z
}.

(** The identity and the seller of a stored listing, which is what the
    chat router reads of it. *)
Record ProductOwner := mkProductOwner {
  owned_id : string;
  ownedSeller : string
}.

Definition findOwner (owners : list ProductOwner) (id : string)
  : option ProductOwner :=
  List.find (fun p => String.eqb (owned_id p) id) owners.

Definition findRoomById (rooms : list ChatRoom) (id : string)
  : option ChatRoom :=
  List.find (fun r => String.eqb (room_id r) id) rooms.

(** [ChatRoom.findOne({ product, buyer })] *)
Definition findRoom (rooms : list ChatRoom) (product b : string)
  : option ChatRoom :=
  List.find
    (fun r => String.eqb (roomProduct r) product && String.eqb (buyer r) b)
    rooms.

Fixpoint saveRoom (room : ChatRoom) (rooms : list ChatRoom)
  : list ChatRoom :=
  match rooms with
  | [] => []
  | r :: rest =>
      if String.eqb (room_id r) (room_id room) then room :: rest
      else r :: saveRoom room rest
  end.

Definition isParticipant (room : ChatRoom) (uid : string) : bool :=
  String.eqb (buyer room) uid || String.eqb (roomSeller room) uid.

(** [sort({ updatedAt: -1 })] *)
Definition roomNewerFirst (a b : ChatRoom) : Prop :=
  updatedAt b <= updatedAt a.

#[local] Instance roomNewerFirst_dec a b : Decision (roomNewerFirst a b).
Proof. unfold roomNewerFirst. apply _. Defined.

(** [GET /rooms]; [productId] is the query parameter when it is a
    string.  The filter is cast by the store, which throws on a string
    that is no identity; the handler answers 500 then. *)
Definition getRooms (rooms : list ChatRoom) (user : option string)
    (productId : option string) : Reply (list ChatRoom) :=
  match user with
  | None => reply_error 401 "unauthorized"
  | Some uid =>
      let byProduct := truthy productId in
      if negb (isValidObjectId uid)
         || (byProduct && negb (isValidObjectId (default "" productId)))
      then reply_error 500 "채팅방 목록을 불러오는 중 오류가 발생했습니다."
      else
        reply_ok
          (merge_sort roomNewerFirst
             (List.filter
                (fun r =>
                   isParticipant r uid
                   && (negb byProduct
                       || String.eqb (roomProduct r) (default "" productId)))
                rooms))
  end.

(** [POST /open] at time [now], with the identity [newId] the store
    gives a room it creates; the body is a listing identity and,
    optionally, a buyer identity.  The duplicate-key error the route
    catches around the creation does not occur here: the room was looked
    up just before. *)
Definition openRoom (owners : list ProductOwner) (rooms : list ChatRoom)
    (now : Z) (newId : string) (user : option string) (productId : string)
    (buyerId : option string) : Reply ChatRoom * list ChatRoom :=
  let failure := reply_error 500 "채팅방을 여는 중 오류가 발생했습니다." in
  match user with
  | None => (reply_error 401 "unauthorized", rooms)
  | Some uid =>
      if negb (isValidObjectId productId) then (failure, rooms)
      else
        match findOwner owners productId with
        | None => (reply_error 404 "상품을 찾을 수 없습니다.", rooms)
        | Some product =>
            let isSeller := String.eqb (ownedSeller product) uid in
            if negb isSeller && truthy buyerId
               && negb (String.eqb (default "" buyerId) uid)
            then (reply_error 400 "잘못된 요청입니다.", rooms)
            else
              (* [buyerObjectId], or nothing when its constructor throws *)
              let buyerObjectId : option (option string) :=
                if isSeller then
                  if truthy buyerId then
                    if isValidObjectId (default "" buyerId)
                    then Some buyerId else None
                  else Some None
                else if isValidObjectId uid then Some (Some uid) else None in
              match buyerObjectId with
              | None => (failure, rooms)
              | Some buyerObjectId =>
                  let found :=
                    match buyerObjectId with
                    | Some b => findRoom rooms (owned_id product) b
                    | None => None
                    end in
                  match found with
                  | Some room => (reply_ok room, rooms)
                  | None =>
                      if isSeller then
                        match
                          head
                            (merge_sort roomNewerFirst
                               (List.filter
                                  (fun r =>
                                     String.eqb (roomProduct r)
                                       (owned_id product))
                                  rooms))
                        with
                        | None =>
                            (reply_error 404 "채팅 요청이 없습니다.", rooms)
                        | Some latestRoom => (reply_ok latestRoom, rooms)
                        end
                      else
                        let room :=
                          {| room_id := newId;
                             roomProduct := owned_id product;
                             buyer := uid;
                             roomSeller := ownedSeller product;
                             messages := [];
                             updatedAt := now |} in
                        (reply_ok room, rooms ++ [room])
                  end
              end
        end
  end.

(** [GET /room/:roomId] *)
Definition getRoom (rooms : list ChatRoom) (user : option string)
    (roomId : string) : Reply ChatRoom :=
  match user with
  | None => reply_error 401 "unauthorized"
  | Some uid =>
      if negb (isValidObjectId roomId)
      then reply_error 400 "roomId가 올바르지 않습니다."
      else
        match findRoomById rooms roomId with
        | None => reply_error 404 "채팅방이 없습니다."
        | Some room =>
            if negb (isParticipant room uid)
            then reply_error 403 "access_denied"
            else reply_ok room
        end
  end.

(** The message of the parser for a text it refuses. *)
Variable messageRefusal : string -> string.

(** [POST /room/:roomId/messages]: the message is made at [now] and the
    room is saved at [savedAt]; [newId] is the identity the message
    gets.  The schema requires the text and trims it, so a text of white
    space passes the parser and fails the save, which the handler
    answers with 500. *)
Definition postMessage (rooms : list ChatRoom) (now savedAt : Z)
    (newId : string) (user : option string) (roomId body : string)
  : Reply (ChatMessage * ChatRoom) * list ChatRoom :=
  let failure := reply_error 500 "메시지를 전송하는 중 오류가 발생했습니다." in
  match user with
  | None => (reply_error 401 "unauthorized", rooms)
  | Some uid =>
      if negb (isValidObjectId roomId)
      then (reply_error 400 "roomId가 올바르지 않습니다.", rooms)
      else if negb ((1 <=? String.length body)%nat
                    && (String.length body <=? 500)%nat)
      then (reply_error 400 (messageRefusal body), rooms)
      else
        match findRoomById rooms roomId with
        | None => (reply_error 404 "채팅방이 없습니다.", rooms)
        | Some room =>
            if negb (isParticipant room uid)
            then (reply_error 403 "access_denied", rooms)
            else if negb (isValidObjectId uid) then (failure, rooms)
            else
              let message :=
                {| message_id := newId; author := uid; text := trim body;
                   messageCreatedAt := now |} in
              if negb (truthy (Some (text message))) then (failure, rooms)
              else
                let room' :=
                  {| room_id := room_id room;
                     roomProduct := roomProduct room;
                     buyer := buyer room;
                     roomSeller := roomSeller room;
                     messages := messages room ++ [message];
                     updatedAt := savedAt |} in
                (reply_ok (message, room'), saveRoom room' rooms)
        end
  end.

End Chat.

(** Sample rooms: a listing [P] of the seller [s], and the room the
    buyer [b] opened on it. *)
Definition anyObjectId (s : string) : bool := true.

Definition ownerP : ProductOwner := mkProductOwner "P" "s".

Definition roomB : ChatRoom := mkChatRoom "r1" "P" "b" "s" [] 10.

(** ** [POST /find-password/reset] *)

Section PasswordReset.

Variable isEmail : string -> bool.
Variable bcryptHash : string -> string.

(** The message of the parser for a body it refuses, and the message of
    the validation of [user.save()]. *)
Variable resetRefusal : string -> string -> string -> string.
Variable validationError : Account -> string.

(** [User.findOne({ email })] *)
Definition findAccountByEmail (accounts : list Account) (email : string)
  : option Account :=
  List.find (fun a => String.eqb (accountEmail a) email) accounts.

Fixpoint saveAccount (user : Account) (accounts : list Account)
  : list Account :=
  match accounts with
  | [] => []
  | a :: rest =>
      if String.eqb (accountId a) (accountId user) then user :: rest
      else a :: saveAccount user rest
  end.

Definition validResetBody (email guess newPassword : string) : bool :=
  isEmail email && (4 <=? String.length guess)%nat
  && (String.length guess <=? 8)%nat
  && (4 <=? String.length newPassword)%nat.

(** The route at time [now]: it reads the same collection of codes as
    [POST /verify-code], by the address alone. *)
Definition resetPassword (codes : list EmailCode) (accounts : list Account)
    (now : Z) (email guess newPassword : string)
  : Reply unit * list EmailCode * list Account :=
  if negb (validResetBody email guess newPassword)
  then (reply_error 400 (resetRefusal email guess newPassword), codes,
        accounts)
  else
    match findCode codes email with
    | None => (reply_error 400 "코드를 다시 요청하세요.", codes, accounts)
    | Some doc =>
        if expiresAt doc <? now
        then (reply_error 400 "코드가 만료되었습니다.",
              deleteCode email codes, accounts)
        else if 5 <=? attempts doc
        then (reply_error 429 "시도 횟수 초과", codes, accounts)
        else if negb (String.eqb (code doc) guess)
        then (reply_error 400 "인증코드가 일치하지 않습니다.",
              upsertCode
                {| codeEmail := codeEmail doc; code := code doc;
                   expiresAt := expiresAt doc;
                   attempts := attempts doc + 1 |}
                codes,
              accounts)
        else
          match findAccountByEmail accounts email with
          | None =>
              (reply_error 404 "사용자를 찾을 수 없습니다.", codes, accounts)
          | Some user =>
              let user' :=
                {| accountId := accountId user;
                   accountUserId := accountUserId user;
                   accountEmail := accountEmail user;
                   passwordHash := bcryptHash newPassword |} in
              if negb (truthy (Some (passwordHash user')))
              then (reply_error 400 (validationError user'), codes, accounts)
              else (reply_ok tt, deleteCode email codes,
                    saveAccount user' accounts)
          end
    end.

End PasswordReset.

Definition accountA : Account :=
  mkAccount "1" "alice" "alice@example.com" "old-hash".

(** * The two discovery routes as handlers

    [getProducts] and [getRecommend] give the listings a request is
    answered with when its queries go through, read as they are stored.
    The handlers differ from that in two ways, which this part adds.
    - The store refuses a query whose [$regex] is no regular expression.
      Neither handler catches anything, so such a request is never
      answered: the handler gives [None].
    - A query without [lean()] answers hydrated documents, in which the
      defaults of the schema stand for the fields the stored document
      lacks.  The default list of both routes is read that way; the
      candidates of the recommendation, read with [lean()], and the
      documents of the aggregation are not. *)

Section Handlers.

(** Whether the store takes the pattern of a [$regex] as a regular
    expression. *)
Variable regexCompiles : string -> bool.

(** The document Mongoose makes of a stored one: [category], [likedBy]
    and [shareCount] have defaults in the schema, [title] has none. *)
Definition hydrate (p : Product) : Product :=
  {| _id := _id p;
     title := title p;
     category := Some (default "기타" (category p));
     likedBy := Some (default [] (likedBy p));
     shareCount := Some (default 0 (shareCount p));
     createdAt := createdAt p |}.

Definition filterAccepted (f : Filter) : bool :=
  match filterTitle f with
  | Some pattern => regexCompiles pattern
  | None => true
  end.

(** [await Product.find(filter).sort({ createdAt: -1 }).limit(n).lean()] *)
Definition findRecentLean (store : list Product) (f : Filter) (n : nat)
  : option (list Product) :=
  if filterAccepted f then Some (findRecent store f n) else None.

(** [await Product.find(filter).sort({ createdAt: -1 }).limit(n)] *)
Definition findRecentHydrated (store : list Product) (f : Filter) (n : nat)
  : option (list Product) :=
  if filterAccepted f then Some (hydrate <$> findRecent store f n) else None.

(** [await Product.aggregate(pipeline)] *)
Definition aggregatePopular (store : list Product) (f : Filter)
  : option (list Counted) :=
  if filterAccepted f then Some (popularList store f) else None.

(** The handler of [GET /]. *)
Definition productsHandler (store : list Product)
    (query category sort : option string) : option Response :=
  let filter := listFilter query category in
  if bool_decide (sort = Some "popular")
  then list ← aggregatePopular store filter; Some (json_popular list)
  else list ← findRecentHydrated store filter 200; Some (json_products list).

Definition fetchDefaultListHandler (store : list Product) (keyword : string)
  : option Response :=
  list ← findRecentHydrated store (keywordFilter keyword) limit;
  Some (json_products list).

(** The handler of [GET /recommend], its queries in the order of the
    source; the queries of the histories carry no pattern. *)
Definition recommendHandler (users : list UserDoc) (store : list Product)
    (user q : option string) : option Response :=
  let keyword := keywordOf q in
  match user with
  | None =>
      if negb (truthy (Some keyword))
      then fetchDefaultListHandler store keyword
      else
        list ← findRecentHydrated store (keywordFilter keyword) limit;
        Some (json_products list)
  | Some uid =>
      let primary := primarySources users store uid in
      let secondary := secondarySources users store uid in
      if (length primary =? 0)%nat && (length secondary =? 0)%nat
         && negb (truthy (Some keyword))
      then fetchDefaultListHandler store keyword
      else
        let primaryCategories := sourceCategories primary in
        let secondaryCategories := sourceCategories secondary in
        let primaryKeywords := sourceKeywords primary keyword in
        let secondaryKeywords := sourceKeywords secondary keyword in
        let excludeIds := sourceIds primary secondary in
        pool ← findRecentLean store (keywordFilter keyword) (limit * 2);
        let merged :=
          mergeTiers
            (scoreCandidates primaryCategories primaryKeywords
               secondaryCategories secondaryKeywords excludeIds pool) in
        if (length merged =? 0)%nat
        then fetchDefaultListHandler store keyword
        else Some (json_products merged)
  end.

End Handlers.

(** A sample for [regexCompiles]: the patterns made of letters, digits
    and spaces.  Each of them is a regular expression, and on them the
    test of the store is the literal one of [literalRegexTest]. *)
Definition isPlainChar (c : ascii) : bool :=
  let n := nat_of_ascii c in
  ((48 <=? n) && (n <=? 57) || (65 <=? n) && (n <=? 90)
   || (97 <=? n) && (n <=? 122) || (n =? 32))%nat.

Definition plainPattern (s : string) : bool := stringForall isPlainChar s.

(** * The rate limiter in front of the account handlers

    [const limiter = rateLimit({ windowMs: 60_000, max: 10 })] is
    registered before the handlers of [/send-code], [/verify-code],
    [/signup], [/login] and the find routes, one instance for all of
    them.  The library is not among the sources: what it remembers and
    how it decides on a request are parameters, and nothing proved below
    depends on how it decides.  A request it stops is answered 429 by the
    library and does not reach the handler. *)

Section RateLimit.

Variable Limiter : Type.

(** The decision on a request of a client at a time, [true] when the
    request is passed on, with what the limiter remembers afterwards. *)
Variable limiterDecides : Limiter -> string -> Z -> bool * Limiter.

(** The body of the answer to a request it stops. *)
Variable limiterMessage : string.

Definition limited {A S : Type} (limiter : Limiter) (client : string)
    (now : Z) (handler : S -> Reply A * S) (state : S)
  : Reply A * S * Limiter :=
  let '(passed, limiter') := limiterDecides limiter client now in
  if passed then (handler state, limiter')
  else ((reply_error 429 limiterMessage, state), limiter').

Variable isEmail : string -> bool.
Variable sendRefusal : string -> string.
Variable verifyRefusal : string -> string -> string.

(** [router.post("/send-code", limiter, ...)] *)
Definition sendCodeRoute (limiter : Limiter) (client : string)
    (codes : list EmailCode) (now : Z) (drawn : string) (sent : bool)
    (email : string) : Reply unit * list EmailCode * Limiter :=
  limited limiter client now
    (fun codes => sendCode isEmail sendRefusal codes now drawn sent email)
    codes.

(** [router.post("/verify-code", limiter, ...)] *)
Definition verifyCodeRoute (limiter : Limiter) (client : string)
    (codes : list EmailCode) (now : Z) (email guess : string)
  : Reply unit * list EmailCode * Limiter :=
  limited limiter client now
    (fun codes => verifyCode isEmail verifyRefusal codes now email guess)
    codes.

(** A run of requests to [/verify-code] for one address, each with its
    client, its time and its code: the codes and the limiter that are
    left. *)
Fixpoint verifyRun (limiter : Limiter) (codes : list EmailCode)
    (email : string) (requests : list (string * Z * string))
  : list EmailCode * Limiter :=
  match requests with
  | [] => (codes, limiter)
  | request :: rest =>
      let r := verifyCodeRoute limiter request.1.1 codes request.1.2 email
                 request.2 in
      verifyRun r.2 r.1.2 email rest
  end.

(** How many requests of a run the limiter passes on to the handler. *)
Fixpoint passedOn (limiter : Limiter) (requests : list (string * Z * string))
  : nat :=
  match requests with
  | [] => 0
  | request :: rest =>
      let d := limiterDecides limiter request.1.1 request.1.2 in
      ((if d.1 then 1 else 0) + passedOn d.2 rest)%nat
  end.

Variable bcryptHash : string -> string.
Variable resetRefusal : string -> string -> string -> string.
Variable validationError : Account -> string.

(** [router.post("/find-password/reset", limiter, ...)] *)
Definition resetPasswordRoute (limiter : Limiter) (client : string)
    (codes : list EmailCode) (accounts : list Account) (now : Z)
    (email guess newPassword : string)
  : Reply unit * (list EmailCode * list Account) * Limiter :=
  limited limiter client now
    (fun state =>
       let r := resetPassword isEmail bcryptHash resetRefusal validationError
                  state.1 state.2 now email guess newPassword in
       (r.1.1, (r.1.2, r.2)))
    (codes, accounts).

End RateLimit.

(** Samples: a limiter that counts the hits of a window that does not
    end and passes the first ten on, and an address test that knows one
    address. *)
Definition tenHits (hits : nat) (client : string) (now : Z) : bool * nat :=
  ((hits <? 10)%nat, S hits).

Definition knownEmail (s : string) : bool := String.eqb s "alice@example.com".

(** * Properties *)


(** The solvers of stdpp generalise over the whole context; the parameters
    a goal does not mention are dropped first. *)
Ltac forget_parameters := try clear regexTest; try clear toLowerCase.

(** ** Strings *)

Lemma prefix_true_iff (k s : string) :
  String.prefix k s = true <-> exists b, s = k +:+ b.
Proof.
  revert s. induction k as [|c k IH]; intros s.
  - destruct s; simpl; (split; [intros _; by eexists | done]).
  - destruct s as [|d s]; simpl.
    + split; [done | intros [b Hb]; discriminate].
    + destruct (Ascii.ascii_dec c d) as [->|Hne].
      * rewrite IH. split; intros [b Hb]; exists b; [by rewrite Hb | by injection Hb].
      * split; [done | intros [b Hb]; injection Hb; congruence].
Qed.

Lemma includes_nil (k : string) :
  includes EmptyString k = String.prefix k EmptyString || false.
Proof. reflexivity. Qed.

Lemma includes_cons (c : ascii) (s k : string) :
  includes (String c s) k = String.prefix k (String c s) || includes s k.
Proof. reflexivity. Qed.

Lemma includes_true_iff (s k : string) :
  includes s k = true <-> substringOf k s.
Proof.
  unfold substringOf. induction s as [|c s IH].
  - rewrite includes_nil, orb_false_r, prefix_true_iff. split.
    + intros [b Hb]. by exists EmptyString, b.
    + intros [[|d a] [b Hb]]; simpl in Hb; [by exists b | discriminate].
  - rewrite includes_cons, orb_true_iff, prefix_true_iff, IH. split.
    + intros [[b Hb] | (a & b & Hab)].
      * by exists EmptyString, b.
      * exists (String c a), b. simpl. by rewrite Hab.
    + intros ([|d a] & b & Hab); simpl in Hab.
      * left. by exists b.
      * right. exists a, b. by injection Hab.
Qed.

Lemma includes_empty (s : string) : includes s "" = true.
Proof. apply includes_true_iff. by exists EmptyString, s. Qed.

Lemma truthy_true_iff (o : option string) :
  truthy o = true <-> exists t, o = Some t /\ t <> "".
Proof.
  destruct o as [t|]; simpl.
  - rewrite negb_true_iff. split.
    + intros H. exists t. split; [done|]. intros ->. by rewrite String.eqb_refl in H.
    + intros (t' & [= <-] & Hne). by apply String.eqb_neq.
  - split; [done | by intros (t & ? & _)].
Qed.

(** ** Interest extraction *)

Lemma foldl_add_union (words : list string) (set : gset string) :
  foldl (fun acc word => {[word]} ∪ acc) set words = set ∪ list_to_set words.
Proof.
  forget_parameters.
  revert set. induction words as [|w ws IH]; intros set; simpl.
  - set_solver.
  - rewrite IH. set_solver.
Qed.

Lemma addKeywords_union (set : gset string) (title : option string) :
  addKeywords set title =
  if truthy title then set ∪ list_to_set (titleWords (default "" title))
  else set.
Proof.
  unfold addKeywords. destruct (truthy title); simpl; [|done].
  apply foldl_add_union.
Qed.

Lemma addKeywords_superset (set : gset string) (title : option string) :
  set ⊆ addKeywords set title.
Proof.
  rewrite addKeywords_union. destruct (truthy title); forget_parameters;
    set_solver.
Qed.

Lemma titleWords_length (t w : string) :
  w ∈ titleWords t -> (2 <= String.length w)%nat.
Proof.
  unfold titleWords. rewrite list_elem_of_In, filter_In.
  intros [_ H]. by apply Nat.leb_le.
Qed.

(** C8: adding the keywords of a title to a set that already received
    them changes nothing: [addKeywords] is idempotent in its set
    argument, for every title (absent, empty or not) and every set. *)
Theorem addKeywords_idempotent (set : gset string) (title : option string) :
  addKeywords (addKeywords set title) title = addKeywords set title.
Proof.
  rewrite !addKeywords_union. destruct (truthy title); [|done].
  generalize (titleWords (default "" title)). forget_parameters. set_solver.
Qed.

Lemma hasKeywordMatch_true_iff (title : option string) (keywords : gset string) :
  hasKeywordMatch title keywords = true <->
  exists t, title = Some t /\ t <> "" /\
    exists k, k ∈ keywords /\ substringOf k (toLowerCase t).
Proof.
  unfold hasKeywordMatch.
  destruct (truthy title) eqn:Ht; simpl.
  - apply truthy_true_iff in Ht as (t & -> & Hne). simpl.
    destruct (size keywords =? 0)%nat eqn:Hsz.
    + apply Nat.eqb_eq, size_empty_iff in Hsz.
      split; [done|]. intros (t' & _ & _ & k & Hk & _). set_solver.
    + rewrite existsb_exists. split.
      * intros (k & Hk & Hinc). exists t. repeat split; [done|].
        exists k. split; [|by apply includes_true_iff].
        by apply elem_of_elements, list_elem_of_In.
      * intros (t' & [= <-] & _ & k & Hk & Hsub). exists k. split.
        -- by apply list_elem_of_In, elem_of_elements.
        -- by apply includes_true_iff.
  - split; [done|]. intros (t & -> & Hne & _).
    assert (truthy (Some t) = true) by (apply truthy_true_iff; eauto).
    congruence.
Qed.

(** C7 (as the code has it): [hasKeywordMatch] answers [true] exactly
    when the title is present and not empty and its lower-cased form
    contains some keyword of the set as a substring.  So it answers
    [false] for an empty keyword set, for an absent title and for an
    empty title, the last even when the set holds the empty keyword. *)
Theorem hasKeywordMatch_spec (title : option string) (keywords : gset string) :
  (hasKeywordMatch title keywords = true <->
   exists t, title = Some t /\ t <> "" /\
     exists k, k ∈ keywords /\ substringOf k (toLowerCase t)) /\
  hasKeywordMatch title ∅ = false /\
  hasKeywordMatch None keywords = false /\
  hasKeywordMatch (Some "") keywords = false.
Proof.
  split; [apply hasKeywordMatch_true_iff|].
  split; [|split; reflexivity].
  apply not_true_is_false. rewrite hasKeywordMatch_true_iff.
  intros (t & _ & _ & k & Hk & _). set_solver.
Qed.

(** When the set holds no empty keyword, as is the case of every set
    [addKeywords] fills from the empty set, and lower-casing keeps the empty
    string empty, the empty title needs no separate mention. *)
Lemma hasKeywordMatch_without_empty_keyword (title : option string)
    (keywords : gset string) :
  toLowerCase "" = "" -> "" ∉ keywords ->
  hasKeywordMatch title keywords = true <->
  exists t, title = Some t /\
    exists k, k ∈ keywords /\ substringOf k (toLowerCase t).
Proof.
  intros Hlow Hne. rewrite hasKeywordMatch_true_iff. split.
  - intros (t & Ht & _ & Hk). by exists t.
  - intros (t & Ht & k & Hk & a & b & Hsub). exists t. split; [done|].
    split; [|by exists k; split; [|exists a, b]].
    intros ->. rewrite Hlow in Hsub.
    destruct a; [|discriminate]. destruct k; [done|discriminate].
Qed.

Lemma addKeywords_no_empty_keyword (set : gset string) (title : option string) :
  "" ∉ set -> "" ∉ addKeywords set title.
Proof.
  intros Hset. rewrite addKeywords_union. destruct (truthy title); [|done].
  rewrite not_elem_of_union, not_elem_of_list_to_set. split; [done|].
  intros H%titleWords_length. cbn in H. lia.
Qed.

(** ** The candidate scorer *)

Section ScorerProperties.

Variables primaryCategories primaryKeywords : gset string.
Variables secondaryCategories secondaryKeywords : gset string.
Variable excludeIds : gset string.

#[local] Abbreviation classify' :=
  (classify primaryCategories primaryKeywords secondaryCategories
     secondaryKeywords excludeIds).
#[local] Abbreviation scoreCandidates' :=
  (scoreCandidates primaryCategories primaryKeywords secondaryCategories
     secondaryKeywords excludeIds).
#[local] Abbreviation merged' :=
  (merged primaryCategories primaryKeywords secondaryCategories
     secondaryKeywords excludeIds).
#[local] Abbreviation isPrimary p :=
  (matchesCategory primaryCategories p
   || hasKeywordMatch (title p) primaryKeywords).
#[local] Abbreviation isSecondary p :=
  (matchesCategory secondaryCategories p
   || hasKeywordMatch (title p) secondaryKeywords).
#[local] Abbreviation pool l := (List.filter (fun p => negb (excluded excludeIds p)) l).

Lemma matchesCategory_nonEmpty (categories : gset string) (p : Product) :
  matchesCategory categories p = nonEmptyCategoryIn categories p.
Proof.
  unfold matchesCategory, nonEmptyCategoryIn.
  destruct (category p) as [c|]; reflexivity.
Qed.

Lemma matchesCategory_true_iff (categories : gset string) (p : Product) :
  matchesCategory categories p = true <->
  exists c, category p = Some c /\ c <> "" /\ c ∈ categories.
Proof.
  unfold matchesCategory. rewrite andb_true_iff, truthy_true_iff, bool_decide_eq_true.
  split.
  - intros [(c & Hc & Hne) Hin]. rewrite Hc in Hin. by exists c.
  - intros (c & Hc & Hne & Hin). rewrite Hc. split; [by exists c | done].
Qed.

(** The loop appends to each array, in pool order, the candidates of its
    tier. *)
Lemma foldl_classify (l : list Product) (acc : Tiers) :
  foldl classify' acc l =
  {| primaryMatches :=
       primaryMatches acc ++ List.filter (fun p => isPrimary p) (pool l);
     secondaryMatches :=
       secondaryMatches acc
       ++ List.filter (fun p => negb (isPrimary p) && isSecondary p) (pool l);
     fallbackMatches :=
       fallbackMatches acc
       ++ List.filter (fun p => negb (isPrimary p) && negb (isSecondary p))
            (pool l) |}.
Proof.
  revert acc. induction l as [|p l IH]; intros acc.
  - simpl. rewrite !app_nil_r. by destruct acc.
  - cbn [foldl]. rewrite IH. unfold classify, excluded.
    cbn [List.filter].
    destruct (bool_decide (_id p ∈ excludeIds)); cbn [negb]; [done|].
    cbn [List.filter].
    destruct (isPrimary p); cbn [negb andb primaryMatches secondaryMatches
                                   fallbackMatches].
    + by rewrite <- List.app_assoc.
    + destruct (isSecondary p);
        cbn [negb andb primaryMatches secondaryMatches fallbackMatches];
        by rewrite <- List.app_assoc.
Qed.

Lemma scoreCandidates_tiers (l : list Product) :
  scoreCandidates' l =
  {| primaryMatches := List.filter (fun p => isPrimary p) (pool l);
     secondaryMatches :=
       List.filter (fun p => negb (isPrimary p) && isSecondary p) (pool l);
     fallbackMatches :=
       List.filter (fun p => negb (isPrimary p) && negb (isSecondary p))
         (pool l) |}.
Proof. unfold scoreCandidates. by rewrite foldl_classify. Qed.

Lemma filter_ext_bool {A} (f g : A -> bool) (l : list A) :
  (forall x, f x = g x) -> List.filter f l = List.filter g l.
Proof. intros H. apply List.filter_ext. exact H. Qed.

(** The merged output as the loop computes it, whatever the sets: the
    non-excluded
    candidates whose category is not empty and in the primary category set
    or whose title keyword-matches the primary keyword set, then the
    remaining non-excluded candidates whose category is not empty and in
    the secondary category set or whose title keyword-matches the
    secondary keyword set, then all other non-excluded candidates, each
    tier in pool order, cut at 200. *)
Theorem merged_is_tieredMerge (candidates : list Product) :
  merged' candidates =
  tieredMerge primaryCategories primaryKeywords secondaryCategories
    secondaryKeywords excludeIds nonEmptyCategoryIn candidates.
Proof.
  unfold merged, mergeTiers, tieredMerge, limit.
  rewrite scoreCandidates_tiers. cbn [primaryMatches secondaryMatches
                                       fallbackMatches].
  f_equal. f_equal; [|f_equal]; apply filter_ext_bool; intros p;
    by rewrite !matchesCategory_nonEmpty.
Qed.

(** C4: before the cut, the three tiers together hold as many listings as
    the pool has members outside the exclusion set. *)
Theorem tiers_count (candidates : list Product) :
  let t := scoreCandidates' candidates in
  (length (primaryMatches t) + length (secondaryMatches t)
   + length (fallbackMatches t))%nat =
  (length candidates
   - length (List.filter (excluded excludeIds) candidates))%nat.
Proof.
  cbn zeta. rewrite scoreCandidates_tiers.
  cbn [primaryMatches secondaryMatches fallbackMatches].
  assert (Hpool : (length (pool candidates)
                   + length (List.filter (excluded excludeIds) candidates)
                   = length candidates)%nat).
  { induction candidates as [|p l IH]; [done|]. cbn [List.filter].
    destruct (excluded excludeIds p); cbn [negb length]; lia. }
  assert (Hsplit : forall l : list Product,
    (length (List.filter (fun p => isPrimary p) l)
     + length (List.filter (fun p => negb (isPrimary p) && isSecondary p) l)
     + length (List.filter
                 (fun p => negb (isPrimary p) && negb (isSecondary p)) l)
     = length l)%nat).
  { induction l as [|p l IH]; [done|]. cbn [List.filter].
    destruct (isPrimary p); cbn [negb andb length]; [lia|].
    destruct (isSecondary p); cbn [negb length]; lia. }
  rewrite Hsplit. lia.
Qed.

Lemma nonEmptyCategoryIn_categoryIn (categories : gset string) (p : Product) :
  "" ∉ categories -> nonEmptyCategoryIn categories p = categoryIn categories p.
Proof.
  intros Hne. unfold nonEmptyCategoryIn, categoryIn.
  destruct (category p) as [c|]; [|done].
  destruct (String.eqb_spec c "") as [->|_]; [|done].
  cbn [negb andb]. symmetry. by apply bool_decide_eq_false_2.
Qed.

(** For category sets without the empty string, the merged output is the
    one the contract words, with plain membership of the category. *)
Lemma merged_without_empty_category (candidates : list Product) :
  "" ∉ primaryCategories -> "" ∉ secondaryCategories ->
  merged' candidates =
  tieredMerge primaryCategories primaryKeywords secondaryCategories
    secondaryKeywords excludeIds categoryIn candidates.
Proof.
  intros Hp Hs. unfold merged, mergeTiers, tieredMerge, limit.
  rewrite scoreCandidates_tiers. cbn [primaryMatches secondaryMatches
                                       fallbackMatches].
  f_equal. f_equal; [|f_equal]; apply filter_ext_bool; intros p;
    by rewrite !matchesCategory_nonEmpty, !nonEmptyCategoryIn_categoryIn.
Qed.

Lemma merged_subset_pool (candidates : list Product) (p : Product) :
  p ∈ merged' candidates -> p ∈ pool candidates.
Proof.
  unfold merged, mergeTiers. rewrite scoreCandidates_tiers.
  cbn [primaryMatches secondaryMatches fallbackMatches].
  intros H. apply subseteq_take in H. rewrite !elem_of_app in H.
  rewrite !list_elem_of_In in *.
  destruct H as [H|[H|H]]; by apply filter_In in H as [H _].
Qed.

Lemma merged_not_excluded (candidates : list Product) (p : Product) :
  p ∈ merged' candidates -> p ∈ candidates /\ _id p ∉ excludeIds.
Proof.
  intros H%merged_subset_pool. rewrite !list_elem_of_In in *.
  apply filter_In in H as [Hin Hex]. split; [done|].
  unfold excluded in Hex. apply negb_true_iff, bool_decide_eq_false in Hex.
  exact Hex.
Qed.

End ScorerProperties.

(** ** Popularity ranking *)

Lemma keyGe_total (k1 k2 : list Z) :
  keyGe k1 k2 = true \/ keyGe k2 k1 = true.
Proof.
  revert k2. induction k1 as [|x r1 IH]; intros [|y r2]; cbn [keyGe]; auto.
  destruct (IH r2) as [H|H]; rewrite H;
    destruct (Z.ltb_spec y x), (Z.ltb_spec x y), (Z.eqb_spec x y),
             (Z.eqb_spec y x); cbn; auto; lia.
Qed.

Lemma keyGe_trans (k1 k2 k3 : list Z) :
  length k1 = length k2 -> length k2 = length k3 ->
  keyGe k1 k2 = true -> keyGe k2 k3 = true -> keyGe k1 k3 = true.
Proof.
  revert k2 k3.
  induction k1 as [|x r1 IH]; intros [|y r2] [|z r3]; cbn [keyGe length];
    try done.
  intros [= L12] [= L23].
  rewrite !orb_true_iff, !andb_true_iff, !Z.ltb_lt, !Z.eqb_eq.
  intros [H1|[-> H1]] [H2|[-> H2]]; [left; lia ..|].
  right. split; [done|]. by apply (IH r2 r3).
Qed.

#[local] Instance rankedBefore_total : Total rankedBefore.
Proof. intros a b. apply keyGe_total. Qed.

#[local] Instance rankedBefore_trans : Transitive rankedBefore.
Proof. intros a b c. by apply keyGe_trans. Qed.

Lemma rankedBefore_addScore (a b : Counted) :
  rankedBefore (addScore a) (addScore b) <-> countedBefore a b.
Proof. reflexivity. Qed.

(** Every document of the ranking carries the score the pipeline computed
    for it. *)
Lemma popularRanking_scored (store : list Product) (f : Filter) (s : Scored) :
  s ∈ popularRanking store f ->
  s = addScore (counted s) /\
  counted s ∈ addCounts <$> List.filter (matchesFilter f) store.
Proof.
  unfold popularRanking. rewrite merge_sort_Permutation.
  intros (c & -> & Hc)%list_elem_of_fmap. by split.
Qed.

Lemma StronglySorted_counted (l : list Scored) :
  (forall s, s ∈ l -> s = addScore (counted s)) ->
  StronglySorted rankedBefore l ->
  StronglySorted countedBefore (counted <$> l).
Proof.
  intros Himg Hs. induction Hs as [|s l Hs IH Hall]; csimpl; constructor.
  - apply IH. intros s' Hs'. apply Himg. by right.
  - rewrite Forall_fmap. rewrite Forall_forall in Hall |- *.
    intros s' Hs'. apply (proj1 (rankedBefore_addScore _ _)).
    rewrite <- (Himg s) by left. rewrite <- (Himg s') by (by right).
    by apply Hall.
Qed.

Lemma counted_addScore (l : list Counted) : counted <$> (addScore <$> l) = l.
Proof. induction l as [|c l IH]; [done|]. csimpl. by rewrite IH. Qed.

Lemma fmap_counted_ranking (store : list Product) (f : Filter) :
  counted <$> popularRanking store f
  ≡ₚ addCounts <$> List.filter (matchesFilter f) store.
Proof.
  unfold popularRanking. rewrite merge_sort_Permutation.
  by rewrite counted_addScore.
Qed.

Lemma popularList_split (store : list Product) (f : Filter) :
  popularList store f ++ (counted <$> drop 200 (popularRanking store f))
  = counted <$> popularRanking store f.
Proof. unfold popularList. by rewrite <- fmap_app, take_drop. Qed.

Lemma popularList_sorted_with_rest (store : list Product) (f : Filter) :
  StronglySorted countedBefore
    (popularList store f ++ (counted <$> drop 200 (popularRanking store f))).
Proof.
  rewrite popularList_split. apply StronglySorted_counted.
  - intros s Hs. by apply popularRanking_scored in Hs as [Hs _].
  - apply (StronglySorted_merge_sort rankedBefore).
Qed.

Lemma precedes_of_sorted {A} (R : relation A) (a b : A) (l : list A) :
  StronglySorted R l -> a ∈ l -> b ∈ l -> a <> b -> ~ R b a -> precedes a b l.
Proof.
  intros Hs Ha Hb Hne Hba.
  apply list_elem_of_split in Hb as (l1 & l3 & ->).
  apply elem_of_app in Ha as [Ha|Ha].
  - apply list_elem_of_split in Ha as (l1' & l2 & ->).
    exists l1', l2, l3. by rewrite <- List.app_assoc.
  - apply StronglySorted_app_1_r, StronglySorted_cons in Hs as [Hall _].
    apply elem_of_cons in Ha as [->|Ha]; [done|].
    rewrite Forall_forall in Hall. by destruct (Hba (Hall a Ha)).
Qed.

(** C3: in popular mode the listing route returns at most 200 documents
    that pass the filter, each with [likeCount] the size of its [likedBy]
    and [shareCount] its share counter, both 0 when the field is missing;
    they are in descending order of (likes + shares, likes, shares,
    creation time) and are the head of a rearrangement, in that order, of
    all the documents passing the filter; the score itself is not a field of
    what is returned.  A listing with 10 likes and 2 shares stands before
    a returned listing with 8 likes and 4 shares. *)
Theorem popular_ranking_spec (store : list Product)
    (query category : option string) :
  let f := listFilter query category in
  let out := popularList store f in
  getProducts store query category (Some "popular") = json_popular out /\
  (length out <= 200)%nat /\
  (forall c, c ∈ out ->
     doc c ∈ store /\ matchesFilter f (doc c) = true /\
     likeCount c = Z.of_nat (length (default [] (likedBy (doc c)))) /\
     shareCount0 c = default 0 (shareCount (doc c))) /\
  StronglySorted countedBefore out /\
  (exists rest,
     out ++ rest ≡ₚ addCounts <$> List.filter (matchesFilter f) store /\
     (rest <> [] -> length out = 200%nat) /\
     forall a b, a ∈ out -> b ∈ rest -> countedBefore a b) /\
  (forall a b,
     a ∈ addCounts <$> List.filter (matchesFilter f) store -> b ∈ out ->
     likeCount a = 10 -> shareCount0 a = 2 ->
     likeCount b = 8 -> shareCount0 b = 4 ->
     precedes a b out).
Proof.
  intros f out.
  pose proof (popularList_sorted_with_rest store f) as Hsorted.
  pose proof (popularList_split store f) as Hsplit.
  pose proof (fmap_counted_ranking store f) as Hperm.
  fold out in Hsorted, Hsplit.
  set (rest := counted <$> drop 200 (popularRanking store f)) in *.
  assert (Hall : out ++ rest ≡ₚ addCounts <$> List.filter (matchesFilter f) store)
    by (by rewrite Hsplit).
  split; [reflexivity|].
  split; [unfold out, popularList; rewrite length_fmap, length_take; lia|].
  split.
  { intros c Hc.
    assert (Hc' : c ∈ addCounts <$> List.filter (matchesFilter f) store).
    { rewrite <- Hall. apply elem_of_app. by left. }
    apply list_elem_of_fmap in Hc' as (p & -> & Hp).
    apply list_elem_of_In, filter_In in Hp as [Hp Hm].
    by rewrite list_elem_of_In. }
  split; [by apply StronglySorted_app_1_l in Hsorted|].
  split.
  { exists rest. split; [done|]. split.
    - intros Hrest. unfold out, popularList. rewrite length_fmap, length_take.
      destruct (decide (200 <= length (popularRanking store f))%nat); [lia|].
      exfalso. apply Hrest. unfold rest. by rewrite drop_ge by lia.
    - intros a b Ha Hb. by apply (StronglySorted_app_1_elem_of _ _ _ _ _ Hsorted). }
  intros a b Ha Hb La Sa Lb Sb.
  assert (Hba : ~ countedBefore b a).
  { unfold countedBefore, rankKey. rewrite La, Sa, Lb, Sb. cbn. done. }
  assert (Hne : a <> b) by (intros ->; lia).
  rewrite <- Hall in Ha. apply elem_of_app in Ha as [Ha|Ha].
  - apply (precedes_of_sorted countedBefore); try done.
    by apply StronglySorted_app_1_l in Hsorted.
  - destruct Hba. by apply (StronglySorted_app_1_elem_of _ _ _ _ _ Hsorted).
Qed.

(** ** The default listing *)

Lemma trim_empty : trim "" = "".
Proof. reflexivity. Qed.

Lemma truthy_Some_empty : truthy (Some "") = false.
Proof. reflexivity. Qed.

(** The filter [GET /] builds from the query alone is the keyword filter of
    [GET /recommend]. *)
Lemma listFilter_keywordFilter (q : option string) :
  listFilter q None = keywordFilter (keywordOf q).
Proof.
  unfold listFilter, keywordFilter, keywordOf.
  destruct q as [t|]; [|reflexivity].
  destruct (String.eqb_spec t "") as [->|Hne]; [reflexivity|].
  cbn [truthy default fmap option_fmap option_map].
  apply String.eqb_neq in Hne. rewrite Hne. reflexivity.
Qed.

Lemma fetchDefaultList_getProducts (store : list Product) (q : option string) :
  fetchDefaultList store (keywordOf q) = getProducts store q None None.
Proof.
  unfold fetchDefaultList, getProducts, limit.
  rewrite listFilter_keywordFilter. reflexivity.
Qed.

Lemma getProducts_default (store : list Product) (q sort : option string) :
  sort <> Some "popular" ->
  getProducts store q None sort = getProducts store q None None.
Proof.
  intros Hs. unfold getProducts.
  rewrite (bool_decide_eq_false_2 _ Hs). reflexivity.
Qed.

Lemma filter_all {A} (l : list A) : List.filter (fun _ => true) l = l.
Proof. induction l as [|x l IH]; [done|]. simpl. by rewrite IH. Qed.

Lemma findRecent_no_filter (store : list Product) (n : nat) :
  findRecent store (mkFilter None None) n = take n (merge_sort newerFirst store).
Proof. unfold findRecent, matchesFilter. cbn. by rewrite filter_all. Qed.

#[local] Instance newerFirst_total : Total newerFirst.
Proof. intros a b. unfold newerFirst. lia. Qed.

#[local] Instance newerFirst_trans : Transitive newerFirst.
Proof. intros a b c. unfold newerFirst. lia. Qed.

(** What [find(filter).sort({ createdAt: -1 }).limit(n)] returns: at most
    [n] documents, most recent first, the head of a rearrangement of the
    documents that pass the filter. *)
Lemma findRecent_spec (store : list Product) (f : Filter) (n : nat) :
  (length (findRecent store f n) <= n)%nat /\
  StronglySorted newerFirst (findRecent store f n) /\
  exists rest,
    findRecent store f n ++ rest ≡ₚ List.filter (matchesFilter f) store /\
    (rest <> [] -> length (findRecent store f n) = n).
Proof.
  unfold findRecent.
  set (sorted := merge_sort newerFirst (List.filter (matchesFilter f) store)).
  split; [rewrite length_take; lia|]. split.
  - assert (Hs : StronglySorted newerFirst sorted)
      by apply (StronglySorted_merge_sort newerFirst).
    rewrite <- (take_drop n sorted) in Hs.
    by apply StronglySorted_app_1_l in Hs.
  - exists (drop n sorted). split.
    + rewrite take_drop. apply merge_sort_Permutation.
    + intros Hrest. rewrite length_take.
      destruct (decide (n <= length sorted)%nat) as [|Hlt]; [lia|].
      rewrite drop_ge in Hrest by lia. done.
Qed.

(** ** [GET /recommend] *)

(** C6: without an identity and without a keyword, the recommendation
    route answers exactly what the listing route answers in its default
    mode with no keyword: the whole collection, most recent first, cut
    at 200. *)
Theorem anonymous_recommend_is_default (users : list UserDoc)
    (store : list Product) (q q' sort : option string) :
  keywordOf q = "" ->
  keywordOf q' = "" ->
  sort <> Some "popular" ->
  getRecommend users store None q = getProducts store q' None sort /\
  getRecommend users store None q =
    json_products (take 200 (merge_sort newerFirst store)).
Proof.
  intros Hq Hq' Hs.
  assert (Hr : getRecommend users store None q = fetchDefaultList store "").
  { unfold getRecommend. rewrite Hq. reflexivity. }
  split.
  - rewrite Hr, (getProducts_default _ _ _ Hs), <- fetchDefaultList_getProducts.
    by rewrite Hq'.
  - rewrite Hr. unfold fetchDefaultList, limit.
    change (keywordFilter "") with (mkFilter None None).
    by rewrite findRecent_no_filter.
Qed.

Lemma findByIds_nil (store : list Product) : findByIds store [] = [].
Proof. reflexivity. Qed.

Lemma no_history_no_sources (users : list UserDoc) (store : list Product)
    (uid : string) :
  likedListings store uid = [] ->
  sharedHistory users uid = [] ->
  viewedHistory users uid = [] ->
  primarySources users store uid = [] /\ secondarySources users store uid = [].
Proof.
  intros Hl Hs Hv.
  unfold primarySources, secondarySources, likedProducts, sharedIds, viewedIds.
  rewrite Hl, Hs, Hv. by rewrite !take_nil.
Qed.

Lemma length_eqb_0 {A} (l : list A) : (length l =? 0)%nat = bool_decide (l = []).
Proof. by destruct l. Qed.

(** What [getRecommend] gives, for an identified user, in the two cases
    of the fallback: the default list of the keyword, which is what
    [getProducts] gives in its default mode. *)
Lemma getRecommend_fallback (users : list UserDoc)
    (store : list Product) (q : option string) (uid : string) :
  ((likedListings store uid = [] /\ sharedHistory users uid = [] /\
    viewedHistory users uid = [] /\ keywordOf q = "")
   \/ recommendMerged users store uid (keywordOf q) = []) ->
  getRecommend users store (Some uid) q =
    json_products (findRecent store (keywordFilter (keywordOf q)) 200) /\
  getRecommend users store (Some uid) q = getProducts store q None None.
Proof.
  intros H. rewrite <- fetchDefaultList_getProducts.
  enough (getRecommend users store (Some uid) q
          = fetchDefaultList store (keywordOf q)) by done.
  unfold getRecommend. rewrite !length_eqb_0.
  destruct H as [(Hl & Hs & Hv & Hk)|Hm].
  - destruct (no_history_no_sources users store uid Hl Hs Hv) as [-> ->].
    rewrite Hk. reflexivity.
  - rewrite Hm. cbn [bool_decide]. rewrite (bool_decide_eq_true_2 ([] = [])) by done.
    by case_match.
Qed.

Lemma recommendExcludeIds_iff (users : list UserDoc) (store : list Product)
    (uid x : string) :
  x ∈ recommendExcludeIds users store uid <->
  exists p, _id p = x /\
    (p ∈ likedProducts store uid \/ p ∈ findByIds store (sharedIds users uid)
     \/ p ∈ findByIds store (viewedIds users uid)).
Proof.
  unfold recommendExcludeIds, sourceIds, primarySources, secondarySources.
  rewrite elem_of_list_to_set, elem_of_app, !list_elem_of_fmap.
  setoid_rewrite elem_of_app. forget_parameters. naive_solver.
Qed.

(** C2 (as the code has it): for an identified user, no listing of the
    merged output has its identity in the exclusion set, and that set
    holds the identities of the listings the route has loaded: the first
    40 listings the user likes, [limit(40)], and the stored listings of
    the first 50 entries of the shared and of the viewed history.  A
    listing the user likes beyond those 40 is not in the set. *)
Theorem recommend_excludes (users : list UserDoc) (store : list Product)
    (uid keyword : string) (p : Product) :
  p ∈ recommendMerged users store uid keyword ->
  (_id p ∉ recommendExcludeIds users store uid) /\
  forall s, (s ∈ likedProducts store uid
             \/ s ∈ findByIds store (sharedIds users uid)
             \/ s ∈ findByIds store (viewedIds users uid)) ->
            _id p <> _id s.
Proof.
  intros H. apply merged_not_excluded in H as [_ H]. split; [done|].
  intros s Hs Heq. apply H, recommendExcludeIds_iff. by exists s.
Qed.

(** The category sets the route builds never hold the empty string, so
    on the route the merged output is the contract's, with plain
    membership of the category. *)
Lemma sourceCategories_no_empty (sources : list Product) :
  "" ∉ sourceCategories sources.
Proof.
  unfold sourceCategories. rewrite not_elem_of_list_to_set, list_elem_of_In.
  by intros [_ H]%filter_In.
Qed.

Lemma recommendMerged_contract (users : list UserDoc) (store : list Product)
    (uid keyword : string) :
  let primary := primarySources users store uid in
  let secondary := secondarySources users store uid in
  recommendMerged users store uid keyword =
  tieredMerge
    (sourceCategories primary) (sourceKeywords primary keyword)
    (sourceCategories secondary) (sourceKeywords secondary keyword)
    (recommendExcludeIds users store uid) categoryIn
    (candidates store keyword).
Proof.
  apply merged_without_empty_category; apply sourceCategories_no_empty.
Qed.

(** C1: the merged output of the scorer is the non-excluded candidates
    whose category is in the primary category set or whose title
    keyword-matches the primary keyword set, then the remaining
    non-excluded candidates whose category is in the secondary category
    set or whose title keyword-matches the secondary keyword set, then all
    other non-excluded candidates, each tier in pool order, cut at 200.
    It is so for every pool, every exclusion set, every keyword sets and
    every sets of category labels, a label being a string that is not
    empty; and these are the only category sets the loop meets, since it
    is part of the route, which builds them with [filter(Boolean)]: so it
    is so for every request of the route. *)
Theorem merged_contract :
  (forall (primaryCategories primaryKeywords secondaryCategories
             secondaryKeywords excludeIds : gset string)
          (pool : list Product),
     "" ∉ primaryCategories -> "" ∉ secondaryCategories ->
     merged primaryCategories primaryKeywords secondaryCategories
       secondaryKeywords excludeIds pool
     = tieredMerge primaryCategories primaryKeywords secondaryCategories
         secondaryKeywords excludeIds categoryIn pool) /\
  (forall sources : list Product, "" ∉ sourceCategories sources) /\
  (forall (users : list UserDoc) (store : list Product)
          (uid keyword : string),
     let primary := primarySources users store uid in
     let secondary := secondarySources users store uid in
     recommendMerged users store uid keyword
     = tieredMerge
         (sourceCategories primary) (sourceKeywords primary keyword)
         (sourceCategories secondary) (sourceKeywords secondary keyword)
         (recommendExcludeIds users store uid) categoryIn
         (candidates store keyword)).
Proof.
  split; [|split].
  - intros pc pk sc sk ex pool Hp Hs.
    by apply merged_without_empty_category.
  - apply sourceCategories_no_empty.
  - intros users store uid keyword. apply recommendMerged_contract.
Qed.

(** C10: there are a collection and an identified user for which the
    merged tiers are empty although the user has history, the route falls
    back to the default listing, and the answer holds a listing whose
    identity is in the exclusion set. *)
Theorem fallback_ignores_exclusion :
  exists (users : list UserDoc) (store : list Product) (uid : string)
         (products : list Product) (p : Product),
    primarySources users store uid <> [] /\
    recommendMerged users store uid "" = [] /\
    getRecommend users store (Some uid) None = json_products products /\
    getRecommend users store (Some uid) None = fetchDefaultList store "" /\
    p ∈ products /\
    _id p ∈ recommendExcludeIds users store uid.
Proof.
  pose (p := mkProduct "p1" (Some "lamp") (Some "home") (Some ["u1"]) None 7).
  exists [], [p], "u1", [p], p.
  split; [discriminate|].
  split; [by vm_compute|].
  split; [by vm_compute|].
  split; [by vm_compute|].
  split; [apply list_elem_of_here|].
  apply (bool_decide_unpack (_id p ∈ recommendExcludeIds [] [p] "u1")).
  by vm_compute.
Qed.

(** ** [POST /:id/like] *)

Lemma existsb_eqb_elem_of (uid : string) (l : list string) :
  existsb (fun id => String.eqb id uid) l = bool_decide (uid ∈ l).
Proof.
  induction l as [|x l IH]; [done|]. cbn [existsb]. rewrite IH.
  destruct (String.eqb_spec x uid) as [->|Hne]; cbn [orb].
  - symmetry. apply bool_decide_eq_true_2. left.
  - apply bool_decide_ext. rewrite elem_of_cons. forget_parameters.
    naive_solver.
Qed.

Lemma elem_of_filter_ne (uid v : string) (l : list string) :
  v ∈ List.filter (fun id => negb (String.eqb id uid)) l <-> v ∈ l /\ v <> uid.
Proof.
  rewrite !list_elem_of_In, filter_In, negb_true_iff, String.eqb_neq. done.
Qed.

Lemma NoDup_filter_ne (uid : string) (l : list string) :
  NoDup l -> NoDup (List.filter (fun id => negb (String.eqb id uid)) l).
Proof.
  forget_parameters.
  induction 1 as [|x l Hx Hl IH]; cbn [List.filter]; [constructor|].
  destruct (negb (String.eqb x uid)); [|done].
  constructor; [|done]. rewrite elem_of_filter_ne. tauto.
Qed.

Lemma findProductById_id (store : list Product) (id : string) (item : Product) :
  findProductById store id = Some item -> _id item = id /\ item ∈ store.
Proof.
  unfold findProductById. intros H. apply find_some in H as [Hin Heq].
  split; [by apply String.eqb_eq | by apply list_elem_of_In].
Qed.

(** Saving a document found by its identity puts it where [findById] finds
    it again. *)
Lemma findProductById_save (store : list Product) (id : string)
    (item item' : Product) :
  findProductById store id = Some item -> _id item' = id ->
  findProductById (saveProduct item' store) id = Some item'.
Proof.
  unfold findProductById. intros Hfind Hid.
  induction store as [|p store IH]; [done|].
  cbn [List.find saveProduct] in *. rewrite Hid.
  destruct (String.eqb (_id p) id) eqn:Hp.
  - cbn [List.find]. rewrite Hid, String.eqb_refl. done.
  - cbn [List.find]. rewrite Hp. by apply IH.
Qed.

(** C9: when the [likedBy] of a listing has no duplicate, the like toggle
    leaves it without duplicates: the user is filtered out when present,
    the others staying in place, and is pushed once at the end when
    absent.  The route answers with the new state and the new count, and
    saves the listing. *)
Theorem like_toggle_no_duplicates (store : list Product) (uid id : string)
    (item : Product) :
  findProductById store id = Some item ->
  NoDup (likedByOf item) ->
  let item' := toggleLike item uid in
  postLike store (Some uid) id =
    (json_like (negb (bool_decide (uid ∈ likedByOf item)))
       (length (likedByOf item')),
     saveProduct item' store) /\
  findProductById (saveProduct item' store) id = Some item' /\
  NoDup (likedByOf item') /\
  (uid ∈ likedByOf item ->
     (uid ∉ likedByOf item') /\
     likedByOf item' =
       List.filter (fun v => negb (String.eqb v uid)) (likedByOf item) /\
     forall v, v <> uid -> v ∈ likedByOf item' <-> v ∈ likedByOf item) /\
  (uid ∉ likedByOf item -> likedByOf item' = (likedByOf item ++ [uid])%list).
Proof.
  forget_parameters.
  intros Hfind Hnd item'.
  assert (Hitem' : likedByOf item' =
    if bool_decide (uid ∈ likedByOf item)
    then List.filter (fun v => negb (String.eqb v uid)) (likedByOf item)
    else (likedByOf item ++ [uid])%list).
  { unfold item', toggleLike. rewrite existsb_eqb_elem_of.
    by destruct (bool_decide (uid ∈ likedByOf item)). }
  assert (Hid' : _id item' = id).
  { apply findProductById_id in Hfind as [<- _]. unfold item', toggleLike.
    by destruct (existsb _ _). }
  split.
  { unfold postLike. rewrite Hfind, existsb_eqb_elem_of. reflexivity. }
  split; [by apply (findProductById_save store id item)|].
  rewrite Hitem'. split; [|split].
  - case_bool_decide as Hin.
    + by apply NoDup_filter_ne.
    + apply NoDup_app. split; [done|]. split; [|apply NoDup_singleton].
      intros x Hx ->%list_elem_of_singleton. done.
  - intros Hin. rewrite (bool_decide_eq_true_2 _ Hin).
    split; [rewrite elem_of_filter_ne; tauto|]. split; [done|].
    intros v Hv. rewrite elem_of_filter_ne. tauto.
  - intros Hnin. by rewrite (bool_decide_eq_false_2 _ Hnin).
Qed.

(** * Properties of the other routes *)

(** ** Saving and updating by identity *)

Lemma saveProduct_ids (item : Product) (store : list Product) :
  map _id (saveProduct item store) = map _id store.
Proof.
  forget_parameters.
  induction store as [|p store IH]; [done|]. cbn [saveProduct].
  destruct (String.eqb_spec (_id p) (_id item)) as [Heq|Hne]; cbn [map].
  - by rewrite Heq.
  - by rewrite IH.
Qed.

Lemma findProductById_save_other (item : Product) (store : list Product)
    (id : string) :
  id <> _id item ->
  findProductById (saveProduct item store) id = findProductById store id.
Proof.
  forget_parameters.
  intros Hne. unfold findProductById.
  induction store as [|p store IH]; [done|]. cbn [saveProduct].
  destruct (String.eqb_spec (_id p) (_id item)) as [Heq|Hne']; cbn [List.find].
  - rewrite Heq. apply not_eq_sym, String.eqb_neq in Hne. by rewrite Hne.
  - by rewrite IH.
Qed.

Lemma findUserById_id (users : list UserDoc) (uid : string) (u : UserDoc) :
  findUserById users uid = Some u -> user_id u = uid.
Proof.
  unfold findUserById. intros H. apply find_some in H as [_ H].
  by apply String.eqb_eq.
Qed.

Lemma findUserById_update (uid : string) (update : UserDoc -> UserDoc)
    (users : list UserDoc) :
  (forall u, user_id (update u) = user_id u) ->
  findUserById (updateUserById uid update users) uid
  = update <$> findUserById users uid.
Proof.
  forget_parameters.
  intros Hid. unfold findUserById.
  induction users as [|u users IH]; [done|]. cbn [updateUserById List.find].
  destruct (String.eqb (user_id u) uid) eqn:Hu; cbn [List.find].
  - by rewrite Hid, Hu.
  - by rewrite Hu, IH.
Qed.

Lemma findUserById_update_other (uid uid' : string)
    (update : UserDoc -> UserDoc) (users : list UserDoc) :
  (forall u, user_id (update u) = user_id u) -> uid' <> uid ->
  findUserById (updateUserById uid update users) uid'
  = findUserById users uid'.
Proof.
  forget_parameters.
  intros Hid Hne. unfold findUserById.
  induction users as [|u users IH]; [done|]. cbn [updateUserById List.find].
  destruct (String.eqb_spec (user_id u) uid) as [Hu|Hu]; cbn [List.find].
  - rewrite Hid, Hu. apply not_eq_sym, String.eqb_neq in Hne. by rewrite Hne.
  - by rewrite IH.
Qed.

Lemma updateUserById_absent (uid : string) (update : UserDoc -> UserDoc)
    (users : list UserDoc) :
  findUserById users uid = None -> updateUserById uid update users = users.
Proof.
  forget_parameters.
  unfold findUserById.
  induction users as [|u users IH]; [done|]. cbn [updateUserById List.find].
  destruct (String.eqb (user_id u) uid); [done|]. intros H. by rewrite IH.
Qed.

(** ** [POST /:id/share] *)

(** X1: sharing a listing that exists adds one to its share counter (a
    missing counter counts as 0), answers with the new counter and saves
    the listing; the other fields of the listing, the other listings and
    the identities of the collection are as before. *)
Theorem share_increments_counter (store : list Product)
    (users : list UserDoc) (user : option string) (id : string)
    (item : Product) :
  findProductById store id = Some item ->
  let result := postShare store users user id in
  let item' := setShareCount item (orZero (shareCount item) + 1) in
  result.1.1 = reply_ok (orZero (shareCount item) + 1) /\
  findProductById result.1.2 id = Some item' /\
  orZero (shareCount item') = orZero (shareCount item) + 1 /\
  (_id item' = _id item /\ title item' = title item /\
   category item' = category item /\ likedBy item' = likedBy item /\
   createdAt item' = createdAt item) /\
  (forall id', id' <> id ->
     findProductById result.1.2 id' = findProductById store id') /\
  map _id result.1.2 = map _id store.
Proof.
  intros Hfind result item'.
  assert (Hid : _id item' = id) by (by apply findProductById_id in Hfind as [? _]).
  unfold result, postShare. rewrite Hfind. cbn [fst snd].
  split; [done|]. split; [by apply (findProductById_save store id item)|].
  split; [done|]. split; [done|]. split.
  - intros id' Hne. apply findProductById_save_other.
    intros Heq. apply Hne. rewrite Heq. exact Hid.
  - apply saveProduct_ids.
Qed.

Lemma postShare_user (store : list Product) (users : list UserDoc)
    (uid id : string) (item : Product) (u : UserDoc) :
  findProductById store id = Some item ->
  findUserById users uid = Some u ->
  findUserById (postShare store users (Some uid) id).2 uid
  = Some (pushShared id u).
Proof.
  intros Hfind Hu.
  assert (Hid : _id item = id) by (by apply findProductById_id in Hfind as [? _]).
  unfold postShare. rewrite Hfind. cbn [snd setShareCount _id].
  rewrite findUserById_update by done. by rewrite Hu, Hid.
Qed.

Lemma sharedHistory_after_share (store : list Product) (users : list UserDoc)
    (uid id : string) (item : Product) (u : UserDoc) :
  findProductById store id = Some item ->
  findUserById users uid = Some u ->
  sharedHistory (postShare store users (Some uid) id).2 uid
  = take 50 (id :: sharedHistory users uid).
Proof.
  intros Hfind Hu. unfold sharedHistory.
  by rewrite (postShare_user store users uid id item u), Hu.
Qed.

(** X2: for an identified user who is stored, a share puts the listing at
    the front of the user's shared history and cuts the history to its 50
    most recent entries; the viewed history and the other users are as
    before, and the history is one the recommendation route reads whole. *)
Theorem share_records_history (store : list Product) (users : list UserDoc)
    (uid id : string) (item : Product) (u : UserDoc) :
  findProductById store id = Some item ->
  findUserById users uid = Some u ->
  let users' := (postShare store users (Some uid) id).2 in
  sharedHistory users' uid = take 50 (id :: sharedHistory users uid) /\
  (length (sharedHistory users' uid) <= 50)%nat /\
  head (sharedHistory users' uid) = Some id /\
  sharedIds users' uid = sharedHistory users' uid /\
  viewedHistory users' uid = viewedHistory users uid /\
  forall uid', uid' <> uid -> findUserById users' uid' = findUserById users uid'.
Proof.
  intros Hfind Hu users'.
  assert (Hid : _id item = id) by (by apply findProductById_id in Hfind as [? _]).
  assert (Hu' : findUserById users' uid = Some (pushShared id u))
    by (by apply (postShare_user store users uid id item u)).
  assert (Hs : sharedHistory users' uid = take 50 (id :: sharedHistory users uid))
    by (by apply (sharedHistory_after_share store users uid id item u)).
  split; [done|]. split; [rewrite Hs, length_take; lia|].
  split; [by rewrite Hs|].
  split; [unfold sharedIds, HISTORY_LIMIT; by rewrite Hs, take_idemp|].
  split; [unfold viewedHistory; by rewrite Hu', Hu|].
  intros uid' Hne. unfold users', postShare. rewrite Hfind. cbn [snd].
  by apply findUserById_update_other.
Qed.

Lemma findByIds_head (store : list Product) (id : string) (ids : list string)
    (item : Product) :
  item ∈ store -> _id item = id -> item ∈ findByIds store (id :: ids).
Proof.
  intros Hin Hid. unfold findByIds. cbn [length Nat.eqb].
  apply list_elem_of_In, filter_In. split; [by apply list_elem_of_In|].
  cbn [existsb]. by rewrite Hid, String.eqb_refl.
Qed.

Lemma take_cons_head {A} (n : nat) (x : A) (l : list A) :
  take (S n) (x :: l) = x :: take n l.
Proof. reflexivity. Qed.

(** X3: after an identified, stored user has shared a listing, the tiers
    the recommendation route merges for that user do not hold the
    listing, whatever the keyword. *)
Theorem shared_listing_not_in_tiers (store : list Product)
    (users : list UserDoc) (uid id keyword : string) (item : Product)
    (u : UserDoc) (p : Product) :
  findProductById store id = Some item ->
  findUserById users uid = Some u ->
  let result := postShare store users (Some uid) id in
  p ∈ recommendMerged result.2 result.1.2 uid keyword -> _id p <> id.
Proof.
  intros Hfind Hu result Hp Hpid.
  set (item' := setShareCount item (orZero (shareCount item) + 1)).
  assert (Hid : _id item' = id) by (by apply findProductById_id in Hfind as [? _]).
  assert (Hstore : result.1.2 = saveProduct item' store).
  { unfold result, postShare. by rewrite Hfind. }
  assert (Hitem' : findProductById result.1.2 id = Some item').
  { rewrite Hstore. by apply (findProductById_save store id item). }
  assert (Hids : sharedIds result.2 uid
                 = id :: take 49 (sharedHistory users uid)).
  { unfold sharedIds, HISTORY_LIMIT, result.
    rewrite (sharedHistory_after_share store users uid id item u) by done.
    by rewrite take_idemp. }
  apply merged_not_excluded in Hp as [_ Hp]. apply Hp.
  apply recommendExcludeIds_iff. exists item'. split; [by rewrite Hid|].
  right. left. rewrite Hids. apply findByIds_head; [|done].
  by apply findProductById_id in Hitem' as [_ ?].
Qed.

(** ** [GET /:id] *)

(** X4: viewing a listing that exists puts it at the front of the viewed
    history of an identified, stored user, cut to 50 entries, and changes
    nothing else; afterwards the tiers merged for that user do not hold
    the listing. *)
Theorem view_records_history (store : list Product) (users : list UserDoc)
    (uid id : string) (item : Product) (u : UserDoc) :
  findProductById store id = Some item ->
  findUserById users uid = Some u ->
  let users' := (getProduct store users (Some uid) id).2 in
  viewedHistory users' uid = take 50 (id :: viewedHistory users uid) /\
  (length (viewedHistory users' uid) <= 50)%nat /\
  sharedHistory users' uid = sharedHistory users uid /\
  (forall uid', uid' <> uid ->
     findUserById users' uid' = findUserById users uid') /\
  forall keyword p, p ∈ recommendMerged users' store uid keyword -> _id p <> id.
Proof.
  intros Hfind Hu users'.
  assert (Hid : _id item = id) by (by apply findProductById_id in Hfind as [? _]).
  assert (Hin : item ∈ store) by (by apply findProductById_id in Hfind as [_ ?]).
  assert (Hu' : findUserById users' uid = Some (pushViewed id u)).
  { unfold users', getProduct. rewrite Hfind. cbn [snd].
    rewrite findUserById_update by done. by rewrite Hu, Hid. }
  assert (Hv : viewedHistory users' uid = take 50 (id :: viewedHistory users uid)).
  { unfold viewedHistory. by rewrite Hu', Hu. }
  split; [done|]. split; [rewrite Hv, length_take; lia|].
  split; [unfold sharedHistory; by rewrite Hu', Hu|]. split.
  - intros uid' Hne. unfold users', getProduct. rewrite Hfind. cbn [snd].
    by apply findUserById_update_other.
  - intros keyword p Hp Hpid.
    apply merged_not_excluded in Hp as [_ Hp]. apply Hp.
    apply recommendExcludeIds_iff. exists item. split; [by rewrite Hid|].
    right. right. unfold viewedIds, HISTORY_LIMIT. rewrite Hv, take_idemp.
    change (take 50 (id :: viewedHistory users uid))
      with (id :: take 49 (viewedHistory users uid)).
    by apply findByIds_head.
Qed.

(** ** The like toggle, twice, and what the detail route sees *)

Lemma filter_ne_snoc (uid : string) (l : list string) :
  uid ∉ l ->
  List.filter (fun v => negb (String.eqb v uid)) (l ++ [uid]) = l.
Proof.
  forget_parameters.
  induction l as [|x l IH]; intros Hnin.
  - cbn. by rewrite String.eqb_refl.
  - apply not_elem_of_cons in Hnin as [Hne Hnin].
    cbn [app List.filter]. apply not_eq_sym, String.eqb_neq in Hne.
    rewrite Hne. cbn [negb]. by rewrite IH.
Qed.

Lemma filter_ne_snoc_Permutation (uid : string) (l : list string) :
  NoDup l -> uid ∈ l ->
  List.filter (fun v => negb (String.eqb v uid)) l ++ [uid] ≡ₚ l.
Proof.
  forget_parameters.
  intros Hnd Hin. apply NoDup_Permutation; [|done|].
  - apply NoDup_app. split; [by apply NoDup_filter_ne|].
    split; [|apply NoDup_singleton].
    intros x Hx ->%list_elem_of_singleton.
    apply elem_of_filter_ne in Hx. tauto.
  - intros x. rewrite elem_of_app, elem_of_filter_ne, list_elem_of_singleton.
    destruct (decide (x = uid)) as [->|]; tauto.
Qed.

Lemma likedByOf_toggleLike (item : Product) (uid : string) :
  likedByOf (toggleLike item uid) =
  if bool_decide (uid ∈ likedByOf item)
  then List.filter (fun v => negb (String.eqb v uid)) (likedByOf item)
  else (likedByOf item ++ [uid])%list.
Proof.
  unfold toggleLike. rewrite existsb_eqb_elem_of.
  by destruct (bool_decide (uid ∈ likedByOf item)).
Qed.

Lemma toggleLike_fields (item : Product) (uid : string) :
  _id (toggleLike item uid) = _id item /\
  title (toggleLike item uid) = title item /\
  category (toggleLike item uid) = category item /\
  shareCount (toggleLike item uid) = shareCount item /\
  createdAt (toggleLike item uid) = createdAt item.
Proof. unfold toggleLike. by destruct (existsb _ _). Qed.

Lemma postLike_found (store : list Product) (uid id : string) (item : Product) :
  findProductById store id = Some item ->
  postLike store (Some uid) id =
  (json_like (negb (bool_decide (uid ∈ likedByOf item)))
     (length (likedByOf (toggleLike item uid))),
   saveProduct (toggleLike item uid) store) /\
  findProductById (saveProduct (toggleLike item uid) store) id
  = Some (toggleLike item uid).
Proof.
  intros Hfind. split.
  - unfold postLike. by rewrite Hfind, existsb_eqb_elem_of.
  - apply (findProductById_save store id item); [done|].
    apply findProductById_id in Hfind as [<- _]. apply toggleLike_fields.
Qed.

(** X5: two like requests in a row by the same user on a listing whose
    [likedBy] has no duplicate leave a [likedBy] with the same members
    and it is the very same list when the user did not like the listing
    before; a user who did is moved to the end.  The second answer
    reports the state and the count the listing had at the start, and no
    other field, listing or identity of the collection has changed. *)
Theorem like_twice (store : list Product) (uid id : string) (item : Product) :
  findProductById store id = Some item ->
  NoDup (likedByOf item) ->
  let first := postLike store (Some uid) id in
  let second := postLike first.2 (Some uid) id in
  let item2 := toggleLike (toggleLike item uid) uid in
  findProductById second.2 id = Some item2 /\
  second.1 = json_like (bool_decide (uid ∈ likedByOf item))
               (length (likedByOf item)) /\
  likedByOf item2 ≡ₚ likedByOf item /\
  (uid ∉ likedByOf item -> likedByOf item2 = likedByOf item) /\
  (uid ∈ likedByOf item ->
     likedByOf item2 =
     (List.filter (fun v => negb (String.eqb v uid)) (likedByOf item)
      ++ [uid])%list) /\
  (_id item2 = _id item /\ title item2 = title item /\
   category item2 = category item /\ shareCount item2 = shareCount item /\
   createdAt item2 = createdAt item) /\
  (forall id', id' <> id ->
     findProductById second.2 id' = findProductById store id') /\
  map _id second.2 = map _id store.
Proof.
  forget_parameters.
  intros Hfind Hnd first second item2.
  destruct (postLike_found store uid id item Hfind) as [H1 Hf1].
  destruct (postLike_found (saveProduct (toggleLike item uid) store) uid id
              (toggleLike item uid) Hf1) as [H2 Hf2].
  assert (Hfirst : first.2 = saveProduct (toggleLike item uid) store)
    by (unfold first; by rewrite H1).
  assert (Hl2 : likedByOf item2 =
    if bool_decide (uid ∈ likedByOf item)
    then (List.filter (fun v => negb (String.eqb v uid)) (likedByOf item)
          ++ [uid])%list
    else likedByOf item).
  { unfold item2. rewrite (likedByOf_toggleLike (toggleLike item uid)).
    rewrite (likedByOf_toggleLike item).
    destruct (decide (uid ∈ likedByOf item)) as [Hin|Hnin].
    - rewrite !(bool_decide_eq_true_2 _ Hin).
      rewrite bool_decide_eq_false_2; [done|].
      rewrite elem_of_filter_ne. tauto.
    - rewrite !(bool_decide_eq_false_2 _ Hnin).
      rewrite bool_decide_eq_true_2 by (apply elem_of_app; right; left).
      by apply filter_ne_snoc. }
  assert (Hid : _id (toggleLike item uid) = id).
  { apply findProductById_id in Hfind as [<- _]. apply toggleLike_fields. }
  assert (Hsecond : second = postLike (saveProduct (toggleLike item uid) store)
                               (Some uid) id)
    by (unfold second; by rewrite Hfirst).
  rewrite Hsecond, H2. cbn [fst snd]. fold item2.
  split; [exact Hf2|]. split.
  { rewrite Hl2, (likedByOf_toggleLike item).
    destruct (decide (uid ∈ likedByOf item)) as [Hin|Hnin].
    - rewrite !(bool_decide_eq_true_2 _ Hin).
      rewrite bool_decide_eq_false_2 by (rewrite elem_of_filter_ne; tauto).
      cbn [negb]. f_equal.
      by rewrite (filter_ne_snoc_Permutation uid (likedByOf item) Hnd Hin).
    - rewrite !(bool_decide_eq_false_2 _ Hnin).
      rewrite bool_decide_eq_true_2 by (apply elem_of_app; right; left).
      done. }
  split.
  { rewrite Hl2. case_bool_decide; [|done]. by apply filter_ne_snoc_Permutation. }
  split; [intros Hnin; by rewrite Hl2, bool_decide_eq_false_2|].
  split; [intros Hin; by rewrite Hl2, bool_decide_eq_true_2|].
  split.
  { unfold item2.
    destruct (toggleLike_fields (toggleLike item uid) uid)
      as (E1 & E2 & E3 & E4 & E5).
    rewrite E1, E2, E3, E4, E5. apply toggleLike_fields. }
  split.
  - intros id' Hne.
    rewrite findProductById_save_other.
    + apply findProductById_save_other. by rewrite Hid.
    + destruct (toggleLike_fields (toggleLike item uid) uid) as (Hi & _).
      unfold item2. by rewrite Hi, Hid.
  - by rewrite !saveProduct_ids.
Qed.

(** X6: the detail route agrees with the answers of the like and share
    routes: right after a like request it reports, to the same user, the
    state and the count the like route answered, and right after a share
    the counter the share route answered. *)
Theorem view_agrees_with_like_and_share (store : list Product)
    (users : list UserDoc) (uid id : string) (item : Product) :
  findProductById store id = Some item ->
  (let liked := postLike store (Some uid) id in
   exists v, (getProduct liked.2 users (Some uid) id).1 = reply_ok v /\
             liked.1 = json_like (viewIsLiked v) (viewLikeCount v)) /\
  (forall viewer sharer,
     let shared := postShare store users sharer id in
     exists v, (getProduct shared.1.2 shared.2 viewer id).1 = reply_ok v /\
               shared.1.1 = reply_ok (viewShareCount v)).
Proof.
  forget_parameters.
  intros Hfind. split.
  - intros liked.
    destruct (postLike_found store uid id item Hfind) as [H1 Hf1].
    unfold liked. rewrite H1. cbn [fst snd]. unfold getProduct.
    rewrite Hf1. cbn [fst]. eexists. split; [reflexivity|].
    cbn [viewIsLiked viewLikeCount]. fold (likedByOf (toggleLike item uid)).
    rewrite existsb_eqb_elem_of, (likedByOf_toggleLike item). f_equal.
    case_bool_decide as Hin; cbn [negb].
    + symmetry. apply bool_decide_eq_false_2. rewrite elem_of_filter_ne. tauto.
    + symmetry. apply bool_decide_eq_true_2, elem_of_app. right. left.
  - intros viewer sharer shared.
    set (item' := setShareCount item (orZero (shareCount item) + 1)).
    assert (Hid : _id item' = id)
      by (by apply findProductById_id in Hfind as [? _]).
    assert (Hf : findProductById shared.1.2 id = Some item').
    { unfold shared, postShare. rewrite Hfind. cbn [fst snd].
      by apply (findProductById_save store id item). }
    unfold getProduct. rewrite Hf. cbn [fst]. eexists. split; [reflexivity|].
    unfold shared, postShare. rewrite Hfind. reflexivity.
Qed.

(** X7: what a like or a share does to the popularity score of a
    listing: a like by a user who did not like it and a share each raise
    the score by one, and taking a like back lowers it by one. *)
Theorem engagement_moves_popularity (item : Product) (uid : string) :
  let score p := popularityScore (addScore (addCounts p)) in
  (uid ∉ likedByOf item -> score (toggleLike item uid) = score item + 1) /\
  (NoDup (likedByOf item) -> uid ∈ likedByOf item ->
   score (toggleLike item uid) = score item - 1) /\
  score (setShareCount item (orZero (shareCount item) + 1)) = score item + 1.
Proof.
  intros score. unfold score, addScore, addCounts. cbn [popularityScore
    likeCount shareCount0].
  fold (likedByOf item) (likedByOf (toggleLike item uid)).
  destruct (toggleLike_fields item uid) as (_ & _ & _ & Hs & _).
  rewrite Hs, (likedByOf_toggleLike item). split; [|split].
  - intros Hnin. rewrite bool_decide_eq_false_2 by done.
    rewrite length_app. cbn [length]. lia.
  - intros Hnd Hin. rewrite bool_decide_eq_true_2 by done.
    pose proof (filter_ne_snoc_Permutation uid (likedByOf item) Hnd Hin) as Hp.
    apply Permutation_length in Hp. rewrite length_app in Hp.
    cbn [length] in Hp. lia.
  - unfold setShareCount, orZero. cbn [likedBy shareCount].
    fold (likedByOf item). destruct (shareCount item); cbn; lia.
Qed.

(** ** What [addKeywords] puts into a set *)

Lemma string_app_cons (x : ascii) (a b : string) :
  String x a +:+ b = String x (a +:+ b).
Proof. reflexivity. Qed.

Lemma string_app_nil_l (a : string) : "" +:+ a = a.
Proof. reflexivity. Qed.

Lemma string_app_assoc (a b c : string) : (a +:+ b) +:+ c = a +:+ (b +:+ c).
Proof.
  forget_parameters. induction a as [|x a IH]; [done|].
  by rewrite !string_app_cons, IH.
Qed.

Lemma string_app_nil_r (a : string) : a +:+ "" = a.
Proof.
  forget_parameters. induction a as [|x a IH]; [done|].
  by rewrite string_app_cons, IH.
Qed.

Lemma substringOf_refl (s : string) : substringOf s s.
Proof. exists "", "". by rewrite string_app_nil_l, string_app_nil_r. Qed.

Lemma substringOf_trans (a b c : string) :
  substringOf a b -> substringOf b c -> substringOf a c.
Proof.
  intros (a1 & a2 & ->) (b1 & b2 & ->).
  exists (b1 +:+ a1), (a2 +:+ b2). by rewrite !string_app_assoc.
Qed.

Lemma substringOf_app_l (w a b : string) : substringOf w a -> substringOf w (a +:+ b).
Proof.
  intros (x & y & ->). exists x, (y +:+ b). by rewrite !string_app_assoc.
Qed.

Lemma substringOf_app_r (w a b : string) : substringOf w b -> substringOf w (a +:+ b).
Proof.
  intros (x & y & ->). exists (a +:+ x), y. by rewrite !string_app_assoc.
Qed.

Lemma splitFrom_substring (s cur : string) (inSep : bool) (w : string) :
  w ∈ splitFrom s cur inSep -> substringOf w (cur +:+ s).
Proof.
  forget_parameters.
  revert cur inSep. induction s as [|c s IH]; intros cur inSep; cbn [splitFrom].
  - intros ->%list_elem_of_singleton. rewrite string_app_nil_r.
    apply substringOf_refl.
  - destruct (isKeywordSeparator c).
    + assert (Hrest : w ∈ splitFrom s "" true -> substringOf w (cur +:+ String c s)).
      { intros H%IH. rewrite string_app_nil_l in H. apply substringOf_app_r.
        destruct H as (x & y & H). exists (String c x), y.
        by rewrite string_app_cons, <- H. }
      destruct inSep; [done|].
      intros [->|H]%elem_of_cons; [|by apply Hrest].
      apply substringOf_app_l, substringOf_refl.
    + intros H%IH. rewrite string_app_assoc in H. exact H.
Qed.

Lemma stringForall_app (P : ascii -> bool) (a b : string) :
  stringForall P (a +:+ b) = stringForall P a && stringForall P b.
Proof.
  forget_parameters.
  induction a as [|x a IH]; [done|].
  rewrite string_app_cons. cbn [stringForall]. by rewrite IH, andb_assoc.
Qed.

Lemma splitFrom_noSeparator (s cur : string) (inSep : bool) (w : string) :
  noSeparator cur = true -> w ∈ splitFrom s cur inSep -> noSeparator w = true.
Proof.
  forget_parameters.
  revert cur inSep. induction s as [|c s IH]; intros cur inSep Hcur;
    cbn [splitFrom].
  - by intros ->%list_elem_of_singleton.
  - destruct (isKeywordSeparator c) eqn:Hc.
    + destruct inSep; [by apply IH|].
      intros [->|H]%elem_of_cons; [done|]. by apply (IH "" true).
    + apply IH. unfold noSeparator. rewrite stringForall_app.
      fold (noSeparator cur). rewrite Hcur. cbn. by rewrite Hc.
Qed.

Lemma isKeywordSeparator_whiteSpace (c : ascii) :
  isWhiteSpace c = true -> isKeywordSeparator c = true.
Proof. unfold isKeywordSeparator. by intros ->. Qed.

Lemma trimStart_noSeparator (w : string) : noSeparator w = true -> trimStart w = w.
Proof.
  destruct w as [|c w]; [done|]. unfold noSeparator.
  cbn [stringForall trimStart].
  intros [Hc _]%andb_true_iff. apply negb_true_iff in Hc.
  destruct (isWhiteSpace c) eqn:Hw; [|done].
  apply isKeywordSeparator_whiteSpace in Hw. congruence.
Qed.

Lemma trimEnd_noSeparator (w : string) : noSeparator w = true -> trimEnd w = w.
Proof.
  forget_parameters.
  induction w as [|c w IH]; [done|]. unfold noSeparator. cbn [stringForall].
  intros [Hc Hw]%andb_true_iff. apply negb_true_iff in Hc.
  cbn [trimEnd]. rewrite (IH Hw).
  destruct (isWhiteSpace c) eqn:Hs.
  - apply isKeywordSeparator_whiteSpace in Hs. congruence.
  - by destruct w.
Qed.

(** The fragments of the split hold no white space, so the [trim] that
    [addKeywords] applies to them changes none. *)
Lemma trim_noSeparator (w : string) : noSeparator w = true -> trim w = w.
Proof.
  intros H. unfold trim. rewrite (trimStart_noSeparator w H).
  by apply trimEnd_noSeparator.
Qed.

Lemma titleWords_spec (t w : string) :
  w ∈ titleWords t ->
  (2 <= String.length w)%nat /\ noSeparator w = true /\
  substringOf w (toLowerCase t).
Proof.
  intros H. split; [by apply titleWords_length in H|].
  unfold titleWords in H. apply list_elem_of_In, filter_In in H as [H _].
  apply in_map_iff in H as (f & <- & Hf). apply list_elem_of_In in Hf.
  assert (Hns : noSeparator f = true)
    by (by apply (splitFrom_noSeparator (toLowerCase t) "" false)).
  rewrite (trim_noSeparator f Hns). split; [done|].
  by apply (splitFrom_substring (toLowerCase t) "" false).
Qed.

Lemma addKeywords_elem_of (set : gset string) (title : option string)
    (w : string) :
  w ∈ addKeywords set title <->
  w ∈ set \/ exists t, title = Some t /\ t <> "" /\ w ∈ titleWords t.
Proof.
  rewrite addKeywords_union. destruct (truthy title) eqn:Ht.
  - apply truthy_true_iff in Ht as (t & -> & Hne).
    rewrite elem_of_union, elem_of_list_to_set. cbn [default]. split.
    + intros [?|?]; [by left|]. right. by exists t.
    + intros [?|(t' & [= <-] & _ & ?)]; [by left | by right].
  - split; [by left|]. intros [?|(t & -> & Hne & _)]; [done|].
    assert (truthy (Some t) = true) by (apply truthy_true_iff; eauto).
    congruence.
Qed.

(** X8: every keyword [addKeywords] adds to a set is a token of the
    title: a run of at least two code units of the lower-cased title that
    holds no separator and is what the split produced, the [trim] of the
    loop having changed nothing.  A title that is absent or empty adds
    nothing. *)
Theorem addKeywords_adds_tokens (set : gset string) (title : option string)
    (w : string) :
  (w ∈ addKeywords set title -> w ∉ set ->
   exists t, title = Some t /\ t <> "" /\
     (2 <= String.length w)%nat /\ noSeparator w = true /\ trim w = w /\
     substringOf w (toLowerCase t)) /\
  addKeywords set None = set /\ addKeywords set (Some "") = set.
Proof.
  split; [|done].
  intros Hw Hset. apply addKeywords_elem_of in Hw as [?|(t & -> & Hne & Hw)];
    [done|].
  apply titleWords_spec in Hw as (Hlen & Hns & Hsub).
  exists t. repeat split; try done. by apply trim_noSeparator.
Qed.

Lemma foldl_addKeywords_elem_of (sources : list Product) (acc : gset string)
    (w : string) :
  w ∈ foldl (fun acc p => addKeywords acc (title p)) acc sources <->
  w ∈ acc \/ exists s, s ∈ sources /\ w ∈ addKeywords ∅ (title s).
Proof.
  revert acc. induction sources as [|s sources IH]; intros acc; cbn [foldl].
  - split; [by left|]. intros [?|(s & Hs & _)]; [done|].
    by apply elem_of_nil in Hs.
  - rewrite IH, addKeywords_elem_of. split.
    + intros [[?|Hw]|(s' & Hs' & Hw)].
      * by left.
      * right. exists s. split; [left|]. apply addKeywords_elem_of. by right.
      * right. exists s'. split; [by right|done].
    + intros [?|(s' & Hs' & Hw)]; [by left; left|].
      apply elem_of_cons in Hs' as [->|Hs'].
      * left. apply addKeywords_elem_of in Hw as [Hw|Hw]; [|by right].
        by apply elem_of_empty in Hw.
      * right. by exists s'.
Qed.

Lemma sourceKeywords_elem_of (sources : list Product) (keyword w : string) :
  w ∈ sourceKeywords sources keyword <->
  (keyword <> "" /\ w = toLowerCase keyword) \/
  exists s, s ∈ sources /\ w ∈ addKeywords ∅ (title s).
Proof.
  unfold sourceKeywords.
  destruct (truthy (Some keyword)) eqn:Hk.
  - apply truthy_true_iff in Hk as (k & [= <-] & Hne).
    rewrite elem_of_union, elem_of_singleton, foldl_addKeywords_elem_of.
    split.
    + intros [->|[H|H]]; [by left| by apply elem_of_empty in H | by right].
    + intros [[_ ->]|H]; [by left|]. right. by right.
  - rewrite foldl_addKeywords_elem_of. split.
    + intros [H|H]; [by apply elem_of_empty in H | by right].
    + intros [[Hne _]|H]; [|by right].
      assert (truthy (Some keyword) = true) by (apply truthy_true_iff; eauto).
      congruence.
Qed.

(** X9: the extractor and the matcher fit together: when the title of a
    listing the profile was built from gives at least one keyword, a
    candidate carrying the same title keyword-matches that profile. *)
Theorem same_title_matches_profile (sources : list Product)
    (keyword : string) (s c : Product) (w : string) :
  s ∈ sources ->
  w ∈ addKeywords ∅ (title s) ->
  title c = title s ->
  hasKeywordMatch (title c) (sourceKeywords sources keyword) = true.
Proof.
  intros Hs Hw Ht. rewrite Ht. apply hasKeywordMatch_true_iff.
  pose proof Hw as Hw'.
  apply addKeywords_elem_of in Hw' as [Hw'|(t & Htitle & Hne & Hw')];
    [by apply elem_of_empty in Hw'|].
  exists t. split; [done|]. split; [done|]. exists w. split.
  - apply sourceKeywords_elem_of. right. by exists s.
  - by apply titleWords_spec in Hw' as (_ & _ & ?).
Qed.

(** ** The tiers as a partition, and what the route can answer *)

Lemma three_way_Permutation {A} (P Q : A -> bool) (l : list A) :
  List.filter P l
  ++ List.filter (fun x => negb (P x) && Q x) l
  ++ List.filter (fun x => negb (P x) && negb (Q x)) l ≡ₚ l.
Proof.
  forget_parameters.
  induction l as [|x l IH]; [done|]. cbn [List.filter].
  destruct (P x); cbn [negb andb].
  - cbn [app]. by rewrite IH.
  - destruct (Q x); cbn [negb].
    + cbn [app]. rewrite <- Permutation_middle. by rewrite IH.
    + rewrite (assoc_L (++)), <- Permutation_middle, <- (assoc_L (++)).
      by rewrite IH.
Qed.

Section TierPartition.

Variables primaryCategories primaryKeywords : gset string.
Variables secondaryCategories secondaryKeywords : gset string.
Variable excludeIds : gset string.

Lemma tiers_Permutation (candidates : list Product) :
  let t := scoreCandidates primaryCategories primaryKeywords
             secondaryCategories secondaryKeywords excludeIds candidates in
  primaryMatches t ++ secondaryMatches t ++ fallbackMatches t
  ≡ₚ List.filter (fun p => negb (excluded excludeIds p)) candidates.
Proof.
  cbn zeta. rewrite scoreCandidates_tiers.
  cbn [primaryMatches secondaryMatches fallbackMatches].
  apply (three_way_Permutation
           (fun p => matchesCategory primaryCategories p
                     || hasKeywordMatch (title p) primaryKeywords)
           (fun p => matchesCategory secondaryCategories p
                     || hasKeywordMatch (title p) secondaryKeywords)).
Qed.

(** X10: the three tiers are a partition of the candidates outside the
    exclusion set: together they are a rearrangement of those candidates,
    so none is lost and none is listed twice; a secondary match is never
    a primary match, and a fallback is neither; and when at most 200
    candidates are outside the exclusion set the merged output is itself a
    rearrangement of them. *)
Theorem tiers_partition (candidates : list Product) :
  let t := scoreCandidates primaryCategories primaryKeywords
             secondaryCategories secondaryKeywords excludeIds candidates in
  let pool := List.filter (fun p => negb (excluded excludeIds p)) candidates in
  primaryMatches t ++ secondaryMatches t ++ fallbackMatches t ≡ₚ pool /\
  (forall p, p ∈ primaryMatches t ->
     matchesCategory primaryCategories p
     || hasKeywordMatch (title p) primaryKeywords = true) /\
  (forall p, p ∈ secondaryMatches t ->
     matchesCategory primaryCategories p
     || hasKeywordMatch (title p) primaryKeywords = false /\
     matchesCategory secondaryCategories p
     || hasKeywordMatch (title p) secondaryKeywords = true) /\
  (forall p, p ∈ fallbackMatches t ->
     matchesCategory primaryCategories p
     || hasKeywordMatch (title p) primaryKeywords = false /\
     matchesCategory secondaryCategories p
     || hasKeywordMatch (title p) secondaryKeywords = false) /\
  ((length pool <= 200)%nat ->
   merged primaryCategories primaryKeywords secondaryCategories
     secondaryKeywords excludeIds candidates ≡ₚ pool).
Proof.
  intros t pool.
  pose proof (tiers_Permutation candidates) as Hperm. cbn zeta in Hperm.
  fold t pool in Hperm. split; [exact Hperm|].
  assert (Ht : t = _) by apply scoreCandidates_tiers.
  split; [|split; [|split]].
  - intros p. rewrite Ht. cbn [primaryMatches].
    rewrite list_elem_of_In, filter_In. tauto.
  - intros p. rewrite Ht. cbn [secondaryMatches].
    rewrite list_elem_of_In, filter_In, andb_true_iff, negb_true_iff. tauto.
  - intros p. rewrite Ht. cbn [fallbackMatches].
    rewrite list_elem_of_In, filter_In, andb_true_iff, !negb_true_iff. tauto.
  - intros Hlen. unfold merged, mergeTiers, limit. fold t.
    rewrite take_ge; [exact Hperm|].
    apply Permutation_length in Hperm. lia.
Qed.

Lemma merged_NoDup (candidates : list Product) :
  NoDup candidates ->
  NoDup (merged primaryCategories primaryKeywords secondaryCategories
           secondaryKeywords excludeIds candidates).
Proof.
  intros Hnd. unfold merged, mergeTiers.
  eapply sublist_NoDup; [|apply sublist_take].
  rewrite tiers_Permutation.
  apply NoDup_ListNoDup, List.NoDup_filter, NoDup_ListNoDup, Hnd.
Qed.

End TierPartition.


Lemma findRecent_elem_of (store : list Product) (f : Filter) (n : nat)
    (p : Product) :
  p ∈ findRecent store f n -> p ∈ store /\ matchesFilter f p = true.
Proof.
  unfold findRecent. intros H. apply subseteq_take in H.
  rewrite merge_sort_Permutation in H.
  by apply list_elem_of_In, filter_In in H as [?%list_elem_of_In ?].
Qed.

Lemma findRecent_NoDup (store : list Product) (f : Filter) (n : nat) :
  NoDup store -> NoDup (findRecent store f n).
Proof.
  intros Hnd. unfold findRecent.
  eapply sublist_NoDup; [|apply sublist_take].
  rewrite merge_sort_Permutation.
  apply NoDup_ListNoDup, List.NoDup_filter, NoDup_ListNoDup, Hnd.
Qed.

(** ** Whole listings *)

Section ListingProperties.

Variable Num : Type.
Variable nonnegative : Num -> bool.
Variable joinCwd : string -> string.
Variable refusal : PatchBody Num -> string.

Implicit Types (l item : Listing Num) (listings : list (Listing Num)).
Implicit Types (files : gset string) (body : PatchBody Num).

Lemma findListingById_Some listings id item :
  findListingById listings id = Some item ->
  listingId item = id /\ item ∈ listings.
Proof.
  unfold findListingById. intros H. apply find_some in H as [Hin Heq].
  split; [by apply String.eqb_eq | by apply list_elem_of_In].
Qed.

Lemma findListingById_None listings id :
  findListingById listings id = None <-> id ∉ map listingId listings.
Proof.
  clear. unfold findListingById.
  induction listings as [|l listings IH]; cbn [List.find map].
  - split; [intros _; apply not_elem_of_nil | done].
  - rewrite not_elem_of_cons. unfold listingId at 1.
    destruct (String.eqb_spec (_id (core l)) id) as [Heq|Hne].
    + split; [done|]. intros [Hne _]. by destruct Hne.
    + rewrite IH. split; [by intros ?; split|by intros [_ ?]].
Qed.

Lemma deleteListingById_absent listings id :
  findListingById listings id = None -> deleteListingById id listings = listings.
Proof.
  clear. unfold findListingById.
  induction listings as [|l listings IH]; [done|].
  cbn [List.find deleteListingById].
  destruct (String.eqb (_id (core l)) id); [done|]. intros H. by rewrite IH.
Qed.

Lemma deleteListingById_length listings id item :
  findListingById listings id = Some item ->
  S (length (deleteListingById id listings)) = length listings.
Proof.
  clear. unfold findListingById.
  induction listings as [|l listings IH]; [done|].
  cbn [List.find deleteListingById].
  destruct (String.eqb (_id (core l)) id); [done|].
  intros H. cbn [length]. by rewrite IH.
Qed.

Lemma deleteListingById_sublist listings id :
  deleteListingById id listings `sublist_of` listings.
Proof.
  clear. induction listings as [|l listings IH]; [done|].
  cbn [deleteListingById].
  destruct (String.eqb (_id (core l)) id).
  - by apply sublist_cons.
  - by apply sublist_skip.
Qed.

Lemma deleteListingById_find_other listings id id' :
  id' <> id ->
  findListingById (deleteListingById id listings) id'
  = findListingById listings id'.
Proof.
  clear. intros Hne. unfold findListingById.
  induction listings as [|l listings IH]; [done|].
  cbn [deleteListingById].
  destruct (String.eqb_spec (_id (core l)) id) as [Heq|Hne'];
    cbn [List.find].
  - rewrite Heq. apply not_eq_sym, String.eqb_neq in Hne. by rewrite Hne.
  - by rewrite IH.
Qed.

Lemma filter_other_ids listings id :
  id ∉ map listingId listings ->
  List.filter (fun l => negb (String.eqb (listingId l) id)) listings = listings.
Proof.
  clear. induction listings as [|l listings IH]; [done|].
  cbn [map]. intros [Hne Hl]%not_elem_of_cons.
  cbn [List.filter]. apply not_eq_sym, String.eqb_neq in Hne.
  rewrite Hne. cbn [negb]. f_equal. by apply IH.
Qed.

(** With identities that are unique, deleting by identity is a filter. *)
Lemma deleteListingById_filter listings id :
  NoDup (map listingId listings) ->
  deleteListingById id listings
  = List.filter (fun l => negb (String.eqb (listingId l) id)) listings.
Proof.
  clear. induction listings as [|l listings IH]; [done|].
  cbn [map]. intros [Hl Hnd]%NoDup_cons.
  cbn [deleteListingById List.filter].
  change (_id (core l)) with (listingId l).
  destruct (String.eqb_spec (listingId l) id) as [Heq|Hne]; cbn [negb].
  - symmetry. rewrite <- Heq. by apply filter_other_ids.
  - f_equal. by apply IH.
Qed.

Lemma deleteListingById_gone listings id :
  NoDup (map listingId listings) ->
  findListingById (deleteListingById id listings) id = None.
Proof.
  intros Hnd. rewrite deleteListingById_filter by done.
  apply findListingById_None. intros Hin.
  apply list_elem_of_fmap in Hin as (l & Hid & Hl).
  apply list_elem_of_In, filter_In in Hl as [_ Hl].
  apply negb_true_iff, String.eqb_neq in Hl. by rewrite Hid in Hl.
Qed.

Lemma saveListing_ids item listings :
  map listingId (saveListing item listings) = map listingId listings.
Proof.
  clear. induction listings as [|l listings IH]; [done|].
  cbn [saveListing].
  destruct (String.eqb_spec (_id (core l)) (_id (core item))) as [Heq|Hne];
    cbn [map].
  - unfold listingId at 1 3. by rewrite Heq.
  - by rewrite IH.
Qed.

Lemma saveListing_find listings id item item' :
  findListingById listings id = Some item -> listingId item' = id ->
  findListingById (saveListing item' listings) id = Some item'.
Proof.
  clear. unfold findListingById, listingId. intros Hfind Hid.
  induction listings as [|l listings IH]; [done|].
  cbn [List.find saveListing] in *. rewrite Hid.
  destruct (String.eqb (_id (core l)) id) eqn:Hl; cbn [List.find].
  - by rewrite Hid, String.eqb_refl.
  - rewrite Hl. by apply IH.
Qed.

Lemma saveListing_find_other listings id item :
  id <> listingId item ->
  findListingById (saveListing item listings) id = findListingById listings id.
Proof.
  clear. intros Hne. unfold findListingById, listingId in *.
  induction listings as [|l listings IH]; [done|]. cbn [saveListing].
  destruct (String.eqb_spec (_id (core l)) (_id (core item))) as [Heq|Hne'];
    cbn [List.find].
  - rewrite Heq. apply not_eq_sym, String.eqb_neq in Hne. by rewrite Hne.
  - by rewrite IH.
Qed.

Lemma saveListing_elem_of listings item l :
  l ∈ saveListing item listings -> l = item \/ l ∈ listings.
Proof.
  clear. induction listings as [|l' listings IH]; cbn [saveListing]; [by right|].
  destruct (String.eqb (_id (core l')) (_id (core item))).
  - intros [->|?]%elem_of_cons; [by left|]. right. by right.
  - intros [->|H]%elem_of_cons; [right; left|].
    destruct (IH H); [by left|]. right. by right.
Qed.

(** *** [deleteProductImages] *)

Lemma deleteProductImages_elem_of (imgs : list string) files (f : string) :
  f ∈ deleteProductImages joinCwd imgs files <->
  f ∈ files /\
  forall img, img ∈ imgs -> startsWith img "/uploads/" = true ->
              joinCwd img <> f.
Proof.
  unfold deleteProductImages. revert files.
  induction imgs as [|img imgs IH]; intros files; cbn [foldl].
  - split; [|by intros [? _]]. intros H. split; [done|].
    intros img Himg. by apply elem_of_nil in Himg.
  - rewrite IH. destruct (startsWith img "/uploads/") eqn:Hs.
    + rewrite elem_of_difference, elem_of_singleton. split.
      * intros [[Hf Hne] Hrest]. split; [done|].
        intros img' [->|Himg]%elem_of_cons Hs'; [by apply not_eq_sym|].
        by apply Hrest.
      * intros [Hf Hall]. split; [split; [done|]|].
        -- apply not_eq_sym, Hall; [left|done].
        -- intros img' Himg. apply Hall. by right.
    + split.
      * intros [Hf Hrest]. split; [done|].
        intros img' [->|Himg]%elem_of_cons Hs'; [congruence|].
        by apply Hrest.
      * intros [Hf Hall]. split; [done|].
        intros img' Himg. apply Hall. by right.
Qed.

Lemma startsWith_external (img : string) :
  startsWith img "http://" || startsWith img "https://" = true ->
  startsWith img "/uploads/" = false.
Proof.
  clear. unfold startsWith. destruct img as [|c img]; [done|].
  cbn [String.prefix].
  destruct (Ascii.ascii_dec "h" c) as [<-|Hh]; [done|].
  destruct (Ascii.ascii_dec "/" c); done.
Qed.

(** X13: [deleteProductImages] unlinks the joined paths of the
    references that start with [/uploads/] and nothing else: a file is
    left exactly when it was there and is no such path.  So no file is
    created, references to [http://] or [https://] addresses cost no
    file, and a list without uploads leaves the files alone. *)
Theorem deleteProductImages_spec (imgs : list string) files :
  (forall f, f ∈ deleteProductImages joinCwd imgs files <->
     f ∈ files /\
     forall img, img ∈ imgs -> startsWith img "/uploads/" = true ->
                 joinCwd img <> f) /\
  deleteProductImages joinCwd imgs files ⊆ files /\
  ((forall img, img ∈ imgs ->
      startsWith img "http://" || startsWith img "https://" = true) ->
   deleteProductImages joinCwd imgs files = files).
Proof.
  forget_parameters.
  split; [apply deleteProductImages_elem_of|]. split.
  - intros f. rewrite deleteProductImages_elem_of. tauto.
  - intros Hext. apply set_eq. intros f.
    rewrite deleteProductImages_elem_of. split; [tauto|].
    intros Hf. split; [done|]. intros img Himg Hs.
    apply Hext, startsWith_external in Himg. congruence.
Qed.

End ListingProperties.

(** A page of a sorted query: at most [n] documents, in order, each from
    the collection and passing the test, and the head of a rearrangement
    of all that pass. *)
Lemma sorted_page_spec {A} (R : relation A) `{!forall x y, Decision (R x y)}
    `{!Total R} `{!Transitive R} (f : A -> bool) (n : nat) (l : list A) :
  let page := take n (merge_sort R (List.filter f l)) in
  (length page <= n)%nat /\
  StronglySorted R page /\
  (forall x, x ∈ page -> x ∈ l /\ f x = true) /\
  exists rest,
    page ++ rest ≡ₚ List.filter f l /\
    (rest <> [] -> length page = n) /\
    forall a b, a ∈ page -> b ∈ rest -> R a b.
Proof.
  forget_parameters.
  intros page. unfold page.
  set (sorted := merge_sort R (List.filter f l)).
  assert (Hs : StronglySorted R (take n sorted ++ drop n sorted)).
  { rewrite take_drop. apply (StronglySorted_merge_sort R). }
  split; [rewrite length_take; lia|].
  split; [by apply StronglySorted_app_1_l in Hs|]. split.
  - intros x Hx. apply subseteq_take in Hx. unfold sorted in Hx.
    rewrite merge_sort_Permutation in Hx.
    by apply list_elem_of_In, filter_In in Hx as [?%list_elem_of_In ?].
  - exists (drop n sorted). split; [|split].
    + rewrite take_drop. apply merge_sort_Permutation.
    + intros Hrest. rewrite length_take.
      destruct (decide (n <= length sorted)%nat) as [|Hlt]; [lia|].
      rewrite drop_ge in Hrest by lia. done.
    + intros a b Ha Hb. by apply (StronglySorted_app_1_elem_of _ _ _ _ _ Hs).
Qed.

Section OwnerRoutes.

Variable Num : Type.
Variable nonnegative : Num -> bool.
Variable joinCwd : string -> string.
Variable refusal : PatchBody Num -> string.

Implicit Types (l item : Listing Num) (listings : list (Listing Num)).
Implicit Types (files : gset string) (body : PatchBody Num).

#[local] Instance listingNewerFirst_total : Total (@listingNewerFirst Num).
Proof. intros a b. unfold listingNewerFirst. lia. Qed.

#[local] Instance listingNewerFirst_trans : Transitive (@listingNewerFirst Num).
Proof. intros a b c. unfold listingNewerFirst. lia. Qed.

(** X14: [DELETE /:id] removes a listing only for its seller.  It
    answers ok exactly when the requester is identified, the listing
    exists and the requester is its seller; otherwise the collection and
    the files are as before.  On success the listing is gone (one
    document less, nothing found under the identity when identities are
    unique), every other listing is found as before, and the files unlinked
    are those of the images of the listing. *)
Theorem delete_only_by_seller listings files (user : option string)
    (id : string) :
  let result := deleteProduct joinCwd listings files user id in
  (result.1.1 = reply_ok tt <->
   exists uid item, user = Some uid /\
     findListingById listings id = Some item /\ seller item = uid) /\
  (result.1.1 <> reply_ok tt ->
   result.1.2 = listings /\ result.2 = files) /\
  (forall item,
     result.1.1 = reply_ok tt -> findListingById listings id = Some item ->
     result.1.2 = deleteListingById id listings /\
     result.2 = deleteProductImages joinCwd (images item) files /\
     S (length result.1.2) = length listings /\
     (forall id', id' <> id ->
        findListingById result.1.2 id' = findListingById listings id') /\
     (NoDup (map listingId listings) ->
      findListingById result.1.2 id = None)).
Proof.
  intros result. unfold result, deleteProduct.
  destruct user as [uid|]; cbn [fst snd].
  2:{ split; [split; [done|by intros (? & ? & ? & _)]|]. by split. }
  destruct (findListingById listings id) as [item|] eqn:Hfind; cbn [fst snd].
  2:{ split; [split; [done|by intros (? & ? & _ & ? & _)]|]. by split. }
  destruct (String.eqb_spec (seller item) uid) as [Hs|Hs]; cbn [negb fst snd].
  - split; [split; [intros _; by exists uid, item|done]|]. split; [done|].
    intros item' _ [= <-]. split; [done|]. split; [done|].
    split; [by apply (deleteListingById_length Num listings id item)|].
    split; [intros id' Hne; by apply deleteListingById_find_other|].
    apply deleteListingById_gone.
  - split; [|by split].
    split; [done|]. intros (uid' & item' & [= <-] & [= <-] & ?). done.
Qed.

(** X15: [PATCH /:id] changes something only for the seller and a body
    the validator accepts: an ok answer implies an identified requester
    who is the seller of the listing found and a valid body; with any
    other outcome, the refused save included, the collection and the
    files are as before. *)
Theorem patch_only_by_seller listings files (user : option string)
    (id : string) body :
  let result := patchProduct nonnegative joinCwd refusal listings files
                  user id body in
  (forall r, result.1.1 = answers (reply_ok r) ->
     exists uid item, user = Some uid /\
       validPatch nonnegative body = true /\
       findListingById listings id = Some item /\ seller item = uid) /\
  ((forall r, result.1.1 <> answers (reply_ok r)) ->
   result.1.2 = listings /\ result.2 = files) /\
  (user = None -> result.1.1 = answers (reply_error 401 "unauthorized")) /\
  (forall uid item, user = Some uid -> validPatch nonnegative body = true ->
     findListingById listings id = Some item -> seller item <> uid ->
     result.1.1 = answers (reply_error 403 "forbidden")).
Proof.
  intros result. unfold result, patchProduct.
  destruct user as [uid|]; cbn [fst snd].
  2:{ split; [done|]. split; [done|]. split; [done|]. by intros ? ? ?. }
  destruct (validPatch nonnegative body) eqn:Hvalid; cbn [negb fst snd].
  2:{ split; [done|]. split; [done|]. split; [done|]. by intros ? ? ? ?. }
  destruct (findListingById listings id) as [item|] eqn:Hfind; cbn [fst snd].
  2:{ split; [done|]. split; [done|]. split; [done|]. by intros ? ? ? ? ?. }
  destruct (String.eqb_spec (seller item) uid) as [Hs|Hs]; cbn [negb fst snd].
  2:{ split; [done|]. split; [done|]. split; [done|].
      by intros ? ? [= <-] _ [= <-] _. }
  split; [intros r _; by exists uid, item|].
  split; [|split; [done|]].
  - destruct (bool_decide (patchStatus body = Some sold)
              && negb (bool_decide (status item = sold))); cbn [fst snd].
    + intros H. by destruct (H patchDeleted).
    + destruct (truthy (title (core (assignPatch item body)))); cbn [fst snd];
        [|done].
      intros H. by destruct (H (patched (assignPatch item body))).
  - intros uid' item' [= <-] _ [= <-] Hne. done.
Qed.

(** X16: what a patch that is saved can and cannot change.  The listing
    is found afterwards as the assignment left it; its identity, seller,
    likes, share counter, creation time and [soldAt] are those it had;
    its title is not empty and, when the body carries one, is the trimmed
    title of the body; every other listing, the identities of the
    collection and the files are as before.  And a body asking for
    [sold] on a listing that is not sold saves nothing: the listing is
    deleted with its images, whatever else the body carries. *)
Theorem patch_effect listings files (uid id : string) body item :
  validPatch nonnegative body = true ->
  findListingById listings id = Some item ->
  seller item = uid ->
  let result := patchProduct nonnegative joinCwd refusal listings files
                  (Some uid) id body in
  (forall item', result.1.1 = answers (reply_ok (patched item')) ->
     item' = assignPatch item body /\
     findListingById result.1.2 id = Some item' /\
     (listingId item' = listingId item /\ seller item' = seller item /\
      likedBy (core item') = likedBy (core item) /\
      shareCount (core item') = shareCount (core item) /\
      createdAt (core item') = createdAt (core item) /\
      soldAt item' = soldAt item) /\
     truthy (title (core item')) = true /\
     (forall t, patchTitle body = Some t -> title (core item') = Some (trim t)) /\
     (forall id', id' <> id ->
        findListingById result.1.2 id' = findListingById listings id') /\
     map listingId result.1.2 = map listingId listings /\
     result.2 = files) /\
  (patchStatus body = Some sold -> status item <> sold ->
   result = (answers (reply_ok patchDeleted),
             deleteListingById id listings,
             deleteProductImages joinCwd (images item) files)) /\
  (result.1.1 = throws <->
   ~ (patchStatus body = Some sold /\ status item <> sold) /\
   truthy (title (core (assignPatch item body))) = false).
Proof.
  intros Hvalid Hfind Hseller result.
  assert (Hid : listingId item = id)
    by (by apply findListingById_Some in Hfind as [? _]).
  assert (Hsaved : forall item',
    item' = assignPatch item body ->
    truthy (title (core item')) = true ->
    item' = assignPatch item body /\
    findListingById (saveListing item' listings) id = Some item' /\
    (listingId item' = listingId item /\ seller item' = seller item /\
     likedBy (core item') = likedBy (core item) /\
     shareCount (core item') = shareCount (core item) /\
     createdAt (core item') = createdAt (core item) /\
     soldAt item' = soldAt item) /\
    truthy (title (core item')) = true /\
    (forall t, patchTitle body = Some t -> title (core item') = Some (trim t)) /\
    (forall id', id' <> id ->
       findListingById (saveListing item' listings) id'
       = findListingById listings id') /\
    map listingId (saveListing item' listings) = map listingId listings /\
    files = files).
  { intros item' -> Ht. split; [done|].
    split; [by apply (saveListing_find Num listings id item)|].
    split; [done|]. split; [done|].
    split; [intros t Hpt; cbn [assignPatch core title]; by rewrite Hpt|].
    split; [|split; [apply saveListing_ids|done]].
    intros id' Hne. apply saveListing_find_other.
    change (listingId (assignPatch item body)) with (listingId item).
    by rewrite Hid. }
  unfold result, patchProduct. rewrite Hvalid, Hfind. cbn [negb].
  replace (String.eqb (seller item) uid) with true
    by (symmetry; by apply String.eqb_eq).
  cbn [negb].
  destruct (decide (patchStatus body = Some sold /\ status item <> sold))
    as [[Hsold Hst]|Hkeep].
  - rewrite (bool_decide_eq_true_2 _ Hsold), (bool_decide_eq_false_2 _ Hst).
    cbn [negb andb fst snd]. split; [done|]. split; [done|].
    split; [done|]. intros [H _]. by destruct H.
  - assert (Hb : bool_decide (patchStatus body = Some sold)
                 && negb (bool_decide (status item = sold)) = false).
    { apply not_true_is_false. rewrite andb_true_iff, negb_true_iff.
      rewrite bool_decide_eq_true, bool_decide_eq_false. exact Hkeep. }
    rewrite Hb.
    destruct (truthy (title (core (assignPatch item body)))) eqn:Ht;
      cbn [fst snd].
    + split; [intros item' [= <-]; by apply Hsaved|].
      split; [intros ? ?; by destruct Hkeep|].
      split; [done|]. intros [_ ?]. done.
    + split; [done|]. split; [intros ? ?; by destruct Hkeep|]. done.
Qed.

End OwnerRoutes.

Section CleanupAndLists.

Variable Num : Type.
Variable nonnegative : Num -> bool.
Variable joinCwd : string -> string.
Variable refusal : PatchBody Num -> string.

Implicit Types (l item : Listing Num) (listings due : list (Listing Num)).
Implicit Types (files : gset string) (body : PatchBody Num).

#[local] Instance listingNewerFirst_total' : Total (@listingNewerFirst Num).
Proof. intros a b. unfold listingNewerFirst. lia. Qed.

#[local] Instance listingNewerFirst_trans' : Transitive (@listingNewerFirst Num).
Proof. intros a b c. unfold listingNewerFirst. lia. Qed.

Lemma cleanup_nothing_due (now : Z) listings files :
  List.filter (dueForCleanup now) listings = [] ->
  cleanupSoldProducts joinCwd now listings files = (listings, files).
Proof. intros H. unfold cleanupSoldProducts. by rewrite H. Qed.

Lemma no_soldAt_nothing_due (now : Z) listings :
  (forall l, l ∈ listings -> soldAt l = None) ->
  List.filter (dueForCleanup now) listings = [].
Proof.
  clear. induction listings as [|l listings IH]; [done|]. intros H.
  cbn [List.filter]. unfold dueForCleanup at 1.
  rewrite (H l) by left. rewrite andb_false_r. apply IH.
  intros l' Hl'. apply H. by right.
Qed.

(** X17: [PATCH /:id] never stores a listing as newly sold and never
    touches [soldAt]: every listing of the collection it leaves has a
    listing of the same identity and [soldAt] in the collection before,
    sold already if it is sold now.  So on a collection in which no
    [soldAt] is set, as the schema creates listings, the cleanup of the
    scheduler finds nothing to do after any patch. *)
Theorem patch_never_marks_sold listings files (user : option string)
    (id : string) body :
  let result := patchProduct nonnegative joinCwd refusal listings files
                  user id body in
  (forall l, l ∈ result.1.2 ->
     exists l0, l0 ∈ listings /\ listingId l0 = listingId l /\
       soldAt l0 = soldAt l /\ (status l = sold -> status l0 = sold)) /\
  ((forall l, l ∈ listings -> soldAt l = None) ->
   forall now,
     cleanupSoldProducts joinCwd now result.1.2 result.2
     = (result.1.2, result.2)).
Proof.
  intros result.
  assert (Hrel : forall l, l ∈ result.1.2 ->
     exists l0, l0 ∈ listings /\ listingId l0 = listingId l /\
       soldAt l0 = soldAt l /\ (status l = sold -> status l0 = sold)).
  { assert (Hsame : forall l, l ∈ listings ->
       exists l0, l0 ∈ listings /\ listingId l0 = listingId l /\
         soldAt l0 = soldAt l /\ (status l = sold -> status l0 = sold))
      by (intros l Hl; by exists l).
    unfold result, patchProduct.
    destruct user as [uid|]; [|done].
    destruct (validPatch nonnegative body); [|done]. cbn [negb].
    destruct (findListingById listings id) as [item|] eqn:Hfind; [|done].
    destruct (String.eqb (seller item) uid); [|done]. cbn [negb].
    destruct (decide (patchStatus body = Some sold /\ status item <> sold))
      as [[Hsold Hst]|Hkeep].
    - rewrite (bool_decide_eq_true_2 _ Hsold), (bool_decide_eq_false_2 _ Hst).
      cbn [negb andb fst snd]. intros l Hl. apply Hsame.
      eapply elem_of_sublist; [exact Hl|apply deleteListingById_sublist].
    - assert (Hb : bool_decide (patchStatus body = Some sold)
                   && negb (bool_decide (status item = sold)) = false).
      { apply not_true_is_false. rewrite andb_true_iff, negb_true_iff.
        rewrite bool_decide_eq_true, bool_decide_eq_false. exact Hkeep. }
      rewrite Hb.
      destruct (truthy (title (core (assignPatch item body)))); [|done].
      cbn [fst snd]. intros l Hl.
      apply saveListing_elem_of in Hl as [->|Hl]; [|by apply Hsame].
      exists item. split; [by apply findListingById_Some in Hfind as [_ ?]|].
      split; [done|]. split; [done|].
      cbn [assignPatch status]. intros Hst.
      destruct (patchStatus body) as [st|] eqn:Hp; simpl in Hst.
      + subst st. destruct (decide (status item = sold)); [done|].
        destruct Hkeep. by split.
      + done. }
  split; [exact Hrel|].
  intros Hnone now. apply cleanup_nothing_due, no_soldAt_nothing_due.
  intros l Hl. destruct (Hrel l Hl) as (l0 & Hl0 & _ & <- & _).
  by apply Hnone.
Qed.

Lemma filter_filter_bool {A} (f g : A -> bool) (l : list A) :
  List.filter f (List.filter g l) = List.filter (fun x => g x && f x) l.
Proof.
  clear. induction l as [|x l IH]; [done|]. cbn [List.filter].
  destruct (g x); cbn [andb List.filter]; [|done].
  destruct (f x); by rewrite IH.
Qed.

Lemma filter_sublist_bool {A} (f : A -> bool) (l : list A) :
  List.filter f l `sublist_of` l.
Proof.
  clear. induction l as [|x l IH]; [constructor|].
  cbn [List.filter]. destruct (f x); by constructor.
Qed.

Lemma filter_none {A} (f : A -> bool) (l : list A) :
  List.filter (fun x => negb (f x) && f x) l = [].
Proof.
  clear. induction l as [|x l IH]; [done|]. cbn [List.filter].
  by destruct (f x).
Qed.

Lemma NoDup_ids_filter (f : Listing Num -> bool) listings :
  NoDup (map listingId listings) ->
  NoDup (map listingId (List.filter f listings)).
Proof.
  clear. intros Hnd. eapply sublist_NoDup; [exact Hnd|].
  apply (fmap_sublist listingId), filter_sublist_bool.
Qed.

Lemma NoDup_ids_inj listings l l' :
  NoDup (map listingId listings) -> l ∈ listings -> l' ∈ listings ->
  listingId l = listingId l' -> l = l'.
Proof.
  clear. induction listings as [|x listings IH]; [by intros _ ?%elem_of_nil|].
  cbn [map]. intros [Hx Hnd]%NoDup_cons Hl Hl' Heq.
  apply elem_of_cons in Hl as [->|Hl]; apply elem_of_cons in Hl' as [->|Hl'].
  - done.
  - destruct Hx. rewrite Heq. by apply list_elem_of_fmap_2.
  - destruct Hx. rewrite <- Heq. by apply list_elem_of_fmap_2.
  - by apply IH.
Qed.

Lemma foldl_delete_filter due listings :
  NoDup (map listingId listings) ->
  foldl (fun ls p => deleteListingById (listingId p) ls) listings due
  = List.filter
      (fun l => negb (bool_decide (listingId l ∈ map listingId due)))
      listings.
Proof.
  clear. revert listings. induction due as [|d due IH]; intros listings Hnd;
    cbn [foldl map].
  - symmetry. rewrite <- (filter_all listings) at 2.
    apply List.filter_ext. intros l.
    by rewrite bool_decide_eq_false_2 by apply not_elem_of_nil.
  - rewrite deleteListingById_filter by done.
    rewrite IH by (by apply NoDup_ids_filter).
    rewrite filter_filter_bool. apply List.filter_ext. intros l.
    destruct (String.eqb_spec (listingId l) (listingId d)) as [Heq|Hne];
      cbn [negb andb].
    + symmetry. apply negb_false_iff, bool_decide_eq_true_2. rewrite Heq. left.
    + f_equal. apply bool_decide_ext. rewrite elem_of_cons. naive_solver.
Qed.

Lemma cleanup_fold due listings files :
  foldl
    (fun (state : list (Listing Num) * gset string) product =>
       (deleteListingById (_id (core product)) state.1,
        if (0 <? length (images product))%nat
        then deleteProductImages joinCwd (images product) state.2
        else state.2))
    (listings, files) due
  = (foldl (fun ls p => deleteListingById (listingId p) ls) listings due,
     foldl (fun fs p => deleteProductImages joinCwd (images p) fs) files due).
Proof.
  revert listings files. induction due as [|d due IH]; intros listings files;
    [done|].
  cbn [foldl fst snd]. rewrite IH. f_equal. f_equal.
  by destruct (images d).
Qed.

Lemma foldl_images_elem_of due files (f : string) :
  f ∈ foldl (fun fs p => deleteProductImages joinCwd (images p) fs) files due
  <->
  f ∈ files /\
  forall l img, l ∈ due -> img ∈ images l ->
    startsWith img "/uploads/" = true -> joinCwd img <> f.
Proof.
  revert files. induction due as [|d due IH]; intros files; cbn [foldl].
  - split; [|by intros [? _]]. intros H. split; [done|].
    intros l img Hl. by apply elem_of_nil in Hl.
  - rewrite IH, deleteProductImages_elem_of. split.
    + intros [[Hf Hd] Hrest]. split; [done|].
      intros l img [->|Hl]%elem_of_cons; [by apply Hd|by apply Hrest].
    + intros [Hf Hall]. split; [split; [done|]|].
      * intros img. apply Hall. left.
      * intros l img Hl. apply Hall. by right.
Qed.

(** X18: the cleanup of the scheduler, on a collection with unique
    identities, removes exactly the listings that are due (sold, with a
    [soldAt] at least an hour before [now]) and keeps the others in their
    order; the files it unlinks are the uploads of the images of the due
    listings; a listing that is not sold or has no [soldAt] is never
    removed; and running it again at the same time changes nothing. *)
Theorem cleanup_removes_due_listings (now : Z) listings files :
  NoDup (map listingId listings) ->
  let result := cleanupSoldProducts joinCwd now listings files in
  result.1 = List.filter (fun l => negb (dueForCleanup now l)) listings /\
  (forall l, l ∈ listings ->
     status l <> sold \/ soldAt l = None -> l ∈ result.1) /\
  (forall f, f ∈ result.2 <->
     f ∈ files /\
     forall l img, l ∈ listings -> dueForCleanup now l = true ->
       img ∈ images l -> startsWith img "/uploads/" = true ->
       joinCwd img <> f) /\
  cleanupSoldProducts joinCwd now result.1 result.2 = result.
Proof.
  intros Hnd result.
  assert (Hres : result =
    (List.filter (fun l => negb (dueForCleanup now l)) listings,
     foldl (fun fs p => deleteProductImages joinCwd (images p) fs) files
       (List.filter (dueForCleanup now) listings))).
  { unfold result, cleanupSoldProducts.
    destruct (List.filter (dueForCleanup now) listings) as [|d due] eqn:Hdue.
    - cbn [length Nat.eqb foldl]. f_equal.
      rewrite <- (filter_all listings) at 1.
      apply List.filter_ext_in. intros l Hl. symmetry. apply negb_true_iff.
      apply not_true_is_false. intros Hd.
      assert (l ∈ List.filter (dueForCleanup now) listings)
        by (by apply list_elem_of_In, filter_In).
      rewrite Hdue in *. by apply elem_of_nil in H.
    - cbn [length Nat.eqb]. rewrite cleanup_fold. f_equal.
      rewrite foldl_delete_filter by done. rewrite <- Hdue.
      apply List.filter_ext_in. intros l Hl%list_elem_of_In. f_equal.
      destruct (dueForCleanup now l) eqn:Hd.
      + apply bool_decide_eq_true_2, list_elem_of_fmap_2.
        by apply list_elem_of_In, filter_In, conj; [apply list_elem_of_In|].
      + apply bool_decide_eq_false_2. intros Hin.
        apply list_elem_of_fmap in Hin as (l' & Hid & Hl').
        apply list_elem_of_In, filter_In in Hl' as [Hl' Hd'].
        apply list_elem_of_In in Hl'.
        rewrite (NoDup_ids_inj listings l l' Hnd Hl Hl' Hid) in Hd.
        congruence. }
  rewrite Hres. cbn [fst snd]. split; [done|]. split; [|split].
  - intros l Hl Hkeep. apply list_elem_of_In, filter_In.
    split; [by apply list_elem_of_In|]. apply negb_true_iff.
    unfold dueForCleanup. destruct Hkeep as [Hst| ->].
    + by rewrite (bool_decide_eq_false_2 _ Hst).
    + apply andb_false_r.
  - intros f. rewrite foldl_images_elem_of. split.
    + intros [Hf Hall]. split; [done|]. intros l img Hl Hd. apply Hall.
      by apply list_elem_of_In, filter_In, conj; [apply list_elem_of_In|].
    + intros [Hf Hall]. split; [done|]. intros l img Hl.
      apply list_elem_of_In, filter_In in Hl as [Hl Hd].
      apply Hall; [by apply list_elem_of_In|done].
  - apply cleanup_nothing_due. rewrite filter_filter_bool.
    apply filter_none.
Qed.

(** X19: the two owner lists.  [GET /my] needs an identity and answers
    with listings of the requester only, in any status; [GET
    /user/:userId] answers 404 when no user has the name and otherwise
    with listings that are on sale and belong to the first user of that
    name.  Both answer at most 200 listings, the most recent first, and
    miss none when at most 200 qualify. *)
Theorem owner_lists listings (names : list UserName) (name uid : string) :
  getMyProducts listings None = reply_error 401 "unauthorized" /\
  (exists page,
     getMyProducts listings (Some uid) = reply_ok page /\
     (length page <= 200)%nat /\
     StronglySorted listingNewerFirst page /\
     (forall l, l ∈ page -> l ∈ listings /\ seller l = uid) /\
     ((length (List.filter (fun l => String.eqb (seller l) uid) listings)
       <= 200)%nat ->
      forall l, l ∈ listings -> seller l = uid -> l ∈ page)) /\
  match List.find (fun u => String.eqb (userId u) name) names with
  | None =>
      getUserProducts names listings name
      = reply_error 404 "사용자를 찾을 수 없습니다."
  | Some target =>
      exists page,
        getUserProducts names listings name = reply_ok page /\
        (length page <= 200)%nat /\
        StronglySorted listingNewerFirst page /\
        (forall l, l ∈ page ->
           l ∈ listings /\ seller l = account_id target /\
           status l = selling) /\
        ((length
            (List.filter
               (fun l => String.eqb (seller l) (account_id target)
                         && bool_decide (status l = selling)) listings)
          <= 200)%nat ->
         forall l, l ∈ listings -> seller l = account_id target ->
                   status l = selling -> l ∈ page)
  end.
Proof.
  assert (Hpage : forall (f : Listing Num -> bool),
    let page := take 200 (merge_sort listingNewerFirst (List.filter f listings)) in
    (length page <= 200)%nat /\
    StronglySorted listingNewerFirst page /\
    (forall l, l ∈ page -> l ∈ listings /\ f l = true) /\
    ((length (List.filter f listings) <= 200)%nat ->
     forall l, l ∈ listings -> f l = true -> l ∈ page)).
  { intros f page.
    destruct (sorted_page_spec listingNewerFirst f 200 listings)
      as (Hlen & Hsorted & Hsound & rest & Hperm & Hrest & _).
    fold page in Hlen, Hsorted, Hsound, Hperm, Hrest.
    split; [done|]. split; [done|]. split; [done|].
    intros Hfew l Hl Hf. unfold page.
    rewrite take_ge by (rewrite merge_sort_Permutation; lia).
    rewrite merge_sort_Permutation.
    by apply list_elem_of_In, filter_In, conj; [apply list_elem_of_In|]. }
  split; [done|]. split.
  - destruct (Hpage (fun l => String.eqb (seller l) uid))
      as (Hlen & Hsorted & Hsound & Hfull).
    eexists. split; [reflexivity|]. split; [done|]. split; [done|]. split.
    + intros l Hl. destruct (Hsound l Hl) as [? ?%String.eqb_eq]. done.
    + intros Hfew l Hl Hs. apply Hfull; [done..|]. by apply String.eqb_eq.
  - unfold getUserProducts.
    destruct (List.find _ names) as [target|]; [|done].
    destruct (Hpage (fun l => String.eqb (seller l) (account_id target)
                              && bool_decide (status l = selling)))
      as (Hlen & Hsorted & Hsound & Hfull).
    eexists. split; [reflexivity|]. split; [done|]. split; [done|]. split.
    + intros l Hl. destruct (Hsound l Hl) as [? Hf].
      apply andb_true_iff in Hf as [?%String.eqb_eq ?%bool_decide_eq_true].
      done.
    + intros Hfew l Hl Hs Hst. apply Hfull; [done..|].
      apply andb_true_iff. split; [by apply String.eqb_eq|].
      by apply bool_decide_eq_true.
Qed.

End CleanupAndLists.

(** ** The game routes *)

Lemma orElse_zero (x : Z) : orElse 0 x = x.
Proof. unfold orElse. destruct (Z.eqb_spec x 0); congruence. Qed.

Lemma roundNumber_safe (x : Z) : safeInteger x -> roundNumber x = x.
Proof.
  unfold safeInteger, roundNumber. intros H.
  by destruct (Z.ltb_spec (Z.abs x) 9007199254740992); [|lia].
Qed.

Section GameProperties.

Variable Pct : Type.
Variable pctInRange : Pct -> bool.
Variable pctZero : Pct.
Variable shopRefusal : Z -> string.
Variable gameRefusal : GamePatch Pct -> string.

Implicit Types (u : GameUser Pct) (users : list (GameUser Pct)).

Lemma findGameUser_save users (id : string) u u' :
  findGameUser users id = Some u -> game_id u' = id ->
  findGameUser (saveGameUser u' users) id = Some u'.
Proof.
  clear. unfold findGameUser. intros Hfind Hid.
  induction users as [|x users IH]; [done|].
  cbn [List.find saveGameUser] in *. rewrite Hid.
  destruct (String.eqb (game_id x) id) eqn:Hx; cbn [List.find].
  - by rewrite Hid, String.eqb_refl.
  - rewrite Hx. by apply IH.
Qed.

Lemma findGameUser_save_other users (id : string) u' :
  id <> game_id u' ->
  findGameUser (saveGameUser u' users) id = findGameUser users id.
Proof.
  clear. intros Hne. unfold findGameUser.
  induction users as [|x users IH]; [done|]. cbn [saveGameUser].
  destruct (String.eqb_spec (game_id x) (game_id u')) as [Heq|Hne'];
    cbn [List.find].
  - rewrite Heq. apply not_eq_sym, String.eqb_neq in Hne. by rewrite Hne.
  - by rewrite IH.
Qed.

Lemma findGameUser_id users (id : string) u :
  findGameUser users id = Some u -> game_id u = id.
Proof.
  unfold findGameUser. intros H. apply find_some in H as [_ H].
  by apply String.eqb_eq.
Qed.

(** X20: [POST /shop/buy] for a stored user.  The purchase goes through
    exactly when the quantity is between 1 and 10 and the coins cover
    price times quantity.  When the coins and the count of the item are
    integers on which the arithmetic of doubles is exact, below 2^53 in
    size with room for ten more items, the coins go down by that cost
    and do not fall below 0, the count of the item bought goes up by the
    quantity and the other counts stay, so that coins plus items at shop
    prices are worth what they were; the answer reports the cost and the
    coins left; level, progress and the other users are untouched.  When
    it does not go through, nothing is changed. *)
Theorem buy_pays_and_delivers users (uid : string) (item : ShopItem)
    (quantity : Z) u :
  findGameUser users uid = Some u ->
  safeInteger (gameCoins u) ->
  safeInteger (itemCount item u) ->
  safeInteger (itemCount item u + 10) ->
  let result := buyItem shopRefusal users (Some uid) item quantity in
  ((exists p, result.1 = reply_ok p) <->
   1 <= quantity <= 10 /\ prices item * quantity <= gameCoins u) /\
  (forall p, result.1 = reply_ok p ->
     exists u', findGameUser result.2 uid = Some u' /\
       gameCoins u' = gameCoins u - prices item * quantity /\
       0 <= gameCoins u' /\
       itemCount item u' = itemCount item u + quantity /\
       (forall other, other <> item -> itemCount other u' = itemCount other u) /\
       wealth u' = wealth u /\
       purchaseCost p = prices item * quantity /\
       25 <= purchaseCost p <= 1000 /\
       remainingCoins p = gameCoins u' /\
       (gameLevel u' = gameLevel u /\ gameProgressPct u' = gameProgressPct u /\
        gameProgressPoints u' = gameProgressPoints u /\
        gameTreesGrown u' = gameTreesGrown u) /\
       forall uid', uid' <> uid ->
         findGameUser result.2 uid' = findGameUser users uid') /\
  ((forall p, result.1 <> reply_ok p) -> result.2 = users).
Proof.
  intros Hfind Hcoins Hcount Hroom result. unfold result, buyItem.
  assert (Hid : game_id u = uid) by (by apply findGameUser_id in Hfind).
  destruct ((1 <=? quantity) && (quantity <=? 10)) eqn:Hq; cbn [negb].
  2:{ cbn [fst snd]. split; [|by split].
      split; [by intros [? ?]|]. intros [[H1 H2] _].
      apply andb_false_iff in Hq as [Hq|Hq];
        [apply Z.leb_gt in Hq|apply Z.leb_gt in Hq]; lia. }
  apply andb_true_iff in Hq as [H1%Z.leb_le H2%Z.leb_le].
  assert (Hcost : 25 <= prices item * quantity <= 1000)
    by (destruct item; cbn [prices]; lia).
  rewrite Hfind, !orElse_zero.
  destruct (Z.ltb_spec (gameCoins u) (prices item * quantity)) as [Hlt|Hge];
    cbn [fst snd].
  { split; [|by split]. split; [by intros [? ?]|]. lia. }
  assert (Hpaid : roundNumber (gameCoins u - prices item * quantity)
                  = gameCoins u - prices item * quantity).
  { apply roundNumber_safe. unfold safeInteger in *. lia. }
  assert (Hgot : roundNumber (itemCount item u + quantity)
                 = itemCount item u + quantity).
  { apply roundNumber_safe. unfold safeInteger in *. lia. }
  split; [split; [lia|intros _; eauto]|]. split; [|intros H; by edestruct H].
  intros p [= <-]. eexists. split.
  { by apply (findGameUser_save users uid u). }
  cbn [gameCoins gameLevel gameProgressPct gameProgressPoints gameTreesGrown
       purchaseCost remainingCoins].
  rewrite Hpaid.
  split; [done|]. split; [lia|]. split.
  { destruct item; cbn [itemCount gameWaterCans gameFertilizers
                        gameGrowthBoosters] in *;
      by rewrite ?orElse_zero, Hgot. }
  split.
  { intros other Hne. by destruct item, other. }
  split.
  { unfold wealth. cbn [gameCoins gameWaterCans gameFertilizers
                        gameGrowthBoosters].
    destruct item; cbn [itemCount] in Hgot; rewrite ?orElse_zero, Hgot;
      cbn [prices]; lia. }
  split; [done|]. split; [lia|].
  split; [done|]. split; [done|].
  intros uid' Hne. apply findGameUser_save_other. cbn [game_id].
  by rewrite Hid.
Qed.

(** X21: [PATCH /game] for a stored user and a body the validator
    accepts.  When the body carries a time that is no date, the save is
    refused and the handler, which catches nothing, throws: nothing is
    answered and nothing stored.  Otherwise, when the coins to start
    from and the trees are integers on which the arithmetic of doubles
    is exact, the route answers with the state it saved, and: a body
    that carries a level leaves a stored level between 1 and 3; a level
    of 4 or more completes a tree, which resets the level to 1, adds 500
    coins and, unless the body sets them, counts one more tree and
    resets the progress; a lower level is stored as given and, when it
    is above the level the user had, pays (level - 1) times 100 coins.
    A body without a level leaves level alone.  Coins that were not
    negative are not negative afterwards. *)
Theorem game_patch_levels users (uid : string) (body : GamePatch Pct) u :
  validGamePatch pctInRange body = true ->
  findGameUser users uid = Some u ->
  let result := patchGame pctInRange pctZero gameRefusal users (Some uid)
                  body in
  let base := default (gameCoins u) (patchCoins body) in
  (dateRefused body = true -> result = (throws, users)) /\
  (dateRefused body = false ->
   safeInteger base -> safeInteger (base + 500) ->
   safeInteger (gameTreesGrown u + 1) ->
   exists u',
     result.1 = answers (reply_ok u') /\
     findGameUser result.2 uid = Some u' /\
     (forall level, patchLevel body = Some level ->
        1 <= gameLevel u' <= 3 /\
        (4 <= level ->
         gameLevel u' = 1 /\ gameCoins u' = base + 500 /\
         gameTreesGrown u'
         = default (gameTreesGrown u + 1) (patchTreesGrown body) /\
         gameProgressPct u' = default pctZero (patchProgressPct body)) /\
        (level < 4 ->
         gameLevel u' = level /\
         gameCoins u' =
           base + (if orElse 1 (gameLevel u) <? level
                   then (level - 1) * 100 else 0))) /\
     (patchLevel body = None ->
      gameLevel u' = gameLevel u /\ gameCoins u' = base) /\
     (0 <= gameCoins u -> 0 <= gameCoins u') /\
     (forall t, patchLastCollectAt body = Some (Some t) ->
        gameLastCollectAt u' = (if t =? 0 then None else Some t) /\
        (t = 0 \/ Z.abs t <= 8640000000000000)) /\
     forall uid', uid' <> uid ->
       findGameUser result.2 uid' = findGameUser users uid').
Proof.
  intros Hvalid Hfind result base.
  assert (Hid : game_id u = uid) by (by apply findGameUser_id in Hfind).
  set (u' := applyGamePatch pctZero u body).
  assert (Hid' : game_id u' = uid).
  { rewrite <- Hid. unfold u', applyGamePatch.
    destruct (patchLevel body) as [level|]; [destruct (4 <=? level)|]; done. }
  unfold result, patchGame. rewrite Hvalid, Hfind. cbn [negb fst snd].
  fold u'. split; [by intros ->|].
  intros Hdate Hsafe Hsafe500 Htrees. rewrite Hdate. cbn [fst snd].
  exists u'. split; [done|].
  split; [by apply (findGameUser_save users uid u)|].
  unfold validGamePatch in Hvalid.
  repeat (apply andb_true_iff in Hvalid as [Hvalid ?]).
  assert (Hbase : 0 <= gameCoins u -> 0 <= base).
  { unfold base. destruct (patchCoins body) as [c|]; [|done].
    intros _. cbn [atLeast] in Hvalid. cbn. lia. }
  assert (Hlevel : forall level, patchLevel body = Some level -> 1 <= level).
  { intros level Hl. rewrite Hl in *. cbn [atLeast] in *. lia. }
  assert (Hreward : roundNumber (base + 500) = base + 500)
    by (by apply roundNumber_safe).
  assert (Hgrown : roundNumber (gameTreesGrown u + 1) = gameTreesGrown u + 1)
    by (by apply roundNumber_safe).
  assert (Hpaid : forall level, 1 <= level < 4 ->
            roundNumber (base + (level - 1) * 100) = base + (level - 1) * 100).
  { intros level Hl. apply roundNumber_safe. unfold safeInteger in *. lia. }
  split; [|split; [|split; [|split]]].
  - intros level Hl. pose proof (Hlevel level Hl) as Hl1.
    unfold u', applyGamePatch. rewrite Hl. fold base.
    destruct (Z.leb_spec 4 level) as [Hfour|Hfour];
      cbn [gameLevel gameCoins gameTreesGrown gameProgressPct];
      rewrite ?orElse_zero.
    + split; [lia|]. split; [|lia]. intros _.
      split; [done|]. split; [done|]. split; [by rewrite Hgrown|].
      by destruct (patchProgressPct body).
    + split; [lia|]. split; [lia|]. intros _. split; [done|].
      destruct (orElse 1 (gameLevel u) <? level); [|lia].
      apply Hpaid. lia.
  - intros Hl. unfold u', applyGamePatch. rewrite Hl. by fold base.
  - intros Hc. apply Hbase in Hc. unfold u', applyGamePatch. fold base.
    destruct (patchLevel body) as [level|] eqn:Hl.
    + pose proof (Hlevel level eq_refl) as Hl1.
      destruct (Z.leb_spec 4 level) as [Hfour|Hfour]; cbn [gameCoins];
        rewrite ?orElse_zero; [lia|].
      destruct (orElse 1 (gameLevel u) <? level); [|lia].
      rewrite Hpaid by lia. lia.
  + done.
  - intros t Ht. unfold dateRefused, validDate in Hdate. rewrite Ht in Hdate.
    split.
    + unfold u', applyGamePatch. rewrite Ht.
      by destruct (patchLevel body) as [level|]; [destruct (4 <=? level)|].
    + destruct (Z.eqb_spec t 0) as [?|_]; [by left|]. right.
      cbn [negb andb] in Hdate. apply negb_false_iff, Z.leb_le in Hdate. lia.
  - intros uid' Hne. apply findGameUser_save_other. by rewrite Hid'.
Qed.

End GameProperties.

(** ** Accounts: e-mail codes

    The handlers of [/send-code] and [/verify-code], behind their rate
    limiter.  The collection is read and written by address only; the
    statements take a collection that holds at most one code for an
    address, which the two handlers keep. *)

Lemma findCode_Some (codes : list EmailCode) (email : string) (doc : EmailCode) :
  findCode codes email = Some doc -> codeEmail doc = email /\ doc ∈ codes.
Proof.
  forget_parameters.
  unfold findCode. intros H. apply find_some in H as [Hin Heq].
  split; [by apply String.eqb_eq | by apply list_elem_of_In].
Qed.

Lemma findCode_None (codes : list EmailCode) (email : string) :
  findCode codes email = None <-> email ∉ codeEmail <$> codes.
Proof.
  forget_parameters.
  unfold findCode. induction codes as [|d rest IH]; simpl.
  - split; [intros _; apply not_elem_of_nil | done].
  - rewrite not_elem_of_cons. destruct (String.eqb_spec (codeEmail d) email) as [->|Hne].
    + split; [done | by intros [? _]].
    + rewrite IH. split; [by intros ?; split | by intros [_ ?]].
Qed.

Lemma elem_of_upsertCode_emails (doc : EmailCode) (codes : list EmailCode)
    (e : string) :
  e ∈ codeEmail <$> upsertCode doc codes <->
  e = codeEmail doc \/ e ∈ codeEmail <$> codes.
Proof.
  forget_parameters.
  induction codes as [|d rest IH].
  - change (codeEmail <$> upsertCode doc []) with [codeEmail doc].
    rewrite list_elem_of_singleton. split; [by left | intros [?|H]; [done|]].
    by apply elem_of_nil in H.
  - change (upsertCode doc (d :: rest)) with
      (if String.eqb (codeEmail d) (codeEmail doc) then doc :: rest
       else d :: upsertCode doc rest).
    destruct (String.eqb_spec (codeEmail d) (codeEmail doc)) as [Heq|Hne];
      rewrite !fmap_cons, !elem_of_cons.
    + rewrite Heq. tauto.
    + rewrite IH. tauto.
Qed.

Lemma upsertCode_NoDup (doc : EmailCode) (codes : list EmailCode) :
  NoDup (codeEmail <$> codes) -> NoDup (codeEmail <$> upsertCode doc codes).
Proof.
  forget_parameters.
  induction codes as [|d rest IH]; intros Hnd.
  - apply NoDup_singleton.
  - rewrite fmap_cons in Hnd. apply NoDup_cons in Hnd as [Hd Hrest].
    change (upsertCode doc (d :: rest)) with
      (if String.eqb (codeEmail d) (codeEmail doc) then doc :: rest
       else d :: upsertCode doc rest).
    destruct (String.eqb_spec (codeEmail d) (codeEmail doc)) as [Heq|Hne];
      rewrite fmap_cons; apply NoDup_cons.
    + by rewrite <- Heq.
    + split; [|by apply IH].
      rewrite elem_of_upsertCode_emails. intros [?|?]; [by apply Hne | done].
Qed.

Lemma findCode_upsert_same (doc : EmailCode) (codes : list EmailCode) :
  findCode (upsertCode doc codes) (codeEmail doc) = Some doc.
Proof.
  forget_parameters.
  unfold findCode. induction codes as [|d rest IH]; simpl.
  - by rewrite String.eqb_refl.
  - destruct (String.eqb_spec (codeEmail d) (codeEmail doc)) as [Heq|Hne]; simpl.
    + by rewrite String.eqb_refl.
    + by apply String.eqb_neq in Hne as ->.
Qed.

Lemma findCode_upsert_other (doc : EmailCode) (codes : list EmailCode)
    (e : string) :
  e <> codeEmail doc ->
  findCode (upsertCode doc codes) e = findCode codes e.
Proof.
  forget_parameters.
  intros Hne. unfold findCode. induction codes as [|d rest IH]; simpl.
  - assert (String.eqb (codeEmail doc) e = false) as ->; [|done].
    apply String.eqb_neq. congruence.
  - destruct (String.eqb_spec (codeEmail d) (codeEmail doc)) as [Heq|Hd]; simpl.
    + rewrite Heq.
      assert (String.eqb (codeEmail doc) e = false) as ->; [|done].
      apply String.eqb_neq. congruence.
    + by rewrite IH.
Qed.

Lemma deleteCode_sublist (email : string) (codes : list EmailCode) :
  sublist (deleteCode email codes) codes.
Proof.
  forget_parameters.
  induction codes as [|d rest IH]; simpl; [done|].
  destruct (String.eqb (codeEmail d) email).
  - by apply sublist_cons.
  - by apply sublist_skip.
Qed.

Lemma deleteCode_NoDup (email : string) (codes : list EmailCode) :
  NoDup (codeEmail <$> codes) -> NoDup (codeEmail <$> deleteCode email codes).
Proof.
  forget_parameters.
  intros Hnd. eapply sublist_NoDup; [exact Hnd|].
  apply fmap_sublist, deleteCode_sublist.
Qed.

Lemma findCode_delete_same (email : string) (codes : list EmailCode) :
  NoDup (codeEmail <$> codes) ->
  findCode (deleteCode email codes) email = None.
Proof.
  forget_parameters.
  induction codes as [|d rest IH]; intros Hnd; [done|].
  rewrite fmap_cons in Hnd. apply NoDup_cons in Hnd as [Hd Hrest]. simpl.
  destruct (String.eqb_spec (codeEmail d) email) as [Heq|Hne].
  - apply findCode_None. by rewrite <- Heq.
  - unfold findCode in *. simpl.
    apply String.eqb_neq in Hne as ->. by apply IH.
Qed.

Lemma findCode_delete_other (email e : string) (codes : list EmailCode) :
  e <> email ->
  findCode (deleteCode email codes) e = findCode codes e.
Proof.
  forget_parameters.
  intros Hne. unfold findCode. induction codes as [|d rest IH]; simpl; [done|].
  destruct (String.eqb_spec (codeEmail d) email) as [Heq|Hd]; simpl.
  - assert (String.eqb (codeEmail d) e = false) as ->; [|done].
    apply String.eqb_neq. congruence.
  - by rewrite IH.
Qed.

Section AccountProperties.

Variable isEmail : string -> bool.
Variable sendRefusal : string -> string.
Variable verifyRefusal : string -> string -> string.

(** The three ways [verifyCode] goes on without answering 200 leave the
    address with a code or without one, never with two. *)
Lemma verifyCode_NoDup (codes : list EmailCode) (now : Z)
    (email guess : string) :
  NoDup (codeEmail <$> codes) ->
  NoDup (codeEmail <$>
           (verifyCode isEmail verifyRefusal codes now email guess).2).
Proof.
  intros Hnd. unfold verifyCode.
  destruct (validVerifyBody isEmail email guess); simpl; [|done].
  destruct (findCode codes email) as [doc|]; [|done].
  destruct (expiresAt doc <? now); simpl; [by apply deleteCode_NoDup|].
  destruct (5 <=? attempts doc); simpl; [done|].
  destruct (String.eqb (code doc) guess); simpl.
  - by apply deleteCode_NoDup.
  - by apply upsertCode_NoDup.
Qed.

Lemma verifyCode_other (codes : list EmailCode) (now : Z)
    (email guess other : string) :
  other <> email ->
  findCode (verifyCode isEmail verifyRefusal codes now email guess).2 other
  = findCode codes other.
Proof.
  intros Hne. unfold verifyCode.
  destruct (validVerifyBody isEmail email guess); simpl; [|done].
  destruct (findCode codes email) as [doc|] eqn:Hdoc; [|done].
  apply findCode_Some in Hdoc as [Hemail _].
  destruct (expiresAt doc <? now); simpl; [by apply findCode_delete_other|].
  destruct (5 <=? attempts doc); simpl; [done|].
  destruct (String.eqb (code doc) guess); simpl.
  - by apply findCode_delete_other.
  - apply findCode_upsert_other. simpl. congruence.
Qed.

Lemma verifyCode_ok_iff (codes : list EmailCode) (now : Z)
    (email guess : string) :
  (verifyCode isEmail verifyRefusal codes now email guess).1 = reply_ok tt <->
  validVerifyBody isEmail email guess = true /\
  exists doc, findCode codes email = Some doc /\ now <= expiresAt doc /\
              attempts doc < 5 /\ code doc = guess.
Proof.
  unfold verifyCode.
  destruct (validVerifyBody isEmail email guess); simpl;
    [|split; [done | by intros [? _]]].
  destruct (findCode codes email) as [doc|];
    [|split; [done | by intros [_ (? & ? & _)]]].
  destruct (Z.ltb_spec (expiresAt doc) now); simpl.
  { split; [done | intros [_ (d & [= <-] & ? & _)]; lia]. }
  destruct (Z.leb_spec 5 (attempts doc)); simpl.
  { split; [done | intros [_ (d & [= <-] & ? & ? & _)]; lia]. }
  destruct (String.eqb_spec (code doc) guess) as [Heq|Hne]; simpl.
  - split; [|done]. intros _. split; [done|]. by exists doc.
  - split; [done | intros [_ (d & [= <-] & ? & ? & ?)]; done].
Qed.

(** The handler of [POST /verify-code], which a request reaches when the
    limiter passes it on, answers 200 exactly when the body passes the
    parser and the address has a stored code that has not expired, has
    fewer than five failed attempts and equals the code of the body.  A
    code that was accepted is gone: whatever is asked for the address
    afterwards, at whatever time, is not answered 200 before a new code is
    stored.  The route keeps one code for an address at most and never
    touches the code of another address. *)
Theorem verify_accepts_once (codes : list EmailCode) (now : Z)
    (email guess : string) :
  NoDup (codeEmail <$> codes) ->
  let r := verifyCode isEmail verifyRefusal codes now email guess in
  (r.1 = reply_ok tt <->
     validVerifyBody isEmail email guess = true /\
     exists doc, findCode codes email = Some doc /\ now <= expiresAt doc /\
                 attempts doc < 5 /\ code doc = guess) /\
  (r.1 = reply_ok tt ->
     findCode r.2 email = None /\
     forall now' guess',
       (verifyCode isEmail verifyRefusal r.2 now' email guess').1
       <> reply_ok tt) /\
  NoDup (codeEmail <$> r.2) /\
  (forall other, other <> email -> findCode r.2 other = findCode codes other).
Proof.
  intros Hnd r. split; [apply verifyCode_ok_iff|].
  split; [|split; [by apply verifyCode_NoDup | intros; by apply verifyCode_other]].
  intros Hok.
  assert (findCode r.2 email = None) as Hgone.
  { subst r. revert Hok. unfold verifyCode.
    destruct (validVerifyBody isEmail email guess); simpl; [|done].
    destruct (findCode codes email) as [doc|]; [|done].
    destruct (expiresAt doc <? now); simpl; [done|].
    destruct (5 <=? attempts doc); simpl; [done|].
    destruct (String.eqb (code doc) guess); simpl; [|done].
    intros _. by apply findCode_delete_same. }
  split; [done|]. intros now' guess' Hok'.
  apply verifyCode_ok_iff in Hok' as [_ (doc & Hdoc & _)]. congruence.
Qed.

(** A wrong guess for a live code: 400, and one more failed attempt. *)
Lemma verifyCode_wrong (codes : list EmailCode) (now : Z)
    (email guess : string) (doc : EmailCode) :
  findCode codes email = Some doc ->
  validVerifyBody isEmail email guess = true ->
  now <= expiresAt doc ->
  guess <> code doc ->
  findCode (verifyCode isEmail verifyRefusal codes now email guess).2 email
  = Some {| codeEmail := email; code := code doc; expiresAt := expiresAt doc;
            attempts := if 5 <=? attempts doc then attempts doc
                        else attempts doc + 1 |}.
Proof.
  intros Hdoc Hvalid Hlive Hwrong. unfold verifyCode.
  rewrite Hvalid, Hdoc. simpl.
  destruct (Z.ltb_spec (expiresAt doc) now); [lia|].
  destruct (findCode_Some _ _ _ Hdoc) as [Hemail _].
  destruct (5 <=? attempts doc); simpl.
  - rewrite Hdoc. f_equal. destruct doc; simpl in *; congruence.
  - assert (String.eqb (code doc) guess = false) as ->.
    { apply String.eqb_neq. congruence. }
    simpl. subst email.
    exact (findCode_upsert_same
             {| codeEmail := codeEmail doc; code := code doc;
                expiresAt := expiresAt doc;
                attempts := attempts doc + 1 |} codes).
Qed.

Lemma verifyAll_wrong (guesses : list (Z * string)) (codes : list EmailCode)
    (email : string) (doc : EmailCode) :
  findCode codes email = Some doc ->
  Forall (fun g => validVerifyBody isEmail email g.2 = true /\
                   g.1 <= expiresAt doc /\ g.2 <> code doc) guesses ->
  findCode (verifyAll isEmail verifyRefusal codes email guesses) email
  = Some {| codeEmail := email; code := code doc; expiresAt := expiresAt doc;
            attempts := Z.max (attempts doc)
                          (Z.min 5 (attempts doc + Z.of_nat (length guesses))) |}.
Proof.
  revert codes doc. induction guesses as [|g rest IH]; intros codes doc Hdoc Hall.
  - simpl. rewrite Hdoc. f_equal.
    destruct (findCode_Some _ _ _ Hdoc) as [Hemail _].
    destruct doc; simpl in *. f_equal; [done | lia].
  - apply Forall_cons in Hall as [(Hvalid & Hlive & Hwrong) Hall].
    change (verifyAll isEmail verifyRefusal codes email (g :: rest)) with
      (verifyAll isEmail verifyRefusal
         (verifyCode isEmail verifyRefusal codes g.1 email g.2).2 email rest).
    pose proof (verifyCode_wrong codes g.1 email g.2 doc Hdoc Hvalid Hlive Hwrong)
      as Hnext.
    rewrite (IH _ _ Hnext); [|exact Hall].
    cbn [code expiresAt attempts]. f_equal. f_equal.
    rewrite length_cons. destruct (Z.leb_spec 5 (attempts doc)); lia.
Qed.

(** Failed attempts lock a code, in the handler: take a stored code and a
    run of requests that reach the handler for its address, each with a
    well-formed wrong code and made
    before the code expires; when the failed attempts of the code and the
    requests of the run add to five or more, the next request made before
    the expiry is answered 429, whatever code it carries: the right one is
    refused as well, and the collection is left as it is. *)
Theorem wrong_guesses_lock_code (codes : list EmailCode) (email : string)
    (doc : EmailCode) (guesses : list (Z * string)) (now : Z)
    (guess : string) :
  findCode codes email = Some doc ->
  Forall (fun g => validVerifyBody isEmail email g.2 = true /\
                   g.1 <= expiresAt doc /\ g.2 <> code doc) guesses ->
  5 <= attempts doc + Z.of_nat (length guesses) ->
  now <= expiresAt doc ->
  validVerifyBody isEmail email guess = true ->
  let codes' := verifyAll isEmail verifyRefusal codes email guesses in
  verifyCode isEmail verifyRefusal codes' now email guess
  = (reply_error 429 "시도 횟수 초과", codes').
Proof.
  intros Hdoc Hall Hfive Hlive Hvalid codes'.
  pose proof (verifyAll_wrong guesses codes email doc Hdoc Hall) as Hfound.
  fold codes' in Hfound. unfold verifyCode. rewrite Hvalid, Hfound. simpl.
  destruct (Z.ltb_spec (expiresAt doc) now); [lia|].
  destruct (Z.leb_spec 5
              (Z.max (attempts doc)
                 (Z.min 5 (attempts doc + Z.of_nat (length guesses)))));
    [done | lia].
Qed.

(** The handler of [POST /send-code] with a well-formed address stores
    the code it drew for the address, with no failed attempt and an expiry ten minutes
    ahead, in place of the code the address had; it answers 200 exactly
    when the mail went out, and the code is stored also when it did not.
    Up to the expiry the drawn code is accepted by the handler of
    [POST /verify-code]; after it, no code is accepted for the address. *)
Theorem sent_code_verifies (codes : list EmailCode) (now : Z)
    (drawn : string) (sent : bool) (email : string) :
  NoDup (codeEmail <$> codes) ->
  isEmail email = true ->
  (4 <= String.length drawn <= 8)%nat ->
  let r := sendCode isEmail sendRefusal codes now drawn sent email in
  (r.1 = reply_ok tt <-> sent = true) /\
  findCode r.2 email
  = Some {| codeEmail := email; code := drawn;
            expiresAt := now + 600000; attempts := 0 |} /\
  NoDup (codeEmail <$> r.2) /\
  (forall other, other <> email -> findCode r.2 other = findCode codes other) /\
  (forall now', now' <= now + 600000 ->
     (verifyCode isEmail verifyRefusal r.2 now' email drawn).1 = reply_ok tt) /\
  (forall now' guess, now + 600000 < now' ->
     (verifyCode isEmail verifyRefusal r.2 now' email guess).1 <> reply_ok tt).
Proof.
  intros Hnd Hemail Hlen r.
  set (doc := {| codeEmail := email; code := drawn;
                 expiresAt := now + 600000; attempts := 0 |}).
  assert (r.2 = upsertCode doc codes) as Hstore.
  { subst r. unfold sendCode. rewrite Hemail. simpl. by destruct sent. }
  assert (findCode r.2 email = Some doc) as Hfound.
  { rewrite Hstore. apply (findCode_upsert_same doc codes). }
  split.
  { subst r. unfold sendCode. rewrite Hemail. simpl. by destruct sent. }
  split; [exact Hfound|].
  split; [rewrite Hstore; by apply upsertCode_NoDup|].
  split; [intros other Hne; rewrite Hstore; by apply findCode_upsert_other|].
  split.
  - intros now' Hnow. apply verifyCode_ok_iff. split.
    + unfold validVerifyBody. rewrite Hemail.
      rewrite !andb_true_iff, !Nat.leb_le. repeat split; try done; lia.
    + exists doc. simpl. repeat split; try done; lia.
  - intros now' guess Hlate Hok.
    apply verifyCode_ok_iff in Hok as [_ (d & Hd & Hlive & _)].
    rewrite Hfound in Hd. injection Hd as <-. simpl in Hlive. lia.
Qed.

End AccountProperties.

(** ** Accounts: sign-up *)

Lemma ones_snoc (s : string) (k : nat) :
  (s +:+ "1") +:+ ones k = s +:+ ones (S k).
Proof.
  forget_parameters. by rewrite string_app_assoc.
Qed.

Lemma append_eq_empty (s t : string) : s +:+ t = "" -> s = "".
Proof. forget_parameters. by destruct s. Qed.

(** The loop stops at the first candidate that is free, or when its fuel
    is spent. *)
Lemma pickUserId_spec (fuel : nat) (accounts : list Account)
    (candidate : string) (n : nat) :
  exists k, (k <= fuel)%nat /\
    pickUserId fuel accounts candidate n = (candidate +:+ ones k, (n + k)%nat) /\
    (forall j, (j < k)%nat ->
       userIdTaken accounts (candidate +:+ ones j) = true) /\
    ((k < fuel)%nat ->
       userIdTaken accounts (candidate +:+ ones k) = false).
Proof.
  forget_parameters.
  revert candidate n. induction fuel as [|fuel IH]; intros candidate n.
  - exists 0%nat. simpl. rewrite string_app_nil_r, Nat.add_0_r.
    repeat split; [lia | intros; lia | intros; lia].
  - simpl. destruct (userIdTaken accounts candidate) eqn:Htaken.
    + destruct (IH (candidate +:+ "1") (S n)) as (k & Hk & Hpick & Hbelow & Hfree).
      exists (S k). rewrite Hpick, ones_snoc.
      split; [lia|]. split; [f_equal; lia|]. split.
      * intros [|j] Hj; [by rewrite string_app_nil_r|].
        rewrite <- ones_snoc. apply Hbelow. lia.
      * intros Hlt. rewrite <- ones_snoc. apply Hfree. lia.
    + exists 0%nat. rewrite string_app_nil_r, Nat.add_0_r.
      repeat split; [lia | intros; lia | done].
Qed.

Lemma userIdTaken_false (accounts : list Account) (candidate : string) :
  userIdTaken accounts candidate = false <->
  candidate ∉ accountUserId <$> accounts.
Proof.
  forget_parameters.
  unfold userIdTaken. induction accounts as [|a rest IH].
  - split; [intros _; apply not_elem_of_nil | done].
  - rewrite fmap_cons, not_elem_of_cons. cbn [existsb].
    rewrite orb_false_iff, IH.
    destruct (String.eqb_spec (accountUserId a) candidate); split;
      intros [? ?]; split; congruence.
Qed.

Section SignupProperties.

Variable isEmail : string -> bool.
Variable bcryptHash : string -> string.
Variable signupRefusal : string -> string -> string -> string.
Variable validationError : Account -> string.

(** X25: [POST /signup] creates an account only under a user id that is
    free: the id is the trimmed id of the body followed by [k] characters
    [1], for the least [k] that gives an id no stored account has, and
    [k] is below 100.  The id, the address and the stored hash are not
    empty, the address of the account is the trimmed address of the body
    and no stored account had it, the stored password is the hash, and the
    account is added after the stored ones; so user ids and addresses
    that were pairwise different stay so.
    A request that is refused leaves the accounts as they are. *)
Theorem signup_picks_free_user_id (accounts : list Account) (newId : string)
    (userId password email : string) :
  let r := signup isEmail bcryptHash signupRefusal validationError accounts
             newId userId password email in
  (forall user, r.1 = reply_ok user ->
     r.2 = accounts ++ [user] /\
     (exists k, (k < 100)%nat /\
        accountUserId user = trim userId +:+ ones k /\
        forall j, (j < k)%nat ->
          trim userId +:+ ones j ∈ accountUserId <$> accounts) /\
     accountUserId user ∉ accountUserId <$> accounts /\
     accountUserId user <> "" /\
     accountEmail user = trim email /\
     accountEmail user <> "" /\
     accountEmail user ∉ accountEmail <$> accounts /\
     passwordHash user = bcryptHash password /\
     passwordHash user <> "" /\
     accountId user = newId /\
     (NoDup (accountUserId <$> accounts) -> NoDup (accountUserId <$> r.2)) /\
     (NoDup (accountEmail <$> accounts) -> NoDup (accountEmail <$> r.2))) /\
  ((forall user, r.1 <> reply_ok user) -> r.2 = accounts).
Proof.
  intros r. subst r. unfold signup.
  destruct (validSignup isEmail userId password email); cbn [negb]; [|by split].
  unfold truthy.
  destruct (String.eqb_spec (trim userId) "") as [Hempty|Hid]; cbn [negb];
    [by split|].
  destruct (existsb (fun a => String.eqb (accountEmail a) (trim email)) accounts)
    eqn:Hmail; [by split|].
  destruct (pickUserId_spec maxAttempts accounts (trim userId) 0)
    as (k & Hk & Hpick & Hbelow & Hfree).
  rewrite Hpick. rewrite Nat.add_0_l.
  destruct (Nat.leb_spec maxAttempts k) as [Hmax|Hlt]; [by split|].
  specialize (Hfree Hlt).
  destruct (String.eqb_spec (trim userId +:+ ones k) "") as [He|Hne]; cbn [negb].
  { by apply append_eq_empty in He. }
  assert (trim email ∉ accountEmail <$> accounts) as Hnew.
  { intros Hin. apply list_elem_of_fmap in Hin as (a & Ha & Hin).
    assert (existsb (fun a => String.eqb (accountEmail a) (trim email)) accounts
            = true) as Hex; [|congruence].
    apply existsb_exists. exists a. split; [by apply list_elem_of_In|].
    apply String.eqb_eq. congruence. }
  apply userIdTaken_false in Hfree.
  cbn [passwordHash accountEmail].
  destruct (String.eqb_spec (bcryptHash password) "") as [?|Hhash];
    cbn [negb orb]; [by split|].
  destruct (String.eqb_spec (trim email) "") as [?|Hmailne];
    cbn [negb orb]; [by split|].
  split; [|intros Hno; exfalso; by eapply Hno].
  intros user [= <-]. simpl.
  split; [done|]. split.
  { exists k. split; [exact Hlt|]. split; [done|].
    intros j Hj. specialize (Hbelow j Hj).
    destruct (decide (trim userId +:+ ones j ∈ accountUserId <$> accounts))
      as [|Hout]; [done|].
    apply userIdTaken_false in Hout. congruence. }
  repeat split; try done.
  - intros Hnd. rewrite fmap_app. simpl. apply NoDup_app.
    split; [done|]. split; [|apply NoDup_singleton].
    intros x Hx Hx'. apply list_elem_of_singleton in Hx'. by subst.
  - intros Hnd. rewrite fmap_app. simpl. apply NoDup_app.
    split; [done|]. split; [|apply NoDup_singleton].
    intros x Hx Hx'. apply list_elem_of_singleton in Hx'. by subst.
Qed.

End SignupProperties.

(** ** The chat router *)

Lemma findRoomById_Some (rooms : list ChatRoom) (id : string) (r : ChatRoom) :
  findRoomById rooms id = Some r -> room_id r = id /\ r ∈ rooms.
Proof.
  forget_parameters.
  unfold findRoomById. intros H. apply find_some in H as [Hin Heq].
  split; [by apply String.eqb_eq | by apply list_elem_of_In].
Qed.

Lemma findRoomById_save_same (room old : ChatRoom) (rooms : list ChatRoom) :
  findRoomById rooms (room_id room) = Some old ->
  findRoomById (saveRoom room rooms) (room_id room) = Some room.
Proof.
  forget_parameters.
  unfold findRoomById. induction rooms as [|r rest IH]; simpl; [done|].
  destruct (String.eqb_spec (room_id r) (room_id room)) as [Heq|Hne]; simpl.
  - intros _. by rewrite String.eqb_refl.
  - apply String.eqb_neq in Hne as ->. exact IH.
Qed.

Lemma findRoomById_save_other (room : ChatRoom) (rooms : list ChatRoom)
    (id : string) :
  id <> room_id room ->
  findRoomById (saveRoom room rooms) id = findRoomById rooms id.
Proof.
  forget_parameters.
  intros Hne. unfold findRoomById. induction rooms as [|r rest IH]; simpl; [done|].
  destruct (String.eqb_spec (room_id r) (room_id room)) as [Heq|Hr]; simpl.
  - rewrite Heq.
    assert (String.eqb (room_id room) id = false) as ->; [|done].
    apply String.eqb_neq. congruence.
  - by rewrite IH.
Qed.

Lemma saveRoom_ids (room : ChatRoom) (rooms : list ChatRoom) :
  map room_id (saveRoom room rooms) = map room_id rooms.
Proof.
  forget_parameters.
  induction rooms as [|r rest IH]; simpl; [done|].
  destruct (String.eqb_spec (room_id r) (room_id room)) as [Heq|Hr]; simpl.
  - by rewrite Heq.
  - by rewrite IH.
Qed.

Lemma isParticipant_true (room : ChatRoom) (uid : string) :
  isParticipant room uid = true <-> buyer room = uid \/ roomSeller room = uid.
Proof.
  forget_parameters.
  unfold isParticipant. rewrite orb_true_iff, !String.eqb_eq. done.
Qed.

Lemma findRoom_Some (rooms : list ChatRoom) (product b : string)
    (r : ChatRoom) :
  findRoom rooms product b = Some r ->
  r ∈ rooms /\ roomProduct r = product /\ buyer r = b.
Proof.
  forget_parameters.
  unfold findRoom. intros H. apply find_some in H as [Hin Heq].
  apply andb_true_iff in Heq as [?%String.eqb_eq ?%String.eqb_eq].
  split; [by apply list_elem_of_In | done].
Qed.

Lemma findRoom_None (rooms : list ChatRoom) (product b : string) :
  findRoom rooms product b = None ->
  (product, b) ∉ (fun r => (roomProduct r, buyer r)) <$> rooms.
Proof.
  forget_parameters.
  unfold findRoom. intros H Hin.
  apply list_elem_of_fmap in Hin as (r & Heq & Hin).
  apply list_elem_of_In in Hin.
  pose proof (find_none _ _ H r Hin) as Hf. simpl in Hf.
  injection Heq as -> ->. by rewrite !String.eqb_refl in Hf.
Qed.

Lemma findRoom_app (rooms : list ChatRoom) (room : ChatRoom) :
  findRoom rooms (roomProduct room) (buyer room) = None ->
  findRoom (rooms ++ [room]) (roomProduct room) (buyer room) = Some room.
Proof.
  forget_parameters.
  unfold findRoom. induction rooms as [|r rest IH]; simpl.
  - by rewrite !String.eqb_refl.
  - destruct (String.eqb (roomProduct r) (roomProduct room)
              && String.eqb (buyer r) (buyer room)); [done|]. exact IH.
Qed.

Lemma findOwner_Some (owners : list ProductOwner) (id : string)
    (p : ProductOwner) :
  findOwner owners id = Some p -> owned_id p = id.
Proof.
  forget_parameters.
  unfold findOwner. intros H. apply find_some in H as [_ Heq].
  by apply String.eqb_eq.
Qed.

#[local] Existing Instance roomNewerFirst_dec.

#[local] Instance roomNewerFirst_total : Total roomNewerFirst.
Proof. intros a b. unfold roomNewerFirst. lia. Qed.

#[local] Instance roomNewerFirst_trans : Transitive roomNewerFirst.
Proof. intros a b c. unfold roomNewerFirst. lia. Qed.

Section ChatProperties.

Variable isValidObjectId : string -> bool.
Variable messageRefusal : string -> string.

(** X26: the rooms are read by their participants only.
    [GET /room/:roomId] answers with a room exactly when the requester
    is identified, the identity of the room is well formed, the room is
    stored and the requester is its buyer or its seller.  [GET /rooms]
    answers with a list only to an identified requester; the list holds
    exactly the stored rooms in which the requester is the buyer or the
    seller, of the listing asked for when the query names one, and the
    room updated last comes first. *)
Theorem rooms_are_read_by_participants (rooms : list ChatRoom)
    (user : option string) (roomId : string) (productId : option string) :
  (forall r, getRoom isValidObjectId rooms user roomId = reply_ok r <->
     exists uid, user = Some uid /\ isValidObjectId roomId = true /\
       findRoomById rooms roomId = Some r /\
       (buyer r = uid \/ roomSeller r = uid)) /\
  (forall page, getRooms isValidObjectId rooms user productId = reply_ok page ->
     exists uid, user = Some uid /\
       StronglySorted roomNewerFirst page /\
       forall r, r ∈ page <->
         r ∈ rooms /\ (buyer r = uid \/ roomSeller r = uid) /\
         (truthy productId = true -> Some (roomProduct r) = productId)).
Proof.
  split.
  - intros r. unfold getRoom. destruct user as [uid|].
    + destruct (isValidObjectId roomId); simpl.
      * destruct (findRoomById rooms roomId) as [room|] eqn:Hroom.
        -- destruct (isParticipant room uid) eqn:Hp; simpl.
           ++ apply isParticipant_true in Hp. split.
              ** intros [= <-]. exists uid. done.
              ** intros (uid' & [= <-] & _ & [= <-] & _). done.
           ++ split; [done|]. intros (uid' & [= <-] & _ & [= <-] & Hb).
              apply isParticipant_true in Hb. congruence.
        -- split; [done|]. by intros (uid' & _ & _ & ? & _).
      * split; [done|]. by intros (uid' & _ & ? & _).
    + split; [done|]. by intros (uid' & ? & _).
  - intros page. unfold getRooms. destruct user as [uid|]; [|done].
    destruct (negb (isValidObjectId uid)
              || truthy productId
                 && negb (isValidObjectId (default "" productId)));
      [done|].
    intros [= <-]. exists uid. split; [done|].
    split; [apply (StronglySorted_merge_sort roomNewerFirst)|].
    intros r. rewrite merge_sort_Permutation.
    rewrite list_elem_of_In, filter_In, <- list_elem_of_In.
    rewrite andb_true_iff, isParticipant_true, orb_true_iff, negb_true_iff.
    rewrite String.eqb_eq.
    destruct productId as [p|]; simpl.
    + destruct (String.eqb p ""); simpl.
      * split; [intros (? & ? & _); done | intros (? & ? & _)].
        split; [done|]. split; [done|]. by left.
      * split.
        -- intros (? & ? & [?|?]); [done|]. repeat split; try done. congruence.
        -- intros (? & ? & Hp). split; [done|]. split; [done|]. right.
           specialize (Hp eq_refl). congruence.
    + split; [intros (? & ? & _); done | intros (? & ? & _)].
      split; [done|]. split; [done|]. by left.
Qed.

(** X27: a message enters a room through its participants only, and at
    the end.  An accepted message is written by the requester, who is
    the buyer or the seller of the room; its text is the trimmed text of
    the body and is not empty; the room keeps its identity, listing,
    buyer and seller and the messages it had, in their order, followed
    by the new one.  The other rooms are as before, and so is every room
    when the route answers anything else.  A requester who is neither
    buyer nor seller gets 403; a text of white space passes the parser
    and is refused by the save, with 500. *)
Theorem message_is_appended_by_participant (rooms : list ChatRoom)
    (now savedAt : Z) (newId : string) (user : option string)
    (roomId body : string) :
  let result := postMessage isValidObjectId messageRefusal rooms now savedAt
                  newId user roomId body in
  (forall m r, result.1 = reply_ok (m, r) ->
     exists uid room, user = Some uid /\
       findRoomById rooms roomId = Some room /\
       (buyer room = uid \/ roomSeller room = uid) /\
       m = mkChatMessage newId uid (trim body) now /\
       text m <> "" /\
       messages r = messages room ++ [m] /\
       (room_id r = room_id room /\ roomProduct r = roomProduct room /\
        buyer r = buyer room /\ roomSeller r = roomSeller room) /\
       updatedAt r = savedAt /\
       findRoomById result.2 roomId = Some r) /\
  ((forall m r, result.1 <> reply_ok (m, r)) -> result.2 = rooms) /\
  (forall other, other <> roomId ->
     findRoomById result.2 other = findRoomById rooms other) /\
  map room_id result.2 = map room_id rooms /\
  (forall uid room, user = Some uid ->
     isValidObjectId roomId = true ->
     (1 <= String.length body <= 500)%nat ->
     findRoomById rooms roomId = Some room ->
     (isParticipant room uid = false ->
      result.1 = reply_error 403 "access_denied") /\
     (isParticipant room uid = true -> isValidObjectId uid = true ->
      trim body = "" ->
      result.1
      = reply_error 500 "메시지를 전송하는 중 오류가 발생했습니다.")).
Proof.
  intros result. subst result. unfold postMessage.
  destruct user as [uid|]; [|by repeat split].
  destruct (isValidObjectId roomId) eqn:Hvalid; cbn [negb];
    [|repeat split; try done; intros; congruence].
  destruct ((1 <=? String.length body)%nat && (String.length body <=? 500)%nat)
    eqn:Hlen; cbn [negb].
  2:{ split; [done|]. split; [done|]. split; [done|]. split; [done|].
      intros uid' room _ _ [H1 H2]. exfalso.
      apply andb_false_iff in Hlen as [Hl|Hl]; apply Nat.leb_gt in Hl; lia. }
  destruct (findRoomById rooms roomId) as [room|] eqn:Hroom;
    [|repeat split; try done; intros; congruence].
  destruct (findRoomById_Some _ _ _ Hroom) as [Hid _].
  destruct (isParticipant room uid) eqn:Hp; cbn [negb].
  2:{ repeat split; try done; intros; congruence. }
  destruct (isValidObjectId uid) eqn:Huid; cbn [negb].
  2:{ repeat split; try done; intros; congruence. }
  cbn [text]. unfold truthy.
  destruct (String.eqb_spec (trim body) "") as [Hempty|Htext]; cbn [negb].
  { repeat split; try done; intros; congruence. }
  set (message := mkChatMessage newId uid (trim body) now).
  set (room' := mkChatRoom (room_id room) (roomProduct room) (buyer room)
                  (roomSeller room) (messages room ++ [message]) savedAt).
  cbn [fst snd].
  split.
  { intros m r [= <- <-]. exists uid, room.
    split; [done|]. split; [done|].
    split; [by apply isParticipant_true|].
    split; [done|]. split; [done|]. split; [done|]. split; [done|].
    split; [done|].
    rewrite <- Hid. apply (findRoomById_save_same room' room).
    simpl. by rewrite Hid. }
  split.
  { intros Hno. exfalso. by eapply Hno. }
  split.
  { intros other Hne. apply findRoomById_save_other. simpl. congruence. }
  split; [apply saveRoom_ids|].
  intros uid' room0 [= <-] _ _ [= <-]. split; [congruence|].
  intros _ _ ?. congruence.
Qed.

(** X28: [POST /open] keeps one room for a listing and a buyer.  On
    rooms in which no listing and buyer occur twice, the route leaves
    such rooms; it adds a room only for a requester who is not the
    seller of the listing and has no room on it yet, and the room added
    is empty, on that listing, with the requester as buyer and the
    seller of the listing as seller.  The room it answers with is stored
    and belongs to the listing asked for, and a requester who is not the
    seller is its buyer.  Asking again, at any later time, gives the same
    room and adds nothing.  Every other answer leaves the rooms alone. *)
Theorem open_room_once (owners : list ProductOwner) (rooms : list ChatRoom)
    (now : Z) (newId : string) (user : option string) (productId : string)
    (buyerId : option string) :
  NoDup ((fun r => (roomProduct r, buyer r)) <$> rooms) ->
  let result := openRoom isValidObjectId owners rooms now newId user
                  productId buyerId in
  NoDup ((fun r => (roomProduct r, buyer r)) <$> result.2) /\
  (result.2 = rooms \/
   exists uid product,
     user = Some uid /\ findOwner owners productId = Some product /\
     ownedSeller product <> uid /\
     findRoom rooms productId uid = None /\
     result.2
     = rooms ++ [mkChatRoom newId productId uid (ownedSeller product) []
                   now]) /\
  (forall r, result.1 = reply_ok r ->
     r ∈ result.2 /\ roomProduct r = productId /\
     (exists uid product,
        user = Some uid /\ findOwner owners productId = Some product /\
        (ownedSeller product = uid \/ buyer r = uid)) /\
     forall now' newId',
       openRoom isValidObjectId owners result.2 now' newId' user productId
         buyerId
       = (reply_ok r, result.2)) /\
  ((forall r, result.1 <> reply_ok r) -> result.2 = rooms).
Proof.
  intros Hnd result. subst result. unfold openRoom.
  destruct user as [uid|]; [|by repeat split; try done; left].
  destruct (isValidObjectId productId) eqn:Hvalid; cbn [negb];
    [|by repeat split; try done; left].
  destruct (findOwner owners productId) as [product|] eqn:Hprod;
    [|by repeat split; try done; left].
  pose proof (findOwner_Some _ _ _ Hprod) as Hpid.
  destruct (String.eqb_spec (ownedSeller product) uid) as [Hseller|Hother];
    cbn [negb andb].
  - (* the seller asks *)
    destruct (truthy buyerId) eqn:Hgiven.
    + destruct (isValidObjectId (default "" buyerId)) eqn:Hb;
        [|by repeat split; try done; left].
      destruct buyerId as [b|]; [|done]. cbn [default] in *.
      destruct (findRoom rooms (owned_id product) b) as [room|] eqn:Hroom.
      * cbn [fst snd]. split; [done|]. split; [by left|]. split; [|done].
        intros r [= <-]. apply findRoom_Some in Hroom as Hr.
        destruct Hr as (Hin & Hp & _).
        split; [done|]. split; [congruence|].
        split; [exists uid, product; split; [done|]; split; [done|]; by left|].
        intros now' newId'. by rewrite Hroom.
      * destruct (head (merge_sort roomNewerFirst
                          (List.filter
                             (fun r => String.eqb (roomProduct r)
                                         (owned_id product)) rooms)))
          as [latest|] eqn:Hlatest;
          [|by repeat split; try done; left].
        cbn [fst snd]. split; [done|]. split; [by left|]. split; [|done].
        intros r [= <-].
        assert (Hin : latest ∈ merge_sort roomNewerFirst
                        (List.filter
                           (fun r => String.eqb (roomProduct r)
                                       (owned_id product)) rooms)).
        { destruct (merge_sort _ _) as [|x rest]; [done|].
          injection Hlatest as ->. apply list_elem_of_here. }
        rewrite merge_sort_Permutation in Hin.
        apply list_elem_of_In, filter_In in Hin as [Hin Hp].
        apply String.eqb_eq in Hp. apply list_elem_of_In in Hin.
        split; [done|]. split; [congruence|].
        split; [exists uid, product; split; [done|]; split; [done|]; by left|].
        intros now' newId'. by rewrite Hroom, Hlatest.
    + destruct (head (merge_sort roomNewerFirst
                        (List.filter
                           (fun r => String.eqb (roomProduct r)
                                       (owned_id product)) rooms)))
        as [latest|] eqn:Hlatest;
        [|by repeat split; try done; left].
      cbn [fst snd]. split; [done|]. split; [by left|]. split; [|done].
      intros r [= <-].
      assert (Hin : latest ∈ merge_sort roomNewerFirst
                      (List.filter
                         (fun r => String.eqb (roomProduct r)
                                     (owned_id product)) rooms)).
      { destruct (merge_sort _ _) as [|x rest]; [done|].
        injection Hlatest as ->. apply list_elem_of_here. }
      rewrite merge_sort_Permutation in Hin.
      apply list_elem_of_In, filter_In in Hin as [Hin Hp].
      apply String.eqb_eq in Hp. apply list_elem_of_In in Hin.
      split; [done|]. split; [congruence|].
      split; [exists uid, product; split; [done|]; split; [done|]; by left|].
      intros now' newId'. by rewrite Hlatest.
  - (* someone else asks *)
    destruct (truthy buyerId && negb (String.eqb (default "" buyerId) uid))
      eqn:Hbad; [by repeat split; try done; left|].
    destruct (isValidObjectId uid) eqn:Huid;
      [|by repeat split; try done; left].
    destruct (findRoom rooms (owned_id product) uid) as [room|] eqn:Hroom.
    + cbn [fst snd]. split; [done|]. split; [by left|]. split; [|done].
      intros r [= <-]. apply findRoom_Some in Hroom as Hr.
      destruct Hr as (Hin & Hp & Hb).
      split; [done|]. split; [congruence|].
      split; [exists uid, product; split; [done|]; split; [done|]; by right|].
      intros now' newId'. by rewrite Hroom.
    + set (room := mkChatRoom newId (owned_id product) uid
                     (ownedSeller product) [] now).
      cbn [fst snd].
      assert (Hfound : findRoom (rooms ++ [room]) (owned_id product) uid
                       = Some room)
        by apply (findRoom_app rooms room Hroom).
      split.
      { rewrite fmap_app. apply NoDup_app. split; [done|].
        split; [|apply NoDup_singleton].
        intros x Hx Hx'. apply list_elem_of_singleton in Hx'. subst x.
        by apply findRoom_None in Hroom. }
      split.
      { right. exists uid, product. rewrite <- Hpid. done. }
      split; [|intros Hno; exfalso; by eapply Hno].
      intros r [= <-].
      split; [apply elem_of_app; right; apply list_elem_of_here|].
      split; [done|].
      split; [exists uid, product; split; [done|]; split; [done|]; by right|].
      intros now' newId'. by rewrite Hfound.
Qed.

End ChatProperties.

(** ** Accounts: the password reset *)

Lemma saveAccount_identities (user : Account) (accounts : list Account) :
  accountUserId user
  = default (accountUserId user)
      (accountUserId <$>
         List.find (fun a => String.eqb (accountId a) (accountId user))
           accounts) ->
  accountEmail user
  = default (accountEmail user)
      (accountEmail <$>
         List.find (fun a => String.eqb (accountId a) (accountId user))
           accounts) ->
  map (fun a => (accountId a, accountUserId a, accountEmail a))
    (saveAccount user accounts)
  = map (fun a => (accountId a, accountUserId a, accountEmail a)) accounts.
Proof.
  forget_parameters.
  induction accounts as [|a rest IH]; simpl; [done|].
  destruct (String.eqb_spec (accountId a) (accountId user)) as [Heq|Hne];
    simpl.
  - intros -> ->. by rewrite Heq.
  - intros H1 H2. by rewrite IH.
Qed.

Lemma findAccountByEmail_Some (accounts : list Account) (email : string)
    (a : Account) :
  findAccountByEmail accounts email = Some a ->
  accountEmail a = email /\ a ∈ accounts.
Proof.
  forget_parameters.
  unfold findAccountByEmail. intros H. apply find_some in H as [Hin Heq].
  split; [by apply String.eqb_eq | by apply list_elem_of_In].
Qed.

Lemma find_by_id_of_member (accounts : list Account) (a : Account) :
  NoDup (accountId <$> accounts) -> a ∈ accounts ->
  List.find (fun x => String.eqb (accountId x) (accountId a)) accounts
  = Some a.
Proof.
  forget_parameters.
  induction accounts as [|x rest IH]; intros Hnd Hin.
  - by apply elem_of_nil in Hin.
  - rewrite fmap_cons in Hnd. apply NoDup_cons in Hnd as [Hx Hrest].
    simpl. apply elem_of_cons in Hin as [->|Hin].
    + by rewrite String.eqb_refl.
    + destruct (String.eqb_spec (accountId x) (accountId a)) as [Heq|Hne].
      * exfalso. apply Hx. rewrite Heq.
        apply list_elem_of_fmap. by exists a.
      * by apply IH.
Qed.

Lemma find_saveAccount_same (user old : Account) (accounts : list Account) :
  List.find (fun x => String.eqb (accountId x) (accountId user)) accounts
  = Some old ->
  List.find (fun x => String.eqb (accountId x) (accountId user))
    (saveAccount user accounts)
  = Some user.
Proof.
  forget_parameters.
  induction accounts as [|x rest IH]; simpl; [done|].
  destruct (String.eqb_spec (accountId x) (accountId user)) as [Heq|Hne];
    simpl.
  - intros _. by rewrite String.eqb_refl.
  - apply String.eqb_neq in Hne as ->. exact IH.
Qed.

Lemma saveAccount_others (user : Account) (accounts : list Account)
    (a : Account) :
  a ∈ saveAccount user accounts -> a = user \/ a ∈ accounts.
Proof.
  forget_parameters.
  induction accounts as [|x rest IH]; simpl; [by right|].
  destruct (String.eqb (accountId x) (accountId user)).
  - rewrite !elem_of_cons. tauto.
  - rewrite !elem_of_cons. intros [->|Hin]; [by right; left|].
    destruct (IH Hin); [by left | by right; right].
Qed.

Section PasswordResetProperties.

Variable isEmail : string -> bool.
Variable bcryptHash : string -> string.
Variable resetRefusal : string -> string -> string -> string.
Variable validationError : Account -> string.
Variable verifyRefusal : string -> string -> string.

(** In the handler, a password changes only against a live code for the
    address of the account.  With accounts of different identities and
    one code for an address at most, the handler of
    [POST /find-password/reset] answers 200 exactly
    when the body passes the parser, the address has a stored code that
    has not expired, has fewer than five failed attempts and equals the
    code of the body, an account has the address, and the hash is not
    empty.  Then the first account with the address gets the hash of the
    new password and keeps its identity, user id and address; the code
    is gone.  Whatever the answer, no account is added or removed and no
    user id or address changes; without a 200 no account changes at all.
    On a body that passes the parser, for an address that has an account
    and with a hash that is not empty, the route answers and leaves the
    codes exactly as the handler of [POST /verify-code] does for the same
    address and code: the two read one collection of codes, whichever
    route stored the code. *)
Theorem reset_needs_live_code (codes : list EmailCode)
    (accounts : list Account) (now : Z) (email guess newPassword : string) :
  NoDup (codeEmail <$> codes) ->
  NoDup (accountId <$> accounts) ->
  let result := resetPassword isEmail bcryptHash resetRefusal validationError
                  codes accounts now email guess newPassword in
  (result.1.1 = reply_ok tt <->
     validResetBody isEmail email guess newPassword = true /\
     (exists doc, findCode codes email = Some doc /\ now <= expiresAt doc /\
                  attempts doc < 5 /\ code doc = guess) /\
     (exists user, findAccountByEmail accounts email = Some user) /\
     bcryptHash newPassword <> "") /\
  (result.1.1 = reply_ok tt ->
     exists user,
       findAccountByEmail accounts email = Some user /\
       List.find (fun a => String.eqb (accountId a) (accountId user)) result.2
       = Some (mkAccount (accountId user) (accountUserId user)
                 (accountEmail user) (bcryptHash newPassword)) /\
       (forall a, a ∈ result.2 ->
          a ∈ accounts \/ accountId a = accountId user) /\
       findCode result.1.2 email = None) /\
  (result.1.1 <> reply_ok tt -> result.2 = accounts) /\
  map (fun a => (accountId a, accountUserId a, accountEmail a)) result.2
  = map (fun a => (accountId a, accountUserId a, accountEmail a)) accounts /\
  (validResetBody isEmail email guess newPassword = true ->
   (exists user, findAccountByEmail accounts email = Some user) ->
   bcryptHash newPassword <> "" ->
   result.1
   = verifyCode isEmail verifyRefusal codes now email guess).
Proof.
  forget_parameters.
  intros Hcodes Hids result. subst result. unfold resetPassword, verifyCode.
  assert (Hbody : validResetBody isEmail email guess newPassword = true ->
                  validVerifyBody isEmail email guess = true).
  { unfold validResetBody, validVerifyBody.
    rewrite !andb_true_iff. tauto. }
  destruct (validResetBody isEmail email guess newPassword) eqn:Hvalid;
    cbn [negb fst snd].
  2:{ split; [split; [done | by intros [? _]]|]. by repeat split. }
  rewrite (Hbody eq_refl). cbn [negb].
  destruct (findCode codes email) as [doc|] eqn:Hdoc.
  2:{ split; [split; [done | by intros (_ & (? & ? & _) & _)]|].
      by repeat split. }
  destruct (Z.ltb_spec (expiresAt doc) now) as [Hlate|Hlive]; cbn [fst snd].
  { split; [split; [done | intros (_ & (d & [= <-] & ? & _) & _); lia]|].
    by repeat split. }
  destruct (Z.leb_spec 5 (attempts doc)) as [Hlocked|Hfew]; cbn [fst snd].
  { split; [split; [done | intros (_ & (d & [= <-] & ? & ? & _) & _); lia]|].
    by repeat split. }
  destruct (String.eqb_spec (code doc) guess) as [Hcode|Hwrong];
    cbn [negb fst snd].
  2:{ split; [split; [done | intros (_ & (d & [= <-] & ? & ? & ?) & _); done]|].
      by repeat split. }
  destruct (findAccountByEmail accounts email) as [user|] eqn:Huser.
  2:{ split; [split; [done | by intros (_ & _ & (? & ?) & _)]|].
      split; [done|]. split; [done|]. split; [done|].
      by intros _ (? & ?). }
  cbn [passwordHash]. unfold truthy.
  destruct (String.eqb_spec (bcryptHash newPassword) "") as [Hempty|Hhash];
    cbn [negb fst snd].
  { split; [split; [done | by intros (_ & _ & _ & ?)]|].
    split; [done|]. split; [done|]. split; [done|]. by intros _ _ ?. }
  set (user' := mkAccount (accountId user) (accountUserId user)
                  (accountEmail user) (bcryptHash newPassword)).
  destruct (findAccountByEmail_Some _ _ _ Huser) as [Hmail Hin].
  pose proof (find_by_id_of_member accounts user Hids Hin) as Hfind.
  split.
  { split; [|done]. intros _. split; [done|].
    split; [by exists doc|]. split; [by exists user | done]. }
  split.
  { intros _. exists user. split; [done|]. split.
    - apply (find_saveAccount_same user' user). exact Hfind.
    - split.
      + intros a Ha. apply saveAccount_others in Ha as [->|Ha];
          [by right | by left].
      + by apply findCode_delete_same. }
  split; [done|].
  split; [|done].
  apply saveAccount_identities; cbn [accountId accountUserId accountEmail user'];
    by rewrite Hfind.
Qed.

End PasswordResetProperties.

(** ** The discovery routes as handlers *)

Lemma findRecent_top (store : list Product) (f : Filter) (n : nat) :
  exists rest,
    findRecent store f n ++ rest ≡ₚ List.filter (matchesFilter f) store /\
    (rest <> [] -> length (findRecent store f n) = n) /\
    (forall a b, a ∈ findRecent store f n -> b ∈ rest -> newerFirst a b).
Proof.
  unfold findRecent.
  set (sorted := merge_sort newerFirst (List.filter (matchesFilter f) store)).
  exists (drop n sorted). split; [|split].
  - rewrite take_drop. apply merge_sort_Permutation.
  - intros Hrest. rewrite length_take.
    destruct (decide (n <= length sorted)%nat) as [|Hlt]; [lia|].
    rewrite drop_ge in Hrest by lia. done.
  - intros a b Ha Hb.
    apply (StronglySorted_app_1_elem_of newerFirst (take n sorted)
             (drop n sorted)); [|done..].
    rewrite take_drop. apply (StronglySorted_merge_sort newerFirst).
Qed.

Lemma NoDup_fmap_eq {A B} (f : A -> B) (l : list A) (x y : A) :
  NoDup (f <$> l) -> x ∈ l -> y ∈ l -> f x = f y -> x = y.
Proof.
  forget_parameters.
  induction l as [|a l IH]; intros Hnd Hx Hy Heq.
  - by apply elem_of_nil in Hx.
  - rewrite fmap_cons in Hnd. apply NoDup_cons in Hnd as [Ha Hl].
    apply elem_of_cons in Hx as [->|Hx]; apply elem_of_cons in Hy as [->|Hy].
    + done.
    + exfalso. apply Ha. rewrite Heq. apply list_elem_of_fmap. by exists y.
    + exfalso. apply Ha. rewrite <- Heq. apply list_elem_of_fmap. by exists x.
    + by apply IH.
Qed.

Lemma hydrate_ids (l : list Product) : _id <$> (hydrate <$> l) = _id <$> l.
Proof.
  forget_parameters.
  rewrite <- list_fmap_compose. by apply list_fmap_ext.
Qed.

Section HandlerProperties.

Variable regexCompiles : string -> bool.

Lemma filterAccepted_keyword (keyword : string) :
  filterAccepted regexCompiles (keywordFilter keyword) = true <->
  keyword = "" \/ regexCompiles keyword = true.
Proof.
  unfold filterAccepted, keywordFilter. cbn [filterTitle truthy].
  destruct (String.eqb_spec keyword "") as [->|Hne]; cbn [negb].
  - split; [by left | done].
  - split; [by right | by intros [?|?]].
Qed.

Lemma filterAccepted_refused (keyword : string) :
  filterAccepted regexCompiles (keywordFilter keyword) = false ->
  truthy (Some keyword) = true /\ regexCompiles keyword = false.
Proof.
  unfold filterAccepted, keywordFilter. cbn [filterTitle truthy].
  by destruct (String.eqb_spec keyword "") as [->|Hne]; cbn [negb].
Qed.

Lemma productsHandler_default (store : list Product) (q : option string) :
  productsHandler regexCompiles store q None None
  = if filterAccepted regexCompiles (keywordFilter (keywordOf q))
    then Some (json_products
                 (hydrate <$> findRecent store (keywordFilter (keywordOf q))
                                200))
    else None.
Proof.
  unfold productsHandler, findRecentHydrated.
  rewrite listFilter_keywordFilter. cbn [bool_decide decide_rel].
  rewrite bool_decide_eq_false_2 by done.
  by destruct (filterAccepted _ _).
Qed.

Lemma recommendHandler_refused (users : list UserDoc) (store : list Product)
    (user q : option string) :
  filterAccepted regexCompiles (keywordFilter (keywordOf q)) = false ->
  recommendHandler regexCompiles users store user q = None.
Proof.
  intros Hno. destruct (filterAccepted_refused _ Hno) as [Hk _].
  unfold recommendHandler, fetchDefaultListHandler, findRecentHydrated,
    findRecentLean.
  destruct user as [uid|]; rewrite Hno, Hk; cbn [negb];
    [rewrite !andb_false_r|]; done.
Qed.

Lemma recommendHandler_accepted (users : list UserDoc) (store : list Product)
    (user q : option string) :
  filterAccepted regexCompiles (keywordFilter (keywordOf q)) = true ->
  let keyword := keywordOf q in
  let page := findRecent store (keywordFilter keyword) 200 in
  recommendHandler regexCompiles users store user q
  = Some (json_products
            match user with
            | None => hydrate <$> page
            | Some uid =>
                if (length (primarySources users store uid) =? 0)%nat
                   && (length (secondarySources users store uid) =? 0)%nat
                   && negb (truthy (Some keyword))
                then hydrate <$> page
                else if (length (recommendMerged users store uid keyword)
                         =? 0)%nat
                then hydrate <$> page
                else recommendMerged users store uid keyword
            end).
Proof.
  intros Hyes keyword page. subst keyword page.
  unfold recommendHandler, fetchDefaultListHandler, findRecentHydrated,
    findRecentLean, limit.
  rewrite Hyes. cbn [mbind option_bind].
  destruct user as [uid|].
  - change (mergeTiers
              (scoreCandidates
                 (sourceCategories (primarySources users store uid))
                 (sourceKeywords (primarySources users store uid)
                    (keywordOf q))
                 (sourceCategories (secondarySources users store uid))
                 (sourceKeywords (secondarySources users store uid)
                    (keywordOf q))
                 (sourceIds (primarySources users store uid)
                    (secondarySources users store uid))
                 (findRecent store (keywordFilter (keywordOf q)) (200 * 2))))
      with (recommendMerged users store uid (keywordOf q)).
    destruct ((length (primarySources users store uid) =? 0)%nat
              && (length (secondarySources users store uid) =? 0)%nat
              && negb (truthy (Some (keywordOf q)))); [done|].
    by destruct (length (recommendMerged users store uid (keywordOf q))
                 =? 0)%nat.
  - by destruct (negb (truthy (Some (keywordOf q)))).
Qed.

(** When the store takes the keyword, the handlers answer the listings
    [getRecommend] and [getProducts] give, in their order: as they are
    for the merged tiers and for the popular list, hydrated for the
    default list. *)
Lemma recommendHandler_getRecommend (users : list UserDoc)
    (store : list Product) (user q : option string) :
  filterAccepted regexCompiles (keywordFilter (keywordOf q)) = true ->
  exists answered listed,
    recommendHandler regexCompiles users store user q
    = Some (json_products answered) /\
    getRecommend users store user q = json_products listed /\
    (answered = listed \/ answered = hydrate <$> listed).
Proof.
  intros Ha. rewrite (recommendHandler_accepted users store user q Ha).
  unfold getRecommend, fetchDefaultList, limit.
  destruct user as [uid|].
  - destruct (_ && _); [eexists _, _; split; [done|]; split; [done|]; by right|].
    destruct (_ =? _)%nat; eexists _, _; (split; [done|]); (split; [done|]);
      [by right | by left].
  - destruct (negb _); eexists _, _; (split; [done|]); (split; [done|]);
      by right.
Qed.

Lemma productsHandler_getProducts (store : list Product)
    (q category sort : option string) :
  filterAccepted regexCompiles (listFilter q category) = true ->
  productsHandler regexCompiles store q category sort
  = Some match getProducts store q category sort with
         | json_products listed => json_products (hydrate <$> listed)
         | answer => answer
         end.
Proof.
  intros Ha.
  unfold productsHandler, getProducts, aggregatePopular, findRecentHydrated.
  rewrite Ha. by destruct (bool_decide (sort = Some "popular")).
Qed.

(** C5 (as the code has it): the recommendation route answers exactly
    the requests whose keyword, trimmed, is empty or a pattern the store
    takes as a regular expression, and it answers them with a list of
    listings; a keyword the store refuses makes the query fail, and the
    handler, which catches nothing, answers nothing.  For an identified
    user the route gives what the listing route gives in its default mode
    for the same query, both when the user has no liked listing, no
    shared and no viewed history and gave no keyword, and when the merged
    tiers are empty; and when the store takes the keyword this is the
    default list: at most 200 hydrated listings, most recent first, that
    pass the keyword filter, all of those when there are at most 200 and
    otherwise 200 of them with no listing left out that is more recent
    than one of the list. *)
Theorem recommend_answers_or_query_fails (users : list UserDoc)
    (store : list Product) (user q : option string) :
  let keyword := keywordOf q in
  let accepted := filterAccepted regexCompiles (keywordFilter keyword) in
  (accepted = true <-> keyword = "" \/ regexCompiles keyword = true) /\
  (accepted = true <->
   exists products,
     recommendHandler regexCompiles users store user q
     = Some (json_products products)) /\
  (accepted = false <->
   recommendHandler regexCompiles users store user q = None) /\
  forall uid, user = Some uid ->
    ((likedListings store uid = [] /\ sharedHistory users uid = [] /\
      viewedHistory users uid = [] /\ keyword = "")
     \/ recommendMerged users store uid keyword = []) ->
    recommendHandler regexCompiles users store user q
    = productsHandler regexCompiles store q None None /\
    (accepted = true ->
     exists page rest,
       recommendHandler regexCompiles users store user q
       = Some (json_products (hydrate <$> page)) /\
       (length page <= 200)%nat /\
       StronglySorted newerFirst page /\
       page ++ rest ≡ₚ List.filter (matchesFilter (keywordFilter keyword))
                         store /\
       (rest <> [] -> length page = 200%nat) /\
       (forall a b, a ∈ page -> b ∈ rest -> newerFirst a b)).
Proof.
  intros keyword accepted.
  split; [apply filterAccepted_keyword|].
  assert (Hyes : accepted = true ->
                 exists products,
                   recommendHandler regexCompiles users store user q
                   = Some (json_products products)).
  { intros H. rewrite (recommendHandler_accepted users store user q H).
    by eexists. }
  assert (Hno : accepted = false ->
                recommendHandler regexCompiles users store user q = None)
    by apply recommendHandler_refused.
  split; [|split].
  - split; [done|]. intros [products Hp].
    destruct accepted eqn:Ha; [done|]. rewrite Hno in Hp; done.
  - split; [done|]. intros Hnone.
    destruct accepted eqn:Ha; [|done].
    destruct (Hyes eq_refl) as [products Hp]. congruence.
  - intros uid -> Hcase.
    assert (Hdefault :
      accepted = true ->
      recommendHandler regexCompiles users store (Some uid) q
      = Some (json_products
                (hydrate <$> findRecent store (keywordFilter keyword) 200))).
    { intros Ha. rewrite (recommendHandler_accepted users store _ q Ha).
      fold keyword. rewrite !length_eqb_0.
      destruct Hcase as [(Hl & Hs & Hv & Hk)|Hm].
      - destruct (no_history_no_sources users store uid Hl Hs Hv) as [-> ->].
        rewrite Hk. reflexivity.
      - rewrite Hm. rewrite (bool_decide_eq_true_2 ([] = [])) by done.
        by case_match. }
    split.
    + rewrite productsHandler_default. fold keyword accepted.
      destruct accepted eqn:Ha; [by apply Hdefault | by apply Hno].
    + intros Ha.
      destruct (findRecent_spec store (keywordFilter keyword) 200)
        as (Hlen & Hsorted & _).
      destruct (findRecent_top store (keywordFilter keyword) 200)
        as (rest & Hperm & Hfull & Htop).
      exists (findRecent store (keywordFilter keyword) 200), rest.
      split; [by apply Hdefault|]. done.
Qed.

(** X12: whenever the recommendation route answers, it answers with at
    most 200 listings; each is a stored listing that passes the keyword
    filter of the request, as it is stored or hydrated; and when no two
    stored listings share an identity, no two listings of the answer do.
    The route answers exactly when the trimmed keyword is empty or a
    pattern the store takes as a regular expression. *)
Theorem recommend_answers_stored_matches (users : list UserDoc)
    (store : list Product) (user q : option string) :
  let keyword := keywordOf q in
  (is_Some (recommendHandler regexCompiles users store user q) <->
   keyword = "" \/ regexCompiles keyword = true) /\
  forall r, recommendHandler regexCompiles users store user q = Some r ->
    exists products,
      r = json_products products /\
      (length products <= 200)%nat /\
      (forall p, p ∈ products ->
         exists s, s ∈ store /\ (p = s \/ p = hydrate s) /\
           matchesFilter (keywordFilter keyword) s = true) /\
      (NoDup (_id <$> store) -> NoDup (_id <$> products)).
Proof.
  intros keyword.
  assert (Hids : forall l : list Product,
            (forall p, p ∈ l -> p ∈ store) -> NoDup l ->
            NoDup (_id <$> store) -> NoDup (_id <$> l)).
  { intros l Hsub Hl Hstore. apply NoDup_fmap_2_strong; [|done].
    intros x y Hx Hy. apply (NoDup_fmap_eq _id store); auto. }
  assert (Hdefault :
    let page := findRecent store (keywordFilter keyword) 200 in
    (length (hydrate <$> page) <= 200)%nat /\
    (forall p, p ∈ hydrate <$> page ->
       exists s, s ∈ store /\ (p = s \/ p = hydrate s) /\
         matchesFilter (keywordFilter keyword) s = true) /\
    (NoDup (_id <$> store) -> NoDup (_id <$> (hydrate <$> page)))).
  { intros page. split; [|split].
    - rewrite length_fmap. unfold page, findRecent. rewrite length_take. lia.
    - intros p Hp. apply list_elem_of_fmap in Hp as (s & -> & Hs).
      apply findRecent_elem_of in Hs as [? ?]. exists s. eauto.
    - intros Hstore. rewrite hydrate_ids. apply Hids; [|..|done].
      + intros p Hp. by apply findRecent_elem_of in Hp as [? _].
      + apply findRecent_NoDup. by eapply NoDup_fmap_1. }
  assert (Hmerged : forall uid,
    let m := recommendMerged users store uid keyword in
    (length m <= 200)%nat /\
    (forall p, p ∈ m ->
       exists s, s ∈ store /\ (p = s \/ p = hydrate s) /\
         matchesFilter (keywordFilter keyword) s = true) /\
    (NoDup (_id <$> store) -> NoDup (_id <$> m))).
  { intros uid m. split; [|split].
    - unfold m, recommendMerged, mergeTiers, limit. rewrite length_take. lia.
    - intros p Hp. apply merged_not_excluded in Hp as [Hp _].
      apply findRecent_elem_of in Hp as [? ?]. exists p. eauto.
    - intros Hstore. apply Hids; [|..|done].
      + intros p Hp. apply merged_not_excluded in Hp as [Hp _].
        by apply findRecent_elem_of in Hp as [? _].
      + apply merged_NoDup, findRecent_NoDup. by eapply NoDup_fmap_1. }
  split.
  - rewrite <- filterAccepted_keyword.
    destruct (filterAccepted regexCompiles (keywordFilter keyword)) eqn:Ha.
    + rewrite (recommendHandler_accepted users store user q Ha).
      split; [done | by eexists].
    + rewrite (recommendHandler_refused users store user q Ha).
      split; [by intros [? ?] | done].
  - intros r Hr.
    destruct (filterAccepted regexCompiles (keywordFilter keyword)) eqn:Ha.
    2:{ by rewrite (recommendHandler_refused users store user q Ha) in Hr. }
    rewrite (recommendHandler_accepted users store user q Ha) in Hr.
    injection Hr as <-. fold keyword. eexists. split; [reflexivity|].
    destruct user as [uid|]; [|apply Hdefault].
    destruct (_ && _); [apply Hdefault|].
    destruct (_ =? _)%nat; [apply Hdefault | apply Hmerged].
Qed.

End HandlerProperties.

(** ** Accounts: the routes behind their rate limiter *)

Section RateLimitProperties.

Variable Limiter : Type.
Variable limiterDecides : Limiter -> string -> Z -> bool * Limiter.
Variable limiterMessage : string.
Variable isEmail : string -> bool.
Variable sendRefusal : string -> string.
Variable verifyRefusal : string -> string -> string.
Variable bcryptHash : string -> string.
Variable resetRefusal : string -> string -> string -> string.
Variable validationError : Account -> string.

#[local] Abbreviation verifyRoute :=
  (verifyCodeRoute Limiter limiterDecides limiterMessage isEmail verifyRefusal).
#[local] Abbreviation sendRoute :=
  (sendCodeRoute Limiter limiterDecides limiterMessage isEmail sendRefusal).
#[local] Abbreviation resetRoute :=
  (resetPasswordRoute Limiter limiterDecides limiterMessage isEmail bcryptHash
     resetRefusal validationError).

Lemma verifyRoute_passed (limiter : Limiter) (client : string)
    (codes : list EmailCode) (now : Z) (email guess : string) :
  (limiterDecides limiter client now).1 = true ->
  verifyRoute limiter client codes now email guess
  = (verifyCode isEmail verifyRefusal codes now email guess,
     (limiterDecides limiter client now).2).
Proof.
  unfold verifyCodeRoute, limited.
  destruct (limiterDecides limiter client now) as [passed limiter'].
  cbn [fst snd]. by intros ->.
Qed.

Lemma verifyRoute_stopped (limiter : Limiter) (client : string)
    (codes : list EmailCode) (now : Z) (email guess : string) :
  (limiterDecides limiter client now).1 = false ->
  verifyRoute limiter client codes now email guess
  = ((reply_error 429 limiterMessage, codes),
     (limiterDecides limiter client now).2).
Proof.
  unfold verifyCodeRoute, limited.
  destruct (limiterDecides limiter client now) as [passed limiter'].
  cbn [fst snd]. by intros ->.
Qed.

Lemma verifyRoute_no_code (limiter : Limiter) (client : string)
    (codes : list EmailCode) (now : Z) (email guess : string) :
  findCode codes email = None ->
  (verifyRoute limiter client codes now email guess).1.1 <> reply_ok tt.
Proof.
  intros Hnone.
  destruct (limiterDecides limiter client now).1 eqn:Hd.
  - rewrite verifyRoute_passed by done. cbn [fst]. intros Hok.
    apply verifyCode_ok_iff in Hok as [_ (doc & Hdoc & _)]. congruence.
  - by rewrite verifyRoute_stopped.
Qed.

(** X22: [POST /verify-code], behind the limiter of the router, answers
    200 exactly when the limiter passes the request on, the body passes
    the parser and the address has a stored code that has not expired,
    has fewer than five failed attempts and equals the code of the body;
    a request the limiter stops is answered 429 and changes no code.  A
    code that was accepted is gone: whatever is asked for the address
    afterwards, by whatever client and at whatever time, is not answered
    200 before a new code is stored.  The route keeps one code for an
    address at most and never touches the code of another address. *)
Theorem verify_code_route_accepts_once (limiter : Limiter) (client : string)
    (codes : list EmailCode) (now : Z) (email guess : string) :
  NoDup (codeEmail <$> codes) ->
  let r := verifyRoute limiter client codes now email guess in
  let passed := (limiterDecides limiter client now).1 in
  (r.1.1 = reply_ok tt <->
     passed = true /\
     validVerifyBody isEmail email guess = true /\
     exists doc, findCode codes email = Some doc /\ now <= expiresAt doc /\
                 attempts doc < 5 /\ code doc = guess) /\
  (passed = false -> r.1 = (reply_error 429 limiterMessage, codes)) /\
  (r.1.1 = reply_ok tt ->
     findCode r.1.2 email = None /\
     forall limiter' client' now' guess',
       (verifyRoute limiter' client' r.1.2 now' email guess').1.1
       <> reply_ok tt) /\
  NoDup (codeEmail <$> r.1.2) /\
  (forall other, other <> email -> findCode r.1.2 other = findCode codes other).
Proof.
  clear sendRefusal resetRefusal bcryptHash.
  forget_parameters.
  intros Hnd r passed. subst r passed.
  destruct (limiterDecides limiter client now).1 eqn:Hd.
  - rewrite verifyRoute_passed by done. cbn [fst snd].
    destruct (verify_accepts_once isEmail verifyRefusal codes now email guess
                Hnd) as (Hiff & Honce & Hkeep & Hother).
    split; [rewrite Hiff; tauto|]. split; [done|].
    split; [|done].
    intros Hok. destruct (Honce Hok) as [Hgone _]. split; [done|].
    intros limiter' client' now' guess'. by apply verifyRoute_no_code.
  - rewrite verifyRoute_stopped by done. cbn [fst snd].
    split; [split; [done | by intros [? _]]|]. by repeat split.
Qed.

Lemma verifyRun_wrong (email : string)
    (requests : list (string * Z * string)) :
  forall (limiter : Limiter) (codes : list EmailCode) (doc : EmailCode),
    findCode codes email = Some doc ->
    Forall (fun request =>
              validVerifyBody isEmail email request.2 = true /\
              request.1.2 <= expiresAt doc /\ request.2 <> code doc)
      requests ->
    findCode
      (verifyRun Limiter limiterDecides limiterMessage isEmail verifyRefusal
         limiter codes email requests).1 email
    = Some {| codeEmail := email; code := code doc;
              expiresAt := expiresAt doc;
              attempts :=
                Z.max (attempts doc)
                  (Z.min 5
                     (attempts doc
                      + Z.of_nat (passedOn Limiter limiterDecides limiter
                                    requests))) |}.
Proof.
  induction requests as [|request rest IH]; intros limiter codes doc Hdoc Hall.
  - cbn [verifyRun passedOn fst]. rewrite Hdoc. f_equal.
    destruct (findCode_Some _ _ _ Hdoc) as [Hemail _].
    destruct doc; simpl in *. f_equal; [done | lia].
  - apply Forall_cons in Hall as [(Hvalid & Hlive & Hwrong) Hall].
    cbn [verifyRun passedOn].
    destruct (limiterDecides limiter request.1.1 request.1.2).1 eqn:Hd.
    + rewrite verifyRoute_passed by done. cbn [fst snd].
      pose proof (verifyCode_wrong isEmail verifyRefusal codes request.1.2
                    email request.2 doc Hdoc Hvalid Hlive Hwrong) as Hnext.
      rewrite (IH _ _ _ Hnext); [|exact Hall].
      cbn [code expiresAt attempts]. f_equal. f_equal.
      destruct (Z.leb_spec 5 (attempts doc)); lia.
    + rewrite verifyRoute_stopped by done. cbn [fst snd].
      by rewrite (IH _ _ _ Hdoc Hall).
Qed.

(** X23: failed attempts lock a code, and only requests that reach the
    handler count.  Take a stored code and a run of requests to
    [POST /verify-code] for its address, each with a well-formed wrong
    code and made before the code expires.  After the run the code is
    stored with its failed attempts raised by the number of requests the
    limiter passed on, up to five; the requests the limiter stopped leave
    no trace.  When that count reaches five, the next request made before
    the expiry is answered 429, whatever code it carries, the right one
    as well, and leaves the codes as they are. *)
Theorem passed_wrong_guesses_lock_code (limiter : Limiter)
    (codes : list EmailCode) (email : string) (doc : EmailCode)
    (requests : list (string * Z * string)) (client : string) (now : Z)
    (guess : string) :
  findCode codes email = Some doc ->
  Forall (fun request =>
            validVerifyBody isEmail email request.2 = true /\
            request.1.2 <= expiresAt doc /\ request.2 <> code doc)
    requests ->
  let run := verifyRun Limiter limiterDecides limiterMessage isEmail
               verifyRefusal limiter codes email requests in
  let failed :=
    Z.max (attempts doc)
      (Z.min 5
         (attempts doc
          + Z.of_nat (passedOn Limiter limiterDecides limiter requests))) in
  findCode run.1 email
  = Some {| codeEmail := email; code := code doc; expiresAt := expiresAt doc;
            attempts := failed |} /\
  (5 <= failed ->
   now <= expiresAt doc ->
   validVerifyBody isEmail email guess = true ->
   exists message,
     (verifyRoute run.2 client run.1 now email guess).1
     = (reply_error 429 message, run.1)).
Proof.
  intros Hdoc Hall run failed.
  pose proof (verifyRun_wrong email requests limiter codes doc Hdoc Hall)
    as Hfound.
  fold run failed in Hfound. split; [exact Hfound|].
  intros Hfive Hlive Hvalid.
  destruct (limiterDecides run.2 client now).1 eqn:Hd.
  - rewrite verifyRoute_passed by done. cbn [fst].
    exists "시도 횟수 초과". unfold verifyCode.
    rewrite Hvalid, Hfound. cbn [negb expiresAt attempts].
    destruct (Z.ltb_spec (expiresAt doc) now); [lia|].
    destruct (Z.leb_spec 5 failed); [done | lia].
  - rewrite verifyRoute_stopped by done. cbn [fst]. by exists limiterMessage.
Qed.

Lemma sendRoute_passed (limiter : Limiter) (client : string)
    (codes : list EmailCode) (now : Z) (drawn : string) (sent : bool)
    (email : string) :
  (limiterDecides limiter client now).1 = true ->
  sendRoute limiter client codes now drawn sent email
  = (sendCode isEmail sendRefusal codes now drawn sent email,
     (limiterDecides limiter client now).2).
Proof.
  unfold sendCodeRoute, limited.
  destruct (limiterDecides limiter client now) as [passed limiter'].
  cbn [fst snd]. by intros ->.
Qed.

Lemma sendRoute_stopped (limiter : Limiter) (client : string)
    (codes : list EmailCode) (now : Z) (drawn : string) (sent : bool)
    (email : string) :
  (limiterDecides limiter client now).1 = false ->
  sendRoute limiter client codes now drawn sent email
  = ((reply_error 429 limiterMessage, codes),
     (limiterDecides limiter client now).2).
Proof.
  unfold sendCodeRoute, limited.
  destruct (limiterDecides limiter client now) as [passed limiter'].
  cbn [fst snd]. by intros ->.
Qed.

(** X24: [POST /send-code], behind the limiter, with a well-formed
    address.  A request the limiter stops is answered 429 and stores
    nothing.  A request it passes on stores the code drawn for the
    address, with no failed attempt and an expiry ten minutes ahead, in
    place of the code the address had, also when the mail does not go
    out; the answer is 200 exactly when the request was passed on and the
    mail went out.  Up to the expiry, a request to [POST /verify-code]
    with the drawn code is answered 200 exactly when the limiter passes
    it on; after the expiry no code is accepted for the address.  The
    codes of other addresses are never touched. *)
Theorem send_code_route_then_verify (limiter : Limiter) (client : string)
    (codes : list EmailCode) (now : Z) (drawn : string) (sent : bool)
    (email : string) :
  NoDup (codeEmail <$> codes) ->
  isEmail email = true ->
  (4 <= String.length drawn <= 8)%nat ->
  let r := sendRoute limiter client codes now drawn sent email in
  let passed := (limiterDecides limiter client now).1 in
  (passed = false -> r.1 = (reply_error 429 limiterMessage, codes)) /\
  (r.1.1 = reply_ok tt <-> passed = true /\ sent = true) /\
  NoDup (codeEmail <$> r.1.2) /\
  (forall other, other <> email -> findCode r.1.2 other = findCode codes other) /\
  (passed = true ->
   findCode r.1.2 email
   = Some {| codeEmail := email; code := drawn;
             expiresAt := now + 600000; attempts := 0 |} /\
   (forall limiter' client' now', now' <= now + 600000 ->
      ((verifyRoute limiter' client' r.1.2 now' email drawn).1.1 = reply_ok tt
       <-> (limiterDecides limiter' client' now').1 = true)) /\
   (forall limiter' client' now' guess, now + 600000 < now' ->
      (verifyRoute limiter' client' r.1.2 now' email guess).1.1
      <> reply_ok tt)).
Proof.
  clear toLowerCase resetRefusal regexTest bcryptHash.
  intros Hnd Hemail Hlen r passed. subst r passed.
  destruct (limiterDecides limiter client now).1 eqn:Hd.
  - rewrite sendRoute_passed by done. cbn [fst snd].
    destruct (sent_code_verifies isEmail sendRefusal verifyRefusal codes now
                drawn sent email Hnd Hemail Hlen)
      as (Hok & Hfound & Hkeep & Hother & Hverify & Hlate).
    split; [done|]. split; [rewrite Hok; tauto|].
    split; [done|]. split; [done|]. intros _.
    split; [done|]. split.
    + intros limiter' client' now' Hnow.
      destruct (limiterDecides limiter' client' now').1 eqn:Hd'.
      * rewrite verifyRoute_passed by done. cbn [fst].
        split; [done|]. intros _. by apply Hverify.
      * rewrite verifyRoute_stopped by done. cbn [fst]. done.
    + intros limiter' client' now' guess Hnow.
      destruct (limiterDecides limiter' client' now').1 eqn:Hd'.
      * rewrite verifyRoute_passed by done. cbn [fst]. by apply Hlate.
      * rewrite verifyRoute_stopped by done. cbn [fst]. done.
  - rewrite sendRoute_stopped by done. cbn [fst snd].
    split; [done|]. split; [split; [done | by intros [? _]]|].
    by repeat split.
Qed.

Lemma resetRoute_passed (limiter : Limiter) (client : string)
    (codes : list EmailCode) (accounts : list Account) (now : Z)
    (email guess newPassword : string) :
  (limiterDecides limiter client now).1 = true ->
  resetRoute limiter client codes accounts now email guess newPassword
  = (let r := resetPassword isEmail bcryptHash resetRefusal validationError
                codes accounts now email guess newPassword in
     (r.1.1, (r.1.2, r.2)),
     (limiterDecides limiter client now).2).
Proof.
  unfold resetPasswordRoute, limited.
  destruct (limiterDecides limiter client now) as [passed limiter'].
  cbn [fst snd]. by intros ->.
Qed.

Lemma resetRoute_stopped (limiter : Limiter) (client : string)
    (codes : list EmailCode) (accounts : list Account) (now : Z)
    (email guess newPassword : string) :
  (limiterDecides limiter client now).1 = false ->
  resetRoute limiter client codes accounts now email guess newPassword
  = ((reply_error 429 limiterMessage, (codes, accounts)),
     (limiterDecides limiter client now).2).
Proof.
  unfold resetPasswordRoute, limited.
  destruct (limiterDecides limiter client now) as [passed limiter'].
  cbn [fst snd]. by intros ->.
Qed.

(** X29: a password changes only against a live code for the address of
    the account, in a request the limiter passes on.  With accounts of
    different identities and one code for an address at most,
    [POST /find-password/reset], behind the limiter, answers 200 exactly
    when the limiter passes the request on, the body passes the parser,
    the address has a stored code that has not expired, has fewer than
    five failed attempts and equals the code of the body, an account has
    the address, and the hash is not empty.  Then the first account with
    the address gets the hash of the new password and keeps its identity,
    user id and address, and the code is gone.  A request the limiter
    stops is answered 429 and changes nothing.  Whatever the answer, no
    account is added or removed and no user id or address changes;
    without a 200 no account changes at all.  On a body that passes the
    parser, for an address that has an account and with a hash that is
    not empty, the route answers and leaves the codes and the limiter
    exactly as [POST /verify-code] does for the same client, time,
    address and code: the two routes read one collection of codes,
    whichever route stored the code. *)
Theorem reset_route_needs_live_code (limiter : Limiter) (client : string)
    (codes : list EmailCode) (accounts : list Account) (now : Z)
    (email guess newPassword : string) :
  NoDup (codeEmail <$> codes) ->
  NoDup (accountId <$> accounts) ->
  let r := resetRoute limiter client codes accounts now email guess
             newPassword in
  let passed := (limiterDecides limiter client now).1 in
  (r.1.1 = reply_ok tt <->
     passed = true /\
     validResetBody isEmail email guess newPassword = true /\
     (exists doc, findCode codes email = Some doc /\ now <= expiresAt doc /\
                  attempts doc < 5 /\ code doc = guess) /\
     (exists user, findAccountByEmail accounts email = Some user) /\
     bcryptHash newPassword <> "") /\
  (passed = false ->
   r.1 = (reply_error 429 limiterMessage, (codes, accounts))) /\
  (r.1.1 = reply_ok tt ->
     exists user,
       findAccountByEmail accounts email = Some user /\
       List.find (fun a => String.eqb (accountId a) (accountId user))
         r.1.2.2
       = Some (mkAccount (accountId user) (accountUserId user)
                 (accountEmail user) (bcryptHash newPassword)) /\
       (forall a, a ∈ r.1.2.2 ->
          a ∈ accounts \/ accountId a = accountId user) /\
       findCode r.1.2.1 email = None) /\
  (r.1.1 <> reply_ok tt -> r.1.2.2 = accounts) /\
  map (fun a => (accountId a, accountUserId a, accountEmail a)) r.1.2.2
  = map (fun a => (accountId a, accountUserId a, accountEmail a)) accounts /\
  (validResetBody isEmail email guess newPassword = true ->
   (exists user, findAccountByEmail accounts email = Some user) ->
   bcryptHash newPassword <> "" ->
   (r.1.1, r.1.2.1, r.2) = verifyRoute limiter client codes now email guess).
Proof.
  clear toLowerCase sendRefusal regexTest.
  intros Hcodes Hids r passed. subst r passed.
  destruct (limiterDecides limiter client now).1 eqn:Hd.
  - rewrite (verifyRoute_passed limiter client codes now email guess Hd).
    rewrite resetRoute_passed by done. cbn [fst snd].
    destruct (reset_needs_live_code isEmail bcryptHash resetRefusal
                validationError verifyRefusal codes accounts now email guess
                newPassword Hcodes Hids)
      as (Hiff & Hdone & Hkeep & Hmap & Hsame).
    split; [rewrite Hiff; tauto|]. split; [done|].
    split; [done|]. split; [done|]. split; [done|].
    intros Hv Hu Hh. rewrite <- (Hsame Hv Hu Hh).
    by destruct (resetPassword _ _ _ _ _ _ _ _ _ _) as [[? ?] ?].
  - rewrite (verifyRoute_stopped limiter client codes now email guess Hd).
    rewrite resetRoute_stopped by done. cbn [fst snd].
    split; [split; [done | by intros [? _]]|]. by repeat split.
Qed.

End RateLimitProperties.

End Discovery.

(** * Worked instances *)

Example splitKeywords_example :
  splitKeywords ",a b--c," = [""; "a"; "b"; "c"; ""].
Proof. reflexivity. Qed.

Example addKeywords_example :
  addKeywords lowerAscii ∅ (Some "Hello, big-World a_b")
  = {["hello"; "big"; "world"]}.
Proof. by vm_compute. Qed.

Example popularList_example :
  popularList literalRegexTest [listingB; listingA] (mkFilter None None)
  = [addCounts listingA; addCounts listingB].
Proof. by vm_compute. Qed.

(** The scenario of the contract: the user likes an electronics listing;
    the electronics candidate comes before the furniture one although the
    store holds it after. *)
Example recommend_scenario :
  getRecommend lowerAscii literalRegexTest []
    [furnitureY; electronicsL; electronicsX] (Some "u") None
  = json_products [electronicsX; furnitureY].
Proof. by vm_compute. Qed.

(** The route loads at most 40 liked listings, so the exclusion set holds
    the identities of those only: a listing the user likes beyond them can
    be recommended. *)
Example liked_beyond_forty_is_recommended :
  recommendMerged lowerAscii literalRegexTest [] likedBy41 "u" ""
  = drop 40 likedBy41 /\
  length (likedListings likedBy41 "u") = 41%nat.
Proof. by vm_compute. Qed.

(** The loop tests [!!product.category] before it asks the set, so a
    category set holding the empty string, which the route never builds,
    would not make a candidate without a category label a match: the
    condition on the category sets in the contract of the scorer is not
    idle. *)
Example empty_category_is_no_match :
  let p1 := mkProduct "a" (Some "desk") (Some "home") None None 2 in
  let p2 := mkProduct "b" (Some "lamp") (Some "") None None 1 in
  merged lowerAscii {[""]} ∅ ∅ ∅ ∅ [p1; p2] = [p1; p2] /\
  tieredMerge lowerAscii {[""]} ∅ ∅ ∅ ∅ categoryIn [p1; p2] = [p2; p1] /\
  merged lowerAscii {[""]} ∅ ∅ ∅ ∅ [p1; p2]
  <> tieredMerge lowerAscii {[""]} ∅ ∅ ∅ ∅ categoryIn [p1; p2].
Proof.
  intros p1 p2.
  assert (H1 : merged lowerAscii {[""]} ∅ ∅ ∅ ∅ [p1; p2] = [p1; p2])
    by (by vm_compute).
  assert (H2 : tieredMerge lowerAscii {[""]} ∅ ∅ ∅ ∅ categoryIn [p1; p2]
               = [p2; p1]) by (by vm_compute).
  split; [done|]. split; [done|]. rewrite H1, H2. discriminate.
Qed.

(** C2, counterexample to the claim as worded: the user likes 41
    listings; the route loads the first 40 of them, so the exclusion set
    misses the last one, and that listing, which the user likes, is in
    the merged output. *)
Lemma recommend_liked_listing_counterexample :
  let p := mkProduct "X" (Some "vase") (Some "home") (Some ["u"]) None 40 in
  p ∈ likedListings likedBy41 "u" /\
  _id p ∉ recommendExcludeIds [] likedBy41 "u" /\
  p ∈ recommendMerged lowerAscii literalRegexTest [] likedBy41 "u" "".
Proof.
  intros p. split; [|split].
  - vm_compute. do 40 apply list_elem_of_further. apply list_elem_of_here.
  - apply (bool_decide_unpack _). by vm_compute.
  - vm_compute. apply list_elem_of_here.
Qed.

(** C7, counterexample to the contract as worded: the empty title
    contains the empty keyword, and the code answers [false]. *)
Lemma hasKeywordMatch_empty_title_counterexample :
  ~ (forall (title : option string) (keywords : gset string),
       hasKeywordMatch lowerAscii title keywords = true <->
       exists t, title = Some t /\
         exists k, k ∈ keywords /\ substringOf k (lowerAscii t)).
Proof.
  intros H. specialize (H (Some "") {[""]}).
  assert (Hcode : hasKeywordMatch lowerAscii (Some "") {[""]} = false)
    by reflexivity.
  rewrite Hcode in H. apply proj2 in H. enough (false = true) by done.
  apply H. exists "". split; [done|]. exists "". split; [set_solver|].
  by exists "", "".
Qed.

(** ** Instances of the theorems with hypotheses *)

Lemma hasKeywordMatch_spec_witness :
  hasKeywordMatch lowerAscii (Some "Floor LAMP") {["lamp"; "sofa"]} = true.
Proof.
  apply (proj2 (proj1 (hasKeywordMatch_spec lowerAscii (Some "Floor LAMP")
                         {["lamp"; "sofa"]}))).
  exists "Floor LAMP". split; [done|]. split; [done|].
  exists "lamp". split; [set_solver|]. by exists "floor ", "".
Defined.

Lemma popular_ranking_spec_witness :
  precedes (addCounts listingA) (addCounts listingB)
    (popularList literalRegexTest [listingB; listingA] (listFilter None None)).
Proof.
  destruct (popular_ranking_spec literalRegexTest [listingB; listingA] None None)
    as (_ & _ & _ & _ & _ & H).
  apply H; [| |reflexivity..].
  - vm_compute. apply list_elem_of_further, list_elem_of_here.
  - vm_compute. apply list_elem_of_further, list_elem_of_here.
Defined.

Lemma anonymous_recommend_is_default_witness :
  keywordOf (Some "  ") = "" /\ keywordOf None = "" /\
  Some "recent" <> Some "popular" /\
  getRecommend lowerAscii literalRegexTest [] [listingA; listingB] None
    (Some "  ")
  = getProducts literalRegexTest [listingA; listingB] None None (Some "recent").
Proof.
  split; [reflexivity|]. split; [reflexivity|]. split; [discriminate|].
  apply (anonymous_recommend_is_default lowerAscii literalRegexTest []
           [listingA; listingB] (Some "  ") None (Some "recent"));
    [reflexivity | reflexivity | discriminate].
Defined.

Lemma recommend_excludes_witness :
  electronicsX
    ∈ recommendMerged lowerAscii literalRegexTest []
        [furnitureY; electronicsL; electronicsX] "u" "" /\
  _id electronicsX
    ∉ recommendExcludeIds [] [furnitureY; electronicsL; electronicsX] "u".
Proof.
  assert (H : electronicsX
    ∈ recommendMerged lowerAscii literalRegexTest []
        [furnitureY; electronicsL; electronicsX] "u" "").
  { vm_compute. apply list_elem_of_here. }
  split; [exact H|].
  exact (proj1 (recommend_excludes lowerAscii literalRegexTest []
                  [furnitureY; electronicsL; electronicsX] "u" ""
                  electronicsX H)).
Defined.

Lemma like_toggle_no_duplicates_witness :
  findProductById [listingA; electronicsL] "L" = Some electronicsL /\
  NoDup (likedByOf electronicsL) /\
  likedByOf (toggleLike electronicsL "u") = [] /\
  likedByOf (toggleLike electronicsL "v") = ["u"; "v"] /\
  NoDup (likedByOf (toggleLike electronicsL "v")).
Proof.
  assert (Hf : findProductById [listingA; electronicsL] "L" = Some electronicsL)
    by reflexivity.
  assert (Hn : NoDup (likedByOf electronicsL)).
  { apply NoDup_singleton. }
  split; [exact Hf|]. split; [exact Hn|].
  split; [reflexivity|]. split; [reflexivity|].
  exact (proj1 (proj2 (proj2
    (like_toggle_no_duplicates [listingA; electronicsL] "v" "L" electronicsL
       Hf Hn)))).
Defined.

(** ** Instances of the theorems on the other routes *)

Lemma share_increments_counter_witness :
  findProductById [listingA; electronicsL] "L" = Some electronicsL /\
  (postShare [listingA; electronicsL] [] None "L").1.1 = reply_ok 1.
Proof.
  assert (Hf : findProductById [listingA; electronicsL] "L"
               = Some electronicsL) by reflexivity.
  split; [exact Hf|].
  exact (proj1 (share_increments_counter [listingA; electronicsL] [] None
                  "L" electronicsL Hf)).
Defined.

Lemma share_records_history_witness :
  findProductById [listingA; electronicsL] "L" = Some electronicsL /\
  findUserById [userU] "u" = Some userU /\
  sharedHistory
    (postShare [listingA; electronicsL] [userU] (Some "u") "L").2 "u"
  = ["L"; "A"].
Proof.
  assert (Hf : findProductById [listingA; electronicsL] "L"
               = Some electronicsL) by reflexivity.
  assert (Hu : findUserById [userU] "u" = Some userU) by reflexivity.
  split; [exact Hf|]. split; [exact Hu|].
  exact (proj1 (share_records_history [listingA; electronicsL] [userU]
                  "u" "L" electronicsL userU Hf Hu)).
Defined.

Lemma shared_listing_not_in_tiers_witness :
  let store := [furnitureY; electronicsL; electronicsX] in
  let result := postShare store [userU] (Some "u") "Y" in
  findProductById store "Y" = Some furnitureY /\
  findUserById [userU] "u" = Some userU /\
  electronicsX
    ∈ recommendMerged lowerAscii literalRegexTest result.2 result.1.2 "u" "" /\
  _id electronicsX <> "Y".
Proof.
  intros store result.
  assert (Hf : findProductById store "Y" = Some furnitureY) by reflexivity.
  assert (Hu : findUserById [userU] "u" = Some userU) by reflexivity.
  assert (Hin : electronicsX
    ∈ recommendMerged lowerAscii literalRegexTest result.2 result.1.2 "u" "").
  { vm_compute. apply list_elem_of_here. }
  split; [exact Hf|]. split; [exact Hu|]. split; [exact Hin|].
  exact (shared_listing_not_in_tiers lowerAscii literalRegexTest store
           [userU] "u" "Y" "" furnitureY userU electronicsX Hf Hu Hin).
Defined.

Lemma view_records_history_witness :
  let store := [furnitureY; electronicsL; electronicsX] in
  findProductById store "X" = Some electronicsX /\
  findUserById [userU] "u" = Some userU /\
  viewedHistory (getProduct store [userU] (Some "u") "X").2 "u" = ["X"].
Proof.
  intros store.
  assert (Hf : findProductById store "X" = Some electronicsX) by reflexivity.
  assert (Hu : findUserById [userU] "u" = Some userU) by reflexivity.
  split; [exact Hf|]. split; [exact Hu|].
  exact (proj1 (view_records_history lowerAscii literalRegexTest store
                  [userU] "u" "X" electronicsX userU Hf Hu)).
Defined.

Lemma like_twice_witness :
  let store := [listingA; electronicsL] in
  findProductById store "L" = Some electronicsL /\
  NoDup (likedByOf electronicsL) /\
  map _id (postLike (postLike store (Some "v") "L").2 (Some "v") "L").2
  = map _id store.
Proof.
  intros store.
  assert (Hf : findProductById store "L" = Some electronicsL) by reflexivity.
  assert (Hn : NoDup (likedByOf electronicsL)) by apply NoDup_singleton.
  split; [exact Hf|]. split; [exact Hn|].
  exact (proj2 (proj2 (proj2 (proj2 (proj2 (proj2 (proj2
    (like_twice store "v" "L" electronicsL Hf Hn)))))))).
Defined.

Lemma view_agrees_with_like_and_share_witness :
  let store := [listingA; electronicsL] in
  findProductById store "L" = Some electronicsL /\
  exists v,
    (getProduct (postLike store (Some "v") "L").2 [userU] (Some "v") "L").1
    = reply_ok v /\
    (postLike store (Some "v") "L").1
    = json_like (viewIsLiked v) (viewLikeCount v).
Proof.
  intros store.
  assert (Hf : findProductById store "L" = Some electronicsL) by reflexivity.
  split; [exact Hf|].
  exact (proj1 (view_agrees_with_like_and_share store [userU] "v" "L"
                  electronicsL Hf)).
Defined.

Lemma same_title_matches_profile_witness :
  electronicsL ∈ [electronicsL] /\
  "radio" ∈ addKeywords lowerAscii ∅ (title electronicsL) /\
  hasKeywordMatch lowerAscii (Some "Radio")
    (sourceKeywords lowerAscii [electronicsL] "") = true.
Proof.
  assert (Hs : electronicsL ∈ [electronicsL]) by apply list_elem_of_here.
  assert (Hw : "radio" ∈ addKeywords lowerAscii ∅ (title electronicsL)).
  { apply (bool_decide_unpack _). by vm_compute. }
  split; [exact Hs|]. split; [exact Hw|].
  exact (same_title_matches_profile lowerAscii [electronicsL] ""
           electronicsL (mkProduct "Z" (Some "Radio") None None None 1)
           "radio" Hs Hw eq_refl).
Defined.

Lemma patch_effect_witness :
  let result :=
    patchProduct (Z.leb 0) underSrv (fun _ => "invalid") [cameraListing]
      {["/srv/uploads/x.png"]} (Some "u") "X" titlePatch in
  validPatch (Z.leb 0) titlePatch = true /\
  findListingById [cameraListing] "X" = Some cameraListing /\
  seller cameraListing = "u" /\
  findListingById result.1.2 "X" = Some (assignPatch cameraListing titlePatch) /\
  title (core (assignPatch cameraListing titlePatch)) = Some "Film camera".
Proof.
  intros result.
  assert (Hv : validPatch (Z.leb 0) titlePatch = true) by reflexivity.
  assert (Hf : findListingById [cameraListing] "X" = Some cameraListing)
    by reflexivity.
  assert (Hs : seller cameraListing = "u") by reflexivity.
  assert (Hr : result.1.1
               = answers (reply_ok (patched (assignPatch cameraListing
                                               titlePatch))))
    by reflexivity.
  split; [exact Hv|]. split; [exact Hf|]. split; [exact Hs|].
  pose proof (proj1 (patch_effect Z (Z.leb 0) underSrv (fun _ => "invalid")
                       [cameraListing] {["/srv/uploads/x.png"]} "u" "X"
                       titlePatch cameraListing Hv Hf Hs)
                _ Hr) as H.
  split; [exact (proj1 (proj2 H))|].
  exact (proj1 (proj2 (proj2 (proj2 (proj2 H)))) _ eq_refl).
Defined.

Lemma cleanup_removes_due_listings_witness :
  NoDup (map listingId [cameraListing; soldChair]) /\
  (cleanupSoldProducts underSrv 3601000 [cameraListing; soldChair]
     {["/srv/uploads/x.png"; "/srv/uploads/y.png"]}).1
  = [cameraListing].
Proof.
  assert (Hn : NoDup (map listingId [cameraListing; soldChair])).
  { apply (bool_decide_unpack _). by vm_compute. }
  split; [exact Hn|].
  exact (proj1 (cleanup_removes_due_listings Z underSrv 3601000
                  [cameraListing; soldChair]
                  {["/srv/uploads/x.png"; "/srv/uploads/y.png"]} Hn)).
Defined.

Lemma open_room_once_witness :
  let result :=
    openRoom anyObjectId [ownerP] [roomB] 20 "r2" (Some "c") "P" None in
  NoDup ((fun r => (roomProduct r, buyer r)) <$> [roomB]) /\
  result.2 = [roomB; mkChatRoom "r2" "P" "c" "s" [] 20] /\
  NoDup ((fun r => (roomProduct r, buyer r)) <$> result.2).
Proof.
  intros result.
  assert (Hn : NoDup ((fun r => (roomProduct r, buyer r)) <$> [roomB]))
    by apply NoDup_singleton.
  split; [exact Hn|]. split; [reflexivity|].
  exact (proj1 (open_room_once anyObjectId [ownerP] [roomB] 20 "r2"
                  (Some "c") "P" None Hn)).
Defined.

(** A text of white space passes the parser of the message route and is
    refused by the save: the answer is 500 and the room is as it was. *)
Example blank_message_is_refused :
  postMessage anyObjectId (fun _ => "invalid") [roomB] 20 21 "m1" (Some "b")
    "r1" "   "
  = (reply_error 500 "메시지를 전송하는 중 오류가 발생했습니다.", [roomB]).
Proof. reflexivity. Qed.

(** The seller of a listing without a room gets 404 and no room is made;
    the seller of a listing with rooms gets the one updated last. *)
Example seller_opens_latest_room :
  openRoom anyObjectId [ownerP] [] 20 "r2" (Some "s") "P" None
  = (reply_error 404 "채팅 요청이 없습니다.", []) /\
  openRoom anyObjectId [ownerP]
    [roomB; mkChatRoom "r3" "P" "c" "s" [] 30] 40 "r4" (Some "s") "P" None
  = (reply_ok (mkChatRoom "r3" "P" "c" "s" [] 30),
     [roomB; mkChatRoom "r3" "P" "c" "s" [] 30]).
Proof. split; by vm_compute. Qed.

Lemma buy_pays_and_delivers_witness :
  findGameUser [gamerU] "u" = Some gamerU /\
  safeInteger (gameCoins gamerU) /\
  safeInteger (itemCount fertilizer gamerU) /\
  safeInteger (itemCount fertilizer gamerU + 10) /\
  exists p,
    (buyItem (fun _ => "invalid") [gamerU] (Some "u") fertilizer 2).1
    = reply_ok p.
Proof.
  assert (Hf : findGameUser [gamerU] "u" = Some gamerU) by reflexivity.
  assert (Hc : safeInteger (gameCoins gamerU)) by reflexivity.
  assert (Hi : safeInteger (itemCount fertilizer gamerU)) by reflexivity.
  assert (Hr : safeInteger (itemCount fertilizer gamerU + 10))
    by reflexivity.
  split; [exact Hf|]. split; [exact Hc|]. split; [exact Hi|].
  split; [exact Hr|].
  apply (proj2 (proj1 (buy_pays_and_delivers Z (fun _ => "invalid") [gamerU]
                         "u" fertilizer 2 gamerU Hf Hc Hi Hr))).
  by vm_compute.
Defined.

(** Beyond 2^53 the arithmetic of the shop is not exact: with 2^60 coins
    a water can is paid with nothing, since 2^60 - 25 is no double and
    the nearest one is 2^60. *)
Example purchase_beyond_exact_numbers :
  let rich := mkGameUser "u" (2 ^ 60) 1 0 0 None 0 3 2 0 in
  exists p users',
    buyItem (fun _ => "invalid") [rich] (Some "u") waterCan 1
    = (reply_ok p, users') /\
    purchaseCost p = 25 /\ remainingCoins p = 2 ^ 60.
Proof. eexists _, _. by vm_compute. Qed.

Lemma game_patch_levels_witness :
  validGamePatch (fun p => (0 <=? p) && (p <=? 100)) levelPatch = true /\
  findGameUser [gamerU] "u" = Some gamerU /\
  dateRefused levelPatch = false /\
  exists u',
    (patchGame (fun p => (0 <=? p) && (p <=? 100)) 0 (fun _ => "invalid")
       [gamerU] (Some "u") levelPatch).1 = answers (reply_ok u') /\
    gameLevel u' = 1 /\ gameCoins u' = 700 /\ gameTreesGrown u' = 1.
Proof.
  assert (Hv : validGamePatch (fun p => (0 <=? p) && (p <=? 100)) levelPatch
               = true) by reflexivity.
  assert (Hf : findGameUser [gamerU] "u" = Some gamerU) by reflexivity.
  assert (Hd : dateRefused levelPatch = false) by reflexivity.
  split; [exact Hv|]. split; [exact Hf|]. split; [exact Hd|].
  destruct (proj2 (game_patch_levels Z (fun p => (0 <=? p) && (p <=? 100)) 0
                     (fun _ => "invalid") [gamerU] "u" levelPatch gamerU Hv
                     Hf)
              Hd ltac:(reflexivity) ltac:(reflexivity) ltac:(reflexivity))
    as (u' & Hr & _ & Hlevel & _).
  exists u'. split; [exact Hr|].
  destruct (Hlevel 4 eq_refl) as (_ & Hfour & _).
  destruct (Hfour ltac:(done)) as (Hl & Hc & Ht & _).
  split; [exact Hl|]. split; [exact Hc|]. exact Ht.
Defined.

(** A time beyond the range of [Date] passes the validator and is refused
    by the save: the handler throws and the user is as before. *)
Example invalid_date_is_not_saved :
  patchGame (fun p => (0 <=? p) && (p <=? 100)) 0 (fun _ => "invalid")
    [gamerU] (Some "u")
    (mkGamePatch None None None None (Some (Some (10 ^ 20))) None None None
       None)
  = (throws, [gamerU]).
Proof. by vm_compute. Qed.

(** C5, counterexample to the claim as worded: the keyword [(] is no
    regular expression, the query of the route fails, and the request,
    with or without an identity, is not answered. *)
Lemma recommend_invalid_pattern_counterexample :
  plainPattern "(" = false /\
  recommendHandler lowerAscii literalRegexTest plainPattern [] [listingA]
    None (Some "(") = None /\
  recommendHandler lowerAscii literalRegexTest plainPattern [userU]
    [listingA; electronicsL] (Some "u") (Some "(") = None.
Proof. by vm_compute. Qed.

(** With a keyword the store takes, the same requests are answered. *)
Example recommend_handler_scenario :
  recommendHandler lowerAscii literalRegexTest plainPattern []
    [furnitureY; electronicsL; electronicsX] (Some "u") None
  = Some (json_products [electronicsX; furnitureY]) /\
  recommendHandler lowerAscii literalRegexTest plainPattern []
    [furnitureY; electronicsX] None (Some " chair ")
  = Some (json_products [hydrate furnitureY]).
Proof. split; by vm_compute. Qed.

Lemma verify_code_route_accepts_once_witness :
  let r := verifyCodeRoute nat tenHits "too many" knownEmail
             (fun _ _ => "invalid") 0%nat "client" [storedCode] 1000
             "alice@example.com" "123456" in
  NoDup (codeEmail <$> [storedCode]) /\
  r.1.1 = reply_ok tt /\
  findCode r.1.2 "alice@example.com" = None.
Proof.
  intros r.
  assert (Hn : NoDup (codeEmail <$> [storedCode])) by apply NoDup_singleton.
  assert (Hr : r.1.1 = reply_ok tt) by reflexivity.
  split; [exact Hn|]. split; [exact Hr|].
  exact (proj1 (proj1 (proj2 (proj2
           (verify_code_route_accepts_once nat tenHits "too many" knownEmail
              (fun _ _ => "invalid") 0%nat "client" [storedCode] 1000
              "alice@example.com" "123456" Hn))) Hr)).
Defined.

Lemma passed_wrong_guesses_lock_code_witness :
  let requests :=
    [("client", 1, "000000"); ("client", 2, "000001"); ("client", 3, "000002");
     ("client", 4, "000003"); ("client", 5, "000004")] in
  let run := verifyRun nat tenHits "too many" knownEmail
               (fun _ _ => "invalid") 0%nat [storedCode]
               "alice@example.com" requests in
  findCode [storedCode] "alice@example.com" = Some storedCode /\
  Forall (fun request =>
            validVerifyBody knownEmail "alice@example.com" request.2 = true /\
            request.1.2 <= expiresAt storedCode /\
            request.2 <> code storedCode) requests /\
  exists message,
    (verifyCodeRoute nat tenHits "too many" knownEmail (fun _ _ => "invalid")
       run.2 "client" run.1 6 "alice@example.com" "123456").1
    = (reply_error 429 message, run.1).
Proof.
  intros requests run.
  assert (Hf : findCode [storedCode] "alice@example.com" = Some storedCode)
    by reflexivity.
  assert (Hall : Forall
            (fun request =>
               validVerifyBody knownEmail "alice@example.com" request.2
               = true /\
               request.1.2 <= expiresAt storedCode /\
               request.2 <> code storedCode) requests).
  { repeat apply Forall_cons_2; try apply Forall_nil_2;
      (split; [reflexivity | split; [by vm_compute | discriminate]]). }
  split; [exact Hf|]. split; [exact Hall|].
  apply (proj2 (passed_wrong_guesses_lock_code nat tenHits "too many"
                  knownEmail (fun _ _ => "invalid") 0%nat [storedCode]
                  "alice@example.com" storedCode requests "client" 6
                  "123456" Hf Hall));
    [by vm_compute | by vm_compute | reflexivity].
Defined.

(** Five wrong codes the limiter stops leave the code as it was, and the
    right code is accepted when the limiter passes requests on again. *)
Example stopped_guesses_do_not_count :
  let requests :=
    [("client", 1, "000000"); ("client", 2, "000001"); ("client", 3, "000002");
     ("client", 4, "000003"); ("client", 5, "000004")] in
  let run := verifyRun nat tenHits "too many" knownEmail
               (fun _ _ => "invalid") 10%nat [storedCode]
               "alice@example.com" requests in
  run.1 = [storedCode] /\
  (verifyCodeRoute nat tenHits "too many" knownEmail (fun _ _ => "invalid")
     0%nat "client" run.1 60006 "alice@example.com" "123456").1.1
  = reply_ok tt.
Proof. by vm_compute. Qed.

Lemma send_code_route_then_verify_witness :
  let r := sendCodeRoute nat tenHits "too many" knownEmail
             (fun _ => "invalid") 0%nat "client" [] 0 "123456" false
             "alice@example.com" in
  knownEmail "alice@example.com" = true /\
  (4 <= String.length "123456" <= 8)%nat /\
  r.1.1 = reply_error 500 "메일 전송에 실패했습니다." /\
  (verifyCodeRoute nat tenHits "too many" knownEmail (fun _ _ => "invalid")
     r.2 "client" r.1.2 600000 "alice@example.com" "123456").1.1
  = reply_ok tt.
Proof.
  intros r.
  assert (He : knownEmail "alice@example.com" = true) by reflexivity.
  assert (Hl : (4 <= String.length "123456" <= 8)%nat) by (simpl; lia).
  split; [exact He|]. split; [exact Hl|]. split; [reflexivity|].
  pose proof (proj2 (proj2 (proj2 (proj2
                (send_code_route_then_verify nat tenHits "too many"
                   knownEmail (fun _ => "invalid") (fun _ _ => "invalid")
                   0%nat "client" [] 0 "123456" false "alice@example.com"
                   (NoDup_nil_2 : NoDup (codeEmail <$> [])) He Hl))))
                eq_refl) as H.
  apply (proj2 (proj1 (proj2 H) r.2 "client" 600000 ltac:(by vm_compute))).
  reflexivity.
Defined.

Lemma reset_route_needs_live_code_witness :
  let r :=
    resetPasswordRoute nat tenHits "too many" knownEmail
      (fun p => "hash:" +:+ p) (fun _ _ _ => "invalid") (fun _ => "invalid")
      0%nat "client" [storedCode] [accountA] 1000 "alice@example.com"
      "123456" "secret" in
  NoDup (codeEmail <$> [storedCode]) /\
  NoDup (accountId <$> [accountA]) /\
  r.1.1 = reply_ok tt /\
  r.1.2.2 = [mkAccount "1" "alice" "alice@example.com" "hash:secret"] /\
  (r.1.1, r.1.2.1, r.2)
  = verifyCodeRoute nat tenHits "too many" knownEmail (fun _ _ => "invalid")
      0%nat "client" [storedCode] 1000 "alice@example.com" "123456".
Proof.
  intros r.
  assert (Hc : NoDup (codeEmail <$> [storedCode])) by apply NoDup_singleton.
  assert (Ha : NoDup (accountId <$> [accountA])) by apply NoDup_singleton.
  split; [exact Hc|]. split; [exact Ha|].
  split; [reflexivity|]. split; [reflexivity|].
  apply (proj2 (proj2 (proj2 (proj2 (proj2
           (reset_route_needs_live_code nat tenHits "too many" knownEmail
              (fun _ _ => "invalid") (fun p => "hash:" +:+ p)
              (fun _ _ _ => "invalid") (fun _ => "invalid") 0%nat "client"
              [storedCode] [accountA] 1000 "alice@example.com" "123456"
              "secret" Hc Ha))))));
    [reflexivity | by exists accountA | discriminate].
Defined.

(** Beyond 2^53 the reward of a tree is not exact either: 2^60 + 500 is
    no double and the nearest one is 2^60 + 512. *)
Example tree_reward_beyond_exact_numbers :
  let rich := mkGameUser "u" (2 ^ 60) 3 0 0 None 0 3 2 0 in
  exists u' users',
    patchGame (fun p => (0 <=? p) && (p <=? 100)) 0 (fun _ => "invalid")
      [rich] (Some "u") levelPatch
    = (answers (reply_ok u'), users') /\
    gameCoins u' = 2 ^ 60 + 512.
Proof. eexists _, _. by vm_compute. Qed.
